(** * nr.interface: interfaces, members and implementations

    A shallow embedding of [nr/interface/__init__.py].  Class objects and
    [_Member] objects are mutable and compared by identity in the source, so
    both live in a store and are referred to by their address; functions and
    exceptions are plain data. *)

From Stdlib Require Import List String Ascii Bool Arith PeanoNat Lia.
Import ListNotations.
Local Open Scope string_scope.
Local Open Scope list_scope.

(** ** Python values *)

Definition ClassId := nat.
Definition MemberId := nat.

(** A function object: its identity and the three marks that the decorators
    [default], [final] and [override] leave on it. *)
Record PyFunction := mkFunction {
  fn_id : nat;
  is_default : bool;     (* __is_default__ *)
  is_final : bool;       (* __is_final__ *)
  is_override : bool     (* __is_override__ *)
}.

Definition def (n : nat) : PyFunction := mkFunction n false false false.

Definition default (func : PyFunction) : PyFunction :=
  mkFunction (fn_id func) true (is_final func) (is_override func).

Definition final (func : PyFunction) : PyFunction :=
  mkFunction (fn_id func) true true (is_override func).

Definition override (func : PyFunction) : PyFunction :=
  mkFunction (fn_id func) (is_default func) (is_final func) true.

(** Functions have no [__eq__]: [==] and [!=] on them is identity. *)
Definition same_function (f g : PyFunction) : bool := Nat.eqb (fn_id f) (fn_id g).

(** What a class namespace can hold. *)
Inductive Value :=
| VNone
| VFunction (f : PyFunction)                       (* types.FunctionType *)
| VProperty (fget fset fdel : option PyFunction)   (* the builtin property *)
| VMember (m : MemberId)                           (* an instance of _Member *)
| VList (l : list ClassId)                         (* a list of classes *)
| VOther (type_name : string).                     (* anything else *)

(** Dictionaries keep insertion order; assigning to a key that is present
    replaces the value where it stands. *)
Definition Dict := list (string * Value).

Fixpoint dict_get (d : Dict) (k : string) : option Value :=
  match d with
  | [] => None
  | (k', v) :: d' => if String.eqb k k' then Some v else dict_get d' k
  end.

Definition dict_mem (d : Dict) (k : string) : bool :=
  match dict_get d k with Some _ => true | None => false end.

Fixpoint dict_set (d : Dict) (k : string) (v : Value) : Dict :=
  match d with
  | [] => [(k, v)]
  | (k', v') :: d' =>
      if String.eqb k k' then (k', v) :: d' else (k', v') :: dict_set d' k v
  end.

(** ** Members *)

(** The default of one property slot: [None] (the implementer must supply
    it), [NotImplemented] (nothing is asked for) or a function. *)
Inductive SlotImpl :=
| SNone
| SNotImplemented
| SImpl (f : PyFunction).

(** The fields that [Property.__init__] stores. *)
Record PropertySlots := mkProperty {
  getter_impl : SlotImpl;
  setter_impl : SlotImpl;
  deleter_impl : SlotImpl;
  getter_final : bool;
  setter_final : bool;
  deleter_final : bool
}.

Inductive MemberKind :=
| Method (impl : option PyFunction) (final : bool)
| Attribute (type : option string)
| Property (p : PropertySlots).

(** [_Member]: the owning interface and the name.  An unbound member has no
    interface and a falsy name; the model writes the falsy name as the empty
    string. *)
Record Member := mkMember {
  member_interface : option ClassId;
  member_name : string;
  member_kind : MemberKind
}.

Definition is_bound (m : Member) : bool :=
  match member_interface m with
  | Some _ => negb (String.eqb (member_name m) "")
  | None => false
  end.

Definition attr (type : option string) : Member := mkMember None "" (Attribute type).

Definition type_name_of_kind (k : MemberKind) : string :=
  match k with
  | Method _ _ => "Method"
  | Attribute _ => "Attribute"
  | Property _ => "Property"
  end.

(** ** Exceptions and outcomes *)

Inductive Exception :=
| TypeError (msg : string)
| ValueError (msg : string)
| RuntimeError (msg : string)
| ImplementationError (impl : ClassId) (interface : ClassId) (errors : list string)
| ConflictingInterfacesError (a b : ClassId).

Inductive Outcome (A : Type) :=
| Returns (a : A)
| Raises (e : Exception).
Arguments Returns {A} a.
Arguments Raises {A} e.

Definition obind {A B} (x : Outcome A) (f : A -> Outcome B) : Outcome B :=
  match x with
  | Returns a => f a
  | Raises e => Raises e
  end.

Notation "x <- c ;; k" := (obind c (fun x => k))
  (at level 61, c at next level, right associativity).

(** ** Property *)

(** A concrete [property] object: its [fget], [fset] and [fdel]. *)
Definition Triple := (option PyFunction * option PyFunction * option PyFunction)%type.

Definition is_none (s : SlotImpl) : bool :=
  match s with SNone => true | _ => false end.

(** [all(x is not None for x in [getter_impl, setter_impl, deleter_impl])] *)
Definition Property_is_pure_default (p : PropertySlots) : bool :=
  forallb (fun x => negb (is_none x)) [getter_impl p; setter_impl p; deleter_impl p].

Definition truthy (f : option PyFunction) : bool :=
  match f with Some _ => true | None => false end.

(** [if not slot and impl not in (None, NotImplemented): slot = impl] *)
Definition fill (slot : option PyFunction) (impl : SlotImpl) : option PyFunction :=
  match slot, impl with
  | None, SImpl f => Some f
  | _, _ => slot
  end.

Definition Property_satisfy (nm : string) (p : PropertySlots) (value : Triple)
  : Outcome Triple :=
  let '(fget, fset, fdel) := value in
  if truthy fget && getter_final p then
    Raises (ValueError ("propery " ++ nm ++ ": getter must not be implemented"))
  else if truthy fset && setter_final p then
    Raises (ValueError ("propery " ++ nm ++ ": setter must not be implemented"))
  else if truthy fdel && deleter_final p then
    Raises (ValueError ("propery " ++ nm ++ ": deleter must not be implemented"))
  else if is_none (getter_impl p) && negb (truthy fget) then
    Raises (ValueError ("property " ++ nm ++ ": missing getter"))
  else if is_none (setter_impl p) && negb (truthy fset) then
    Raises (ValueError ("property " ++ nm ++ ": missing setter"))
  else if is_none (deleter_impl p) && negb (truthy fdel) then
    Raises (ValueError ("property " ++ nm ++ ": missing deleter"))
  else
    Returns (fill fget (getter_impl p), fill fset (setter_impl p),
             fill fdel (deleter_impl p)).

Definition marked_default (f : option PyFunction) : bool :=
  match f with Some g => is_default g | None => false end.

Definition marked_final (f : option PyFunction) : bool :=
  match f with Some g => is_final g | None => false end.

(** A slot of the declaring [property]: a function marked as default is the
    slot's default, an unmarked one only asks for the slot, and an empty
    [fset] or [fdel] asks for nothing. *)
Definition slot_of (f : option PyFunction) (unset : SlotImpl) : SlotImpl :=
  match f with
  | Some g => if is_default g then SImpl g else SNone
  | None => unset
  end.

Definition Property_from_python_property (value : Triple) : PropertySlots :=
  let '(fget, fset, fdel) := value in
  mkProperty (slot_of fget SNone) (slot_of fset SNotImplemented)
             (slot_of fdel SNotImplemented)
             (marked_final fget) (marked_final fset) (marked_final fdel).

(** ** Classes and the store *)

(** A class object.  [cls_mro] is [__mro__] as [type.__new__] computed it,
    [cls_dict] is [vars(cls)], and [implementations] is the content of the set
    that [Interface.__metanew__] stores under that name. *)
Record PyClass := mkClass {
  cls_name : string;
  cls_bases : list ClassId;
  cls_mro : list ClassId;
  cls_dict : Dict;
  implementations : list ClassId
}.

(** The store: class objects in the order of their creation, and the
    [_Member] objects.  An address is an index. *)
Record World := mkWorld {
  classes : list PyClass;
  members : list Member
}.

Definition lookup_class (w : World) (c : ClassId) : option PyClass :=
  nth_error (classes w) c.

Definition mro (w : World) (c : ClassId) : list ClassId :=
  match lookup_class w c with Some k => cls_mro k | None => [] end.

Definition bases_of (w : World) (c : ClassId) : list ClassId :=
  match lookup_class w c with Some k => cls_bases k | None => [] end.

Definition vars (w : World) (c : ClassId) : Dict :=
  match lookup_class w c with Some k => cls_dict k | None => [] end.

Definition implementations_of (w : World) (c : ClassId) : list ClassId :=
  match lookup_class w c with Some k => implementations k | None => [] end.

(** The member at an address.  Addresses come from [alloc_member] only; one
    that was never handed out reads as a fresh placeholder. *)
Definition member (w : World) (m : MemberId) : Member :=
  nth m (members w) (attr None).

(** [issubclass(c, d)]: [d] is in the method resolution order of [c]. *)
Definition issubclass (w : World) (c d : ClassId) : bool :=
  existsb (Nat.eqb d) (mro w c).

Fixpoint lookup_mro (w : World) (l : list ClassId) (n : string) : option Value :=
  match l with
  | [] => None
  | c :: l' =>
      match dict_get (vars w c) n with
      | Some v => Some v
      | None => lookup_mro w l' n
      end
  end.

(** [getattr(c, n)] on a class; [None] stands for [AttributeError].  Members,
    functions and properties read through a class come back as themselves.
    The model looks at the namespaces of the classes of the store: what
    [object] and the metatype answer to, names with two underscores at both
    ends and [mro], is not part of it. *)
Definition getattr (w : World) (c : ClassId) (n : string) : option Value :=
  lookup_mro w (mro w c) n.

Fixpoint insert_name (n : string) (l : list string) : list string :=
  match l with
  | [] => [n]
  | x :: l' =>
      match String.compare n x with
      | Lt => n :: l
      | Eq => l
      | Gt => x :: insert_name n l'
      end
  end.

(** [dir(c)]: the names bound along the method resolution order, sorted. *)
Definition dir (w : World) (c : ClassId) : list string :=
  fold_right insert_name []
    (flat_map (fun k => map fst (vars w k)) (mro w c)).

Fixpoint update_nth {A} (n : nat) (f : A -> A) (l : list A) : list A :=
  match l, n with
  | [], _ => []
  | x :: l', 0 => f x :: l'
  | x :: l', S n' => x :: update_nth n' f l'
  end.

Definition update_class (w : World) (c : ClassId) (f : PyClass -> PyClass) : World :=
  mkWorld (update_nth c f (classes w)) (members w).

Definition setattr (w : World) (c : ClassId) (n : string) (v : Value) : World :=
  update_class w c
    (fun k => mkClass (cls_name k) (cls_bases k) (cls_mro k)
                      (dict_set (cls_dict k) n v) (implementations k)).

(** *** [type.__new__] *)

Definition not_in_tails (seqs : list (list ClassId)) (h : ClassId) : bool :=
  forallb (fun s => negb (existsb (Nat.eqb h) (tl s))) seqs.

Definition drop_head (h : ClassId) (s : list ClassId) : list ClassId :=
  match s with
  | x :: s' => if Nat.eqb x h then s' else s
  | [] => []
  end.

Definition nonempty (s : list ClassId) : bool :=
  match s with [] => false | _ => true end.

(** The merge step of the linearisation that gives the method resolution
    order; [None] when the bases have no consistent order.  Every round
    takes a class off the head of a list, so a fuel of one more than the
    total length of the lists does not run out. *)
Fixpoint c3_merge (fuel : nat) (seqs : list (list ClassId)) : option (list ClassId) :=
  match filter nonempty seqs with
  | [] => Some []
  | live =>
      match fuel with
      | 0 => None
      | S fuel' =>
          match find (not_in_tails live) (map (hd 0) live) with
          | None => None
          | Some h => option_map (cons h) (c3_merge fuel' (map (drop_head h) live))
          end
      end
  end.

Definition linearize (w : World) (self : ClassId) (bases : list ClassId)
  : option (list ClassId) :=
  let seqs := map (mro w) bases ++ [bases] in
  option_map (cons self) (c3_merge (S (List.length (List.concat seqs))) seqs).

(** State and exceptions together: a computation gets the store and hands it
    on with its outcome. *)
Definition M (A : Type) := World -> World * Outcome A.

Definition ret {A} (a : A) : M A := fun w => (w, Returns a).
Definition lift {A} (f : World -> Outcome A) : M A := fun w => (w, f w).
Definition modify (f : World -> World) : M unit := fun w => (f w, Returns tt).

Definition sbind {A B} (c : M A) (k : A -> M B) : M B :=
  fun w =>
    match c w with
    | (w', Returns a) => k a w'
    | (w', Raises e) => (w', Raises e)
    end.

Notation "x <~ c ;; k" := (sbind c (fun x => k))
  (at level 61, c at next level, right associativity).

(** The heads of the lists at which the merge is stuck. *)
Fixpoint c3_stuck (fuel : nat) (seqs : list (list ClassId)) : list ClassId :=
  match filter nonempty seqs with
  | [] => []
  | live =>
      match fuel with
      | 0 => []
      | S fuel' =>
          match find (not_in_tails live) (map (hd 0) live) with
          | None => map (hd 0) live
          | Some h => c3_stuck fuel' (map (drop_head h) live)
          end
      end
  end.

(** Every class of [l] once, at its first place. *)
Fixpoint first_occurrences (seen l : list ClassId) : list ClassId :=
  match l with
  | [] => []
  | x :: l' =>
      if existsb (Nat.eqb x) seen then first_occurrences seen l'
      else x :: first_occurrences (x :: seen) l'
  end.

(** The first base that is listed again behind itself. *)
Fixpoint duplicate_base (bases : list ClassId) : option ClassId :=
  match bases with
  | [] => None
  | b :: rest => if existsb (Nat.eqb b) rest then Some b else duplicate_base rest
  end.

Definition class_name (w : World) (c : ClassId) : string :=
  match lookup_class w c with Some k => cls_name k | None => "" end.

Definition newline : string := String (ascii_of_nat 10) "".

(** The message of the [TypeError] for bases that have no resolution order:
    a base that is listed twice is named; otherwise the classes are named
    that stand at the heads of the lists when the merge is stuck. *)
Definition mro_error (w : World) (bases : list ClassId) : string :=
  match duplicate_base bases with
  | Some b => "duplicate base class " ++ class_name w b
  | None =>
      let seqs := map (mro w) bases ++ [bases] in
      "Cannot create a consistent method resolution" ++ newline
      ++ "order (MRO) for bases "
      ++ String.concat ", "
           (map (class_name w)
              (first_occurrences []
                 (c3_stuck (S (List.length (List.concat seqs))) seqs)))
  end.

(** [type.__new__(cls, name, bases, attrs)]: a new class object with a copy
    of [attrs] as its namespace.  What [type.__new__] makes of the names
    that it keeps for itself ([__new__], [__init_subclass__],
    [__class_getitem__], [__qualname__], [__classcell__], [__slots__]) is not
    part of the model; of its errors, those for bases that are listed twice
    or have no resolution order are. *)
Definition type_new (name : string) (bases : list ClassId) (attrs : Dict) : M ClassId :=
  fun w =>
    let self := List.length (classes w) in
    match linearize w self bases with
    | None => (w, Raises (TypeError (mro_error w bases)))
    | Some l =>
        (mkWorld (classes w ++ [mkClass name bases l attrs []]) (members w),
         Returns self)
    end.

(** ** The base classes *)

Definition object : ClassId := 0.
Definition InlineMetaclassBase : ClassId := 1.
Definition Interface : ClassId := 2.
Definition Implementation : ClassId := 3.

(** Modelled from the spec: [nr.types.InlineMetaclassBase], which is not part
    of the module.  Its metaclass hands every class declaration to the
    [__metanew__] of the class, so [Interface] and [Implementation] are class
    objects like their subclasses: [Interface] owns an empty implementations
    set, and none of the names in the two class bodies is a [_Member]. *)
Definition world0 : World :=
  mkWorld
    [ mkClass "object" [] [object] [] [];
      mkClass "InlineMetaclassBase" [object] [InlineMetaclassBase; object] [] [];
      mkClass "Interface" [InlineMetaclassBase]
              [Interface; InlineMetaclassBase; object]
              [("__metanew__", VOther "classmethod");
               ("__new__", VOther "staticmethod");
               ("implemented_by", VOther "classmethod");
               ("implementations", VOther "set")] [];
      mkClass "Implementation" [InlineMetaclassBase]
              [Implementation; InlineMetaclassBase; object]
              [("__metanew__", VOther "classmethod");
               ("__init__", VFunction (def 0));
               ("implements", VOther "classmethod");
               ("__implements__", VList [])] [] ]
    [].

(** ** Interfaces *)

Definition startswith (c : ascii) (s : string) : bool :=
  match s with
  | String x _ => Ascii.eqb x c
  | EmptyString => false
  end.

Fixpoint endswith (c : ascii) (s : string) : bool :=
  match s with
  | EmptyString => false
  | String x EmptyString => Ascii.eqb x c
  | String _ s' => endswith c s'
  end.

(** [name.startswith('_') and not name.endswith('_')] *)
Definition is_private (n : string) : bool :=
  startswith "_"%char n && negb (endswith "_"%char n).

Definition name_in (n : string) (l : list string) : bool :=
  existsb (String.eqb n) l.

Definition is_function (v : Value) : bool :=
  match v with VFunction _ => true | _ => false end.

Definition Method_is_candidate (n : string) (value : Value) : bool :=
  if is_private n then false
  else if name_in n ["__new__"; "__init__"; "__constructed__"] then false
  else is_function value.

Definition Property_is_candidate (n : string) (value : Value) : bool :=
  match value with VProperty _ _ _ => true | _ => false end.

Definition alloc_member (m : Member) : M MemberId :=
  fun w => (mkWorld (classes w) (members w ++ [m]), Returns (List.length (members w))).

Definition set_member (m : MemberId) (v : Member) : M unit :=
  modify (fun w => mkWorld (classes w) (update_nth m (fun _ => v) (members w))).

(** [isinstance(value, _Member) and not value.is_bound] *)
Definition unbound_member (w : World) (value : Value) : option MemberId :=
  match value with
  | VMember m => if is_bound (member w m) then None else Some m
  | _ => None
  end.

(** [Method(self, key, impl, final)] for a function that is a candidate. *)
Definition Method_from (self : ClassId) (key : string) (value : Value) : Member :=
  match value with
  | VFunction f =>
      mkMember (Some self) key
        (Method (if is_default f then Some f else None) (is_final f))
  | _ => mkMember (Some self) key (Method None false)
  end.

(** [Property.from_python_property(self, key, value)] for a property. *)
Definition Property_from (self : ClassId) (key : string) (value : Value) : Member :=
  match value with
  | VProperty fget fset fdel =>
      mkMember (Some self) key
        (Property (Property_from_python_property (fget, fset, fdel)))
  | _ => mkMember (Some self) key (Property (Property_from_python_property (None, None, None)))
  end.

(** The body of the loop over [vars(self).items()] in
    [Interface.__metanew__]. *)
Definition define_member (self : ClassId) (kv : string * Value) : M unit :=
  let '(key, value) := kv in
  fun w =>
    match unbound_member w value with
    | Some m =>
        set_member m (mkMember (Some self) key (member_kind (member w m))) w
    | None =>
        if Method_is_candidate key value then
          (mid <~ alloc_member (Method_from self key value) ;;
           modify (fun w' => setattr w' self key (VMember mid))) w
        else if Property_is_candidate key value then
          (mid <~ alloc_member (Property_from self key value) ;;
           modify (fun w' => setattr w' self key (VMember mid))) w
        else (w, Returns tt)
    end.

Fixpoint for_each {A} (f : A -> M unit) (l : list A) : M unit :=
  match l with
  | [] => ret tt
  | x :: l' => _ <~ f x ;; for_each f l'
  end.

Definition set_implementations (c : ClassId) (s : list ClassId) : M unit :=
  modify (fun w =>
    update_class (setattr w c "implementations" (VOther "set")) c
      (fun k => mkClass (cls_name k) (cls_bases k) (cls_mro k) (cls_dict k) s)).

Definition Interface_metanew (name : string) (bases : list ClassId) (attrs : Dict)
  : M ClassId :=
  self <~ type_new name bases attrs ;;
  _ <~ set_implementations self [] ;;
  items <~ lift (fun w => Returns (vars w self)) ;;
  _ <~ for_each (define_member self) items ;;
  ret self.

Definition is_interface (w : World) (c : ClassId) : bool :=
  issubclass w c Interface.

Definition member_values (w : World) (c : ClassId) : list MemberId :=
  flat_map
    (fun n => match getattr w c n with Some (VMember m) => [m] | _ => [] end)
    (dir w c).

Definition members_of (w : World) (c : ClassId) : Outcome (list MemberId) :=
  if is_interface w c then Returns (member_values w c)
  else Raises (TypeError "expected Interface subclass").

Definition has_member (w : World) (c : ClassId) (n : string) : bool :=
  if is_private n || name_in n ["__new__"; "__init__"] then false
  else
    match getattr w c n with
    | None => false
    | Some (VMember m) =>
        match member_kind (member w m) with
        | Method _ _ | Attribute _ => true
        | Property _ => false
        end
    | Some _ => false
    end.

(** [am is not bm] *)
Definition is_not (am : MemberId) (bm : Value) : bool :=
  match bm with
  | VMember m => negb (Nat.eqb am m)
  | _ => true
  end.

Definition conflict_of (w : World) (b : ClassId) (am : MemberId) : list string :=
  match getattr w b (member_name (member w am)) with
  | None => []
  | Some bm => if is_not am bm then [member_name (member w am)] else []
  end.

Definition get_conflicting_members (w : World) (a b : ClassId) : Outcome (list string) :=
  if negb (is_interface w a) || negb (is_interface w b) then
    Raises (TypeError "expected Interface subclass")
  else if issubclass w a b || issubclass w b a then Returns []
  else
    ms <- members_of w a ;;
    Returns (flat_map (conflict_of w b) ms).

Definition class_in (x : ClassId) (l : list ClassId) : bool :=
  existsb (Nat.eqb x) l.

(** [for y in implements: if get_conflicting_members(x, y): raise ...] *)
Fixpoint check_conflicts (w : World) (x : ClassId) (ys : list ClassId) : Outcome unit :=
  match ys with
  | [] => Returns tt
  | y :: ys' =>
      conflicts <- get_conflicting_members w x y ;;
      match conflicts with
      | [] => check_conflicts w x ys'
      | _ :: _ => Raises (ConflictingInterfacesError x y)
      end
  end.

Fixpoint implements_loop (w : World) (interfaces implements : list ClassId)
  : Outcome (list ClassId) :=
  match interfaces with
  | [] => Returns implements
  | x :: rest =>
      _ <- check_conflicts w x implements ;;
      implements_loop w rest
        (if class_in x implements then implements else implements ++ [x])
  end.

(** [class_locals.setdefault('__implements__', [])].  The module binds
    nothing but a list to [__implements__]; what the code does with another
    value that a class body has put there depends on that value and is not
    part of the model, where a [TypeError] stands for it. *)
Definition setdefault_implements (class_locals : Dict) : Outcome (list ClassId * Dict) :=
  match dict_get class_locals "__implements__" with
  | None => Returns ([], dict_set class_locals "__implements__" (VList []))
  | Some (VList l) => Returns (l, class_locals)
  | Some _ => Raises (TypeError "__implements__ is not a list")
  end.

(** [implements]: the call with [interfaces] as its arguments, on the
    namespace of the class body that makes it.  The list under
    [__implements__] is the body's own: a body that binds the name to the
    list object of another class, which the code would append to in place,
    is not part of the model. *)
Definition implements (w : World) (interfaces : list ClassId) (class_locals : Dict)
  : Outcome Dict :=
  lc <- setdefault_implements class_locals ;;
  l' <- implements_loop w interfaces (fst lc) ;;
  Returns (dict_set (snd lc) "__implements__" (VList l')).

(** ** reduce_interfaces *)

(** The inner loop over [range(len(result))]: [Some] is the result list after
    a [break] with [skip] set, [None] means that the loop ran to its end. *)
Fixpoint reduce_scan (w : World) (interface : ClassId) (result : list ClassId)
  : option (list ClassId) :=
  match result with
  | [] => None
  | r :: rest =>
      if issubclass w interface r then Some (interface :: rest)
      else if issubclass w r interface then Some (r :: rest)
      else option_map (cons r) (reduce_scan w interface rest)
  end.

Definition reduce_step (w : World) (result : list ClassId) (interface : ClassId)
  : list ClassId :=
  match reduce_scan w interface result with
  | Some result' => result'
  | None => result ++ [interface]
  end.

Definition reduce_interfaces (w : World) (interfaces : list ClassId) : list ClassId :=
  fold_left (reduce_step w) interfaces [].

(** ** Implementation.__metanew__ *)

(** Assign default implementations: one member. *)
Definition merge_member (w : World) (attrs : Dict) (m : MemberId) : Dict :=
  match member_kind (member w m) with
  | Method (Some impl) _ =>
      if dict_mem attrs (member_name (member w m)) then attrs
      else dict_set attrs (member_name (member w m)) (VFunction impl)
  | _ => attrs
  end.

Fixpoint merge_defaults (w : World) (implements : list ClassId) (attrs : Dict)
  : Outcome Dict :=
  match implements with
  | [] => Returns attrs
  | interface :: rest =>
      ms <- members_of w interface ;;
      merge_defaults w rest (fold_left (merge_member w) ms attrs)
  end.

(** [type(v).__name__] *)
Definition type_name (w : World) (v : Value) : string :=
  match v with
  | VNone => "NoneType"
  | VFunction _ => "function"
  | VProperty _ _ _ => "property"
  | VMember m => type_name_of_kind (member_kind (member w m))
  | VList _ => "list"
  | VOther n => n
  end.

(** [member.impl != attrs[member.name]] *)
Definition impl_differs (impl : option PyFunction) (v : Value) : bool :=
  match impl, v with
  | Some f, VFunction g => negb (same_function f g)
  | None, VNone => false
  | _, _ => true
  end.

(** What the check of one member comes to: an entry for [errors], a resolved
    property to set on the new class, or nothing. *)
Inductive Verdict :=
| Fine
| Violation (msg : string)
| Install (n : string) (v : Value).

(** The [Method] branch of the validation: the test of a final method comes
    first and needs the name to be in [attrs]. *)
Definition check_method (w : World) (attrs : Dict) (n : string)
           (impl : option PyFunction) (final : bool) : Verdict :=
  match dict_get attrs n with
  | Some v =>
      if final && impl_differs impl v then
        Violation ("implemented final method: " ++ n ++ "()")
      else if negb (is_function v) then
        Violation ("expected method, got " ++ type_name w v ++ ": " ++ n ++ "()")
      else Fine
  | None => Violation ("missing method: " ++ n ++ "()")
  end.

(** The [Property] branch of the validation.  [satisfy] raises nothing but
    [ValueError], which is caught and recorded. *)
Definition check_property (w : World) (attrs : Dict) (n : string) (p : PropertySlots)
  : Verdict :=
  match dict_get attrs n with
  | None =>
      if negb (Property_is_pure_default p) then Violation ("missing property: " ++ n)
      else Fine
  | Some (VProperty fget fset fdel) =>
      match Property_satisfy n p (fget, fset, fdel) with
      | Raises (ValueError msg) => Violation msg
      | Raises _ => Fine
      | Returns (g, s, d) => Install n (VProperty g s d)
      end
  | Some v => Violation ("expected property, got " ++ type_name w v ++ ": " ++ n)
  end.

Definition check_member (w : World) (attrs : Dict) (m : MemberId) : Verdict :=
  let n := member_name (member w m) in
  match member_kind (member w m) with
  | Method impl final => check_method w attrs n impl final
  | Property p => check_property w attrs n p
  | Attribute _ => Fine
  end.

(** The body of the loop over the members of one interface, on the store
    and the [errors] list. *)
Definition check_step (self : ClassId) (attrs : Dict)
           (st : World * list string) (m : MemberId) : World * list string :=
  let '(w, errors) := st in
  match check_member w attrs m with
  | Fine => (w, errors)
  | Violation msg => (w, errors ++ [msg])
  | Install n v => (setattr w self n v, errors)
  end.

(** Ensure all interface members are satisfied. *)
Fixpoint check_interfaces (self : ClassId) (attrs : Dict) (implements : list ClassId)
  : M unit :=
  match implements with
  | [] => ret tt
  | interface :: rest =>
      fun w =>
        match members_of w interface with
        | Raises e => (w, Raises e)
        | Returns ms =>
            match fold_left (check_step self attrs) ms (w, []) with
            | (w', []) => check_interfaces self attrs rest w'
            | (w', errors) => (w', Raises (ImplementationError self interface errors))
            end
        end
  end.

Definition marked_override (v : Value) : bool :=
  match v with VFunction f => is_override f | _ => false end.

(** The check of the [override] marks, over [vars(self).items()]. *)
Fixpoint check_overrides (w : World) (implements : list ClassId) (items : Dict)
  : Outcome unit :=
  match items with
  | [] => Returns tt
  | (key, value) :: items' =>
      if negb (is_function value) then check_overrides w implements items'
      else if negb (marked_override value) then check_overrides w implements items'
      else if existsb (fun interface => has_member w interface key) implements then
        check_overrides w implements items'
      else
        Raises (RuntimeError
                  ("'" ++ key ++ "' does not override a method of any of the "
                   ++ "implemented interfaces."))
  end.

(** [x.implementations.add(self)] *)
Definition add_implementation (self : ClassId) (w : World) (x : ClassId) : World :=
  update_class w x
    (fun k => mkClass (cls_name k) (cls_bases k) (cls_mro k) (cls_dict k)
                (if class_in self (implementations k) then implementations k
                 else implementations k ++ [self])).

Definition register_class (self : ClassId) (w : World) (x : ClassId) : World :=
  if issubclass w x Interface then add_implementation self w x else w.

(** The loop [while bases].  The class graph has no cycle and classes are
    numbered in the order of their creation, so the loop is over after as
    many rounds as there are classes; [fuel] counts them. *)
Fixpoint register_walk (fuel : nat) (self : ClassId) (w : World) (bases : list ClassId)
  : World :=
  match bases, fuel with
  | [], _ => w
  | _, 0 => w
  | _, S fuel' =>
      register_walk fuel' self
        (fold_left (register_class self) bases w)
        (flat_map (bases_of w) bases)
  end.

Definition register (self : ClassId) (implements : list ClassId) : M unit :=
  modify (fun w =>
    fold_left
      (fun st interface => register_walk (List.length (classes st)) self st [interface])
      implements w).

Definition Implementation_metanew (name : string) (bases : list ClassId) (attrs : Dict)
  : M ClassId :=
  la <~ lift (fun _ => setdefault_implements attrs) ;;
  implements <~ lift (fun w => Returns (reduce_interfaces w (fst la))) ;;
  attrs' <~ lift (fun w => merge_defaults w implements (snd la)) ;;
  self <~ type_new name bases attrs' ;;
  _ <~ check_interfaces self attrs' implements ;;
  _ <~ lift (fun w => check_overrides w implements (vars w self)) ;;
  _ <~ register self implements ;;
  ret self.

(** A class statement whose body calls [implements] once for each entry of
    [calls] and binds the names of [body]. *)
Fixpoint run_implements (w : World) (calls : list (list ClassId)) (class_locals : Dict)
  : Outcome Dict :=
  match calls with
  | [] => Returns class_locals
  | interfaces :: calls' =>
      class_locals' <- implements w interfaces class_locals ;;
      run_implements w calls' class_locals'
  end.

Definition declare (name : string) (bases : list ClassId)
           (calls : list (list ClassId)) (body : Dict) : M ClassId :=
  class_locals <~ lift (fun w => run_implements w calls body) ;;
  Implementation_metanew name bases class_locals.

(** ** Well-formed stores *)

(** Every class named in a method resolution order exists. *)
Definition closed_mro (w : World) : bool :=
  forallb (fun k => forallb (fun c => Nat.ltb c (List.length (classes w))) (cls_mro k))
          (classes w).

Fixpoint bases_older_from (i : nat) (l : list PyClass) : bool :=
  match l with
  | [] => true
  | k :: l' => forallb (fun b => Nat.ltb b i) (cls_bases k) && bases_older_from (S i) l'
  end.

(** The bases of a class were created before it. *)
Definition bases_older (w : World) : bool := bases_older_from 0 (classes w).

(** [x] is [c] or is reached from [c] by walking [__bases__]. *)
Inductive ancestor (w : World) : ClassId -> ClassId -> Prop :=
| ancestor_self : forall c, ancestor w c c
| ancestor_base : forall c b x,
    In b (bases_of w c) -> ancestor w b x -> ancestor w c x.

(** ** The words of the specification *)

Definition slot_default (s : SlotImpl) : option PyFunction :=
  match s with SImpl f => Some f | _ => None end.

(** The concrete value if supplied, else the default. *)
Definition effective (concrete : option PyFunction) (s : SlotImpl) : option PyFunction :=
  match concrete with
  | Some f => Some f
  | None => slot_default s
  end.

(** A final slot receives a concrete override. *)
Definition final_override (concrete : option PyFunction) (final : bool) : Prop :=
  concrete <> None /\ final = true.

(** A slot has neither a concrete value nor a default and is not optional. *)
Definition unfilled (concrete : option PyFunction) (s : SlotImpl) : Prop :=
  concrete = None /\ s = SNone.

Definition contract_violated (p : PropertySlots) (value : Triple) : Prop :=
  let '(fget, fset, fdel) := value in
  final_override fget (getter_final p) \/ final_override fset (setter_final p) \/
  final_override fdel (deleter_final p) \/
  unfilled fget (getter_impl p) \/ unfilled fset (setter_impl p) \/
  unfilled fdel (deleter_impl p).

Definition member_names (w : World) (c : ClassId) : list string :=
  map (fun m => member_name (member w m)) (member_values w c).

Definition violation_of (v : Verdict) : list string :=
  match v with Violation msg => [msg] | _ => [] end.

(** Every violation that the members of one interface show against the
    namespace [attrs]. *)
Definition violations (w : World) (attrs : Dict) (interface : ClassId) : list string :=
  flat_map (fun m => violation_of (check_member w attrs m)) (member_values w interface).

(** Every violation found across every interface. *)
Definition all_violations (w : World) (attrs : Dict) (implements : list ClassId)
  : list string :=
  flat_map (violations w attrs) implements.

Definition has_violations (w : World) (attrs : Dict) (interface : ClassId) : bool :=
  match violations w attrs interface with [] => false | _ => true end.

(** ** Example declarations *)

Definition run {A} (c : M A) (w : World) : World := fst (c w).

(** Two unrelated interfaces with one required method each. *)
Definition world_two : World :=
  run (Interface_metanew "B" [Interface] [("g", VFunction (def 2))])
    (run (Interface_metanew "A" [Interface] [("f", VFunction (def 1))]) world0).

(** [A] with a default method [bar], [B] with a required method [foo], and
    [C] that extends both and gives [foo] a default. *)
Definition world_diamond : World :=
  run (Interface_metanew "C" [4; 5] [("foo", VFunction (default (def 3)))])
    (run (Interface_metanew "B" [Interface] [("foo", VFunction (def 2))])
       (run (Interface_metanew "A" [Interface]
               [("bar", VFunction (default (def 1)))]) world0)).

(** [A] declares a method [foo]; [B] binds [foo] to a plain number. *)
Definition world_constant : World :=
  run (Interface_metanew "B" [Interface] [("foo", VOther "int")])
    (run (Interface_metanew "A" [Interface] [("foo", VFunction (def 1))]) world0).

(** A property with a default getter and nothing said about setter and
    deleter. *)
Definition getter_only : PropertySlots :=
  Property_from_python_property (Some (default (def 1)), None, None).


(** The key under which a class body keeps its list of interfaces. *)
Definition implements_key : string := "__implements__".

(** Whatever list the namespace holds under [__implements__] is free of
    duplicates. *)
Definition duplicate_free (d : Dict) : Prop :=
  forall l, dict_get d implements_key = Some (VList l) -> NoDup l.

(** An interface whose only declaration is a property under a private
    name. *)
Definition world_private_property : World :=
  run (Interface_metanew "P" [Interface]
         [("_secret", VProperty (Some (def 1)) None None)]) world0.

(** An interface that binds a private name to the placeholder that [attr()]
    returned. *)
Definition world_private_attr : World :=
  run (Interface_metanew "Q" [Interface] [("_x", VMember 0)])
    (run (alloc_member (attr None)) world0).

(** The namespace entry [key] of [self] holds the function [f]. *)
Definition holds (self : ClassId) (key : string) (f : PyFunction) (w : World) : Prop :=
  dict_get (vars w self) key = Some (VFunction f).

(** Two stores agree on the classes in [P]: the same members, and the same
    class object wherever [P] holds. *)
Definition agree (P : ClassId -> Prop) (w w' : World) : Prop :=
  members w' = members w /\ forall c, P c -> lookup_class w' c = lookup_class w c.

(** The declaration of a class whose body holds the interface list [l] has
    reached the validation: the defaults of the reduced list are merged into
    [attrs1], and [type.__new__] has made the class [self] in the store
    [w1]. *)
Definition prepared (name : string) (bases : list ClassId) (attrs : Dict) (w : World)
           (l : list ClassId) (attrs1 : Dict) (w1 : World) (self : ClassId) : Prop :=
  dict_get attrs implements_key = Some (VList l)
  /\ merge_defaults w (reduce_interfaces w l) attrs = Returns attrs1
  /\ type_new name bases attrs1 w = (w1, Returns self).

(** An interface with a private helper function. *)
Definition world_private_function : World :=
  run (Interface_metanew "P" [Interface] [("_helper", VFunction (def 1))]) world0.

(** What the validation comes to: the first interface with a violation is
    reported, with all of its violations. *)
Definition validation_outcome (w : World) (self : ClassId) (attrs : Dict)
           (implements : list ClassId) : Outcome unit :=
  match find (has_violations w attrs) implements with
  | Some interface =>
      Raises (ImplementationError self interface (violations w attrs interface))
  | None => Returns tt
  end.

(** The new class [self] is none of the classes that the interface [c] is
    made of. *)
Definition apart (w : World) (self c : ClassId) : Prop :=
  c <> self /\ forall k, In k (mro w c) -> k <> self.

(** No member named [n] is a method with a default. *)
Definition no_default_named (w : World) (n : string) (ms : list MemberId) : Prop :=
  forall m impl fin,
    In m ms -> member_name (member w m) = n ->
    member_kind (member w m) <> Method (Some impl) fin.

(** Every default that the members named [n] of the interfaces in
    [implements] bring is the function [d]. *)
Definition only_default (w : World) (implements : list ClassId) (n : string)
           (d : PyFunction) : Prop :=
  forall i m d' fin,
    In i implements -> In m (member_values w i) ->
    member_name (member w m) = n ->
    member_kind (member w m) = Method (Some d') fin ->
    same_function d d' = true.

(** The namespace binds [n] to the function [d]. *)
Definition bound_to (d : PyFunction) (n : string) (attrs : Dict) : Prop :=
  exists f, dict_get attrs n = Some (VFunction f) /\ same_function d f = true.

(** An interface with a final method [run] and a required method [stop]. *)
Definition world_final : World :=
  run (Interface_metanew "F" [Interface]
         [("run", VFunction (final (def 1))); ("stop", VFunction (def 2))]) world0.

(** The frontier of the registration walk after [k] rounds. *)
Fixpoint level (B : ClassId -> list ClassId) (k : nat) (bs : list ClassId)
  : list ClassId :=
  match k with
  | 0 => bs
  | S k' => level B k' (flat_map B bs)
  end.

(** Two stores with the same class graph. *)
Definition same_graph (w w' : World) : Prop :=
  List.length (classes w') = List.length (classes w)
  /\ forall c, bases_of w' c = bases_of w c /\ mro w' c = mro w c.

(** Two stores with the same implementations sets. *)
Definition same_registry (w w' : World) : Prop :=
  forall x, implementations_of w' x = implementations_of w x.

(** No implementations set has lost the class [self]. *)
Definition grows (self : ClassId) (w w' : World) : Prop :=
  forall x, In self (implementations_of w x) -> In self (implementations_of w' x).

(** [Flyer] and [Swimmer], each with a method [move] of its own. *)
Definition world_conflict : World :=
  run (Interface_metanew "Swimmer" [Interface] [("move", VFunction (def 2))])
    (run (Interface_metanew "Flyer" [Interface] [("move", VFunction (def 1))]) world0).

(** [Greeter] with a required method [greet] and a default method
    [farewell]. *)
Definition world_greeter : World :=
  run (Interface_metanew "Greeter" [Interface]
         [("greet", VFunction (def 1)); ("farewell", VFunction (default (def 2)))])
    world0.

(** ** The queries on a declared implementation *)

(** [cls.__implements__], read through the class. *)
Definition implements_of (w : World) (cls : ClassId) : Outcome (list ClassId) :=
  match getattr w cls implements_key with
  | Some (VList l) => Returns l
  | Some _ => Raises (TypeError "__implements__ is not a list")
  | None => Raises (TypeError "type object has no attribute '__implements__'")
  end.

(** [Implementation.implements(cls, interface)] *)
Definition Implementation_implements (w : World) (cls interface : ClassId)
  : Outcome bool :=
  l <- implements_of w cls ;;
  Returns (existsb (fun other => issubclass w other interface) l).

(** [Interface.implemented_by(cls, instance)], for an instance of the class
    [instance_type]. *)
Definition Interface_implemented_by (w : World) (cls instance_type : ClassId)
  : Outcome bool :=
  if negb (issubclass w instance_type Implementation) then Returns false
  else Implementation_implements w instance_type cls.

(** Neither of the two is a subclass of the other. *)
Definition unrelated (w : World) (a b : ClassId) : bool :=
  negb (issubclass w a b) && negb (issubclass w b a).

Fixpoint pairwise_unrelated (w : World) (l : list ClassId) : bool :=
  match l with
  | [] => true
  | x :: rest => forallb (unrelated w x) rest && pairwise_unrelated w rest
  end.

(** Some class of [l] is a subclass of [x]. *)
Definition covered (w : World) (l : list ClassId) (x : ClassId) : Prop :=
  exists r, In r l /\ issubclass w r x = true.

(** In [l], no interface has a conflict with one that stands before it. *)
Definition checked_against_earlier (w : World) (l : list ClassId) : Prop :=
  forall pre x post,
    l = pre ++ x :: post ->
    forall y, In y pre -> get_conflicting_members w x y = Returns [].

(** The classes numbered below [N] have kept their namespace, their bases
    and their resolution order, and no member object has changed. *)
Definition untouched (N : nat) (w w' : World) : Prop :=
  members w' = members w
  /\ forall c, c < N ->
       vars w' c = vars w c /\ mro w' c = mro w c /\ bases_of w' c = bases_of w c.

(** Nothing but implementations sets has changed. *)
Definition keeps (w w' : World) : Prop :=
  members w' = members w /\ (forall c, vars w' c = vars w c) /\ same_graph w w'.

(** No implementations set has lost an entry. *)
Definition monotone (w w' : World) : Prop :=
  forall x y, In y (implementations_of w x) -> In y (implementations_of w' x).

(** The value that [attrs] binds to [k] is no property. *)
Definition plain_entry (attrs : Dict) (k : string) : Prop :=
  forall g s d, dict_get attrs k <> Some (VProperty g s d).

(** The member that [Interface.__metanew__] makes of a declaration that is
    a function or a property, when it is a candidate. *)
Definition made_of (self : ClassId) (key : string) (value : Value) : option Member :=
  if Method_is_candidate key value then Some (Method_from self key value)
  else if Property_is_candidate key value then Some (Property_from self key value)
  else None.

(** The namespace of [self] binds [k] to the address of the member [M]. *)
Definition defined_as (self : ClassId) (k : string) (M : Member) (w : World) : Prop :=
  exists mid,
    dict_get (vars w self) k = Some (VMember mid)
    /\ nth_error (members w) mid = Some M.



(** Apart from the class [self], two stores hold the same class objects, and
    all implementations sets are the same. *)
Definition agree_classes_but (self : ClassId) (w w' : World) : Prop :=
  (forall c, c <> self -> lookup_class w' c = lookup_class w c)
  /\ same_registry w w'.

(** [A] with a required method [f], and after it [F] with a final method
    [run] and a required method [stop]. *)
Definition world_required_final : World :=
  run (Interface_metanew "F" [Interface]
         [("run", VFunction (final (def 1))); ("stop", VFunction (def 2))])
    (run (Interface_metanew "A" [Interface] [("f", VFunction (def 3))]) world0).

(** [n.endswith('__')] *)
Fixpoint ends_with_underscores (n : string) : bool :=
  match n with
  | EmptyString => false
  | String a EmptyString => false
  | String a (String b EmptyString) => Ascii.eqb a "_"%char && Ascii.eqb b "_"%char
  | String _ n' => ends_with_underscores n'
  end.

(** A name that begins and ends with two underscores.  Python keeps these
    names for itself: [object] and the metatype answer to many of them, and
    [type.__new__] and the attribute protocol of classes give some of them a
    treatment of their own. *)
Definition is_dunder (n : string) : bool :=
  String.prefix "__" n && ends_with_underscores n.



(** [A] with a default method [run], and [F], unrelated to it, with a final
    method of the same name. *)
Definition world_shadowed : World :=
  run (Interface_metanew "F" [Interface] [("run", VFunction (final (def 1)))])
    (run (Interface_metanew "A" [Interface]
            [("run", VFunction (default (def 7)))]) world0).


(** * Properties *)

(** ** Property.satisfy and Property.is_pure_default *)

Lemma truthy_not_none (f : option PyFunction) : truthy f = true <-> f <> None.
Proof. destruct f; simpl; split; intro H; congruence. Qed.

Lemma fill_effective (f : option PyFunction) (s : SlotImpl) : fill f s = effective f s.
Proof. destruct f, s; reflexivity. Qed.

Lemma final_override_iff (f : option PyFunction) (fin : bool) :
  truthy f && fin = true <-> final_override f fin.
Proof.
  unfold final_override. rewrite andb_true_iff, truthy_not_none. tauto.
Qed.

Lemma unfilled_iff (f : option PyFunction) (s : SlotImpl) :
  is_none s && negb (truthy f) = true <-> unfilled f s.
Proof.
  unfold unfilled. destruct f, s; simpl; split; intros H;
    try discriminate; try (destruct H; discriminate); auto.
Qed.

Lemma not_true_false (b : bool) (P : Prop) : (b = true <-> P) -> b = false -> ~ P.
Proof. intros H E HP. apply H in HP. congruence. Qed.

(** The six tests of [satisfy], in the order of the source. *)
Lemma satisfy_tests (nm : string) (p : PropertySlots) (fget fset fdel : option PyFunction) :
  (contract_violated p (fget, fset, fdel)
   /\ exists msg, Property_satisfy nm p (fget, fset, fdel) = Raises (ValueError msg))
  \/ (~ contract_violated p (fget, fset, fdel)
      /\ Property_satisfy nm p (fget, fset, fdel)
         = Returns (fill fget (getter_impl p), fill fset (setter_impl p),
                    fill fdel (deleter_impl p))).
Proof.
  unfold Property_satisfy, contract_violated.
  destruct (truthy fget && getter_final p) eqn:E1.
  { left. split; [|eauto]. apply final_override_iff in E1. tauto. }
  destruct (truthy fset && setter_final p) eqn:E2.
  { left. split; [|eauto]. apply final_override_iff in E2. tauto. }
  destruct (truthy fdel && deleter_final p) eqn:E3.
  { left. split; [|eauto]. apply final_override_iff in E3. tauto. }
  destruct (is_none (getter_impl p) && negb (truthy fget)) eqn:E4.
  { left. split; [|eauto]. apply unfilled_iff in E4. tauto. }
  destruct (is_none (setter_impl p) && negb (truthy fset)) eqn:E5.
  { left. split; [|eauto]. apply unfilled_iff in E5. tauto. }
  destruct (is_none (deleter_impl p) && negb (truthy fdel)) eqn:E6.
  { left. split; [|eauto]. apply unfilled_iff in E6. tauto. }
  right. split; [|reflexivity].
  pose proof (not_true_false _ _ (final_override_iff fget (getter_final p)) E1).
  pose proof (not_true_false _ _ (final_override_iff fset (setter_final p)) E2).
  pose proof (not_true_false _ _ (final_override_iff fdel (deleter_final p)) E3).
  pose proof (not_true_false _ _ (unfilled_iff fget (getter_impl p)) E4).
  pose proof (not_true_false _ _ (unfilled_iff fset (setter_impl p)) E5).
  pose proof (not_true_false _ _ (unfilled_iff fdel (deleter_impl p)) E6).
  tauto.
Qed.

(** C7. [Property.satisfy] fails with a [ValueError] exactly when a final slot
    receives a concrete override or a slot has neither a concrete value nor a
    default and is not optional; otherwise it returns, slot by slot, the
    concrete value if one is supplied and else the default.  A property with a
    default getter whose setter and deleter are optional (unspecified, the
    setter not final), given only a setter, resolves to the default getter
    and the concrete setter. *)
Theorem Property_satisfy_contract :
  forall (nm : string) (p : PropertySlots) (fget fset fdel : option PyFunction),
    ((exists msg, Property_satisfy nm p (fget, fset, fdel) = Raises (ValueError msg))
     <-> contract_violated p (fget, fset, fdel))
    /\ (~ contract_violated p (fget, fset, fdel) ->
        Property_satisfy nm p (fget, fset, fdel) =
        Returns (effective fget (getter_impl p), effective fset (setter_impl p),
                 effective fdel (deleter_impl p)))
    /\ (forall g s,
          getter_impl p = SImpl g -> setter_impl p = SNotImplemented ->
          deleter_impl p = SNotImplemented -> setter_final p = false ->
          Property_satisfy nm p (None, Some s, None) = Returns (Some g, Some s, None)).
Proof.
  intros nm p fget fset fdel. split; [split|split].
  - intros [msg Hr].
    destruct (satisfy_tests nm p fget fset fdel) as [[Hv _]|[_ Hs]]; [exact Hv|].
    rewrite Hs in Hr. discriminate.
  - intros Hv.
    destruct (satisfy_tests nm p fget fset fdel) as [[_ Hr]|[Hn _]];
      [exact Hr | contradiction].
  - intros Hn.
    destruct (satisfy_tests nm p fget fset fdel) as [[Hv _]|[_ Hs]];
      [contradiction|].
    rewrite Hs, !fill_effective. reflexivity.
  - intros g s Hg Hs Hd Hf.
    unfold Property_satisfy. rewrite Hg, Hs, Hd, Hf. simpl.
    destruct (deleter_final p); reflexivity.
Qed.

Lemma Property_satisfy_contract_witness :
  Property_satisfy "value" getter_only (None, Some (def 7), None)
  = Returns (Some (default (def 1)), Some (def 7), None).
Proof.
  destruct (Property_satisfy_contract "value" getter_only None None None)
    as [_ [_ H]].
  apply H; reflexivity.
Defined.

(** C8, as the specification has it, fails: a property with a default
    getter and unspecified setter and deleter is a pure default. *)
Lemma is_pure_default_getter_only :
  Property_is_pure_default getter_only <> false.
Proof. vm_compute. discriminate. Qed.

Lemma is_none_false (s : SlotImpl) : negb (is_none s) = true <-> s <> SNone.
Proof. destruct s; simpl; split; intro H; congruence. Qed.

(** C8, amended. [is_pure_default] is true exactly when none of the getter,
    setter and deleter slots is [None], the mark of a slot that the
    implementer must supply; an unspecified slot counts like a default.  With a
    default getter and unspecified setter and deleter it is true. *)
Theorem is_pure_default_iff :
  forall p : PropertySlots,
    (Property_is_pure_default p = true <->
     getter_impl p <> SNone /\ setter_impl p <> SNone /\ deleter_impl p <> SNone)
    /\ (forall g, getter_impl p = SImpl g -> setter_impl p = SNotImplemented ->
                  deleter_impl p = SNotImplemented ->
                  Property_is_pure_default p = true).
Proof.
  intros p. unfold Property_is_pure_default. simpl. split.
  - rewrite !andb_true_iff, !is_none_false. tauto.
  - intros g Hg Hs Hd. rewrite Hg, Hs, Hd. reflexivity.
Qed.

Lemma is_pure_default_iff_witness :
  Property_is_pure_default getter_only = true.
Proof.
  destruct (is_pure_default_iff getter_only) as [_ H].
  apply (H (default (def 1))); reflexivity.
Defined.

(** ** reduce_interfaces *)

Lemma reduce_scan_length (w : World) (i : ClassId) (result r : list ClassId) :
  reduce_scan w i result = Some r -> List.length r = List.length result.
Proof.
  revert r. induction result as [|x rest IH]; simpl; intros r H.
  - discriminate.
  - destruct (issubclass w i x).
    + inversion H; reflexivity.
    + destruct (issubclass w x i).
      * inversion H; reflexivity.
      * destruct (reduce_scan w i rest) as [r'|]; simpl in H; inversion H.
        simpl. f_equal. apply IH. reflexivity.
Qed.

Lemma reduce_step_length (w : World) (result : list ClassId) (i : ClassId) :
  List.length (reduce_step w result i) <= S (List.length result).
Proof.
  unfold reduce_step. destruct (reduce_scan w i result) as [r|] eqn:E.
  - rewrite (reduce_scan_length _ _ _ _ E). lia.
  - rewrite length_app. simpl. lia.
Qed.

Lemma fold_reduce_length (w : World) (l acc : list ClassId) :
  List.length (fold_left (reduce_step w) l acc) <= List.length acc + List.length l.
Proof.
  revert acc. induction l as [|i l IH]; simpl; intros acc.
  - lia.
  - specialize (IH (reduce_step w acc i)).
    pose proof (reduce_step_length w acc i). lia.
Qed.

(** The result of [reduce_interfaces] is never longer than its input. *)
Lemma reduce_interfaces_length (w : World) (l : list ClassId) :
  List.length (reduce_interfaces w l) <= List.length l.
Proof. apply (fold_reduce_length w l []). Qed.

(** The three cases of a list of two interfaces. *)
Lemma reduce_interfaces_pair (w : World) (a b : ClassId) :
  reduce_interfaces w [a; b] =
  if issubclass w b a then [b]
  else if issubclass w a b then [a]
  else [a; b].
Proof.
  unfold reduce_interfaces, reduce_step. simpl.
  destruct (issubclass w b a); [reflexivity|].
  destruct (issubclass w a b); reflexivity.
Qed.

(** C4, at the input where the code departs from it: [A] and [B] are
    unrelated and [C] extends both.  The scan replaces [A] by [C] and stops,
    so [B] stays in the result next to its subclass [C]. *)
Theorem reduce_interfaces_keeps_parent :
  reduce_interfaces world_diamond [4; 5; 6] = [6; 5]
  /\ issubclass world_diamond 6 5 = true
  /\ issubclass world_diamond 4 5 = false
  /\ issubclass world_diamond 5 4 = false.
Proof. vm_compute. repeat split. Qed.

(** ** get_conflicting_members *)



Lemma flat_map_nil {A B} (f : A -> list B) (l : list A) :
  (forall x, In x l -> f x = []) -> flat_map f l = [].
Proof.
  induction l as [|x l IH]; simpl; intros H; [reflexivity|].
  rewrite (H x (or_introl eq_refl)). simpl. apply IH. auto.
Qed.



(** C3, at an input where the code departs from it: [A] declares a method
    [foo], and [B], which has no member at all, binds [foo] to a number.  The
    two are unrelated and their member names are disjoint, yet the code
    reports [foo] as a conflict: what it finds on [B] is not tested for being
    a member. *)
Theorem conflict_with_constant :
  is_interface world_constant 4 = true
  /\ is_interface world_constant 5 = true
  /\ issubclass world_constant 4 5 = false
  /\ issubclass world_constant 5 4 = false
  /\ member_names world_constant 4 = ["foo"]
  /\ member_names world_constant 5 = []
  /\ getattr world_constant 5 "foo" = Some (VOther "int")
  /\ get_conflicting_members world_constant 4 5 = Returns ["foo"]
  /\ get_conflicting_members world_constant 5 4 = Returns [].
Proof. vm_compute. repeat split. Qed.

(** ** implements *)

Lemma dict_get_set_same (d : Dict) (k : string) (v : Value) :
  dict_get (dict_set d k v) k = Some v.
Proof.
  induction d as [|[k' v'] d IH]; simpl.
  - rewrite String.eqb_refl. reflexivity.
  - destruct (String.eqb k k') eqn:E; simpl; rewrite E; auto.
Qed.

Lemma dict_get_set_other (d : Dict) (k k' : string) (v : Value) :
  k <> k' -> dict_get (dict_set d k v) k' = dict_get d k'.
Proof.
  intros Hne. induction d as [|[k0 v0] d IH]; simpl.
  - destruct (String.eqb k' k) eqn:E; [|reflexivity].
    apply String.eqb_eq in E. congruence.
  - destruct (String.eqb k k0) eqn:E; simpl.
    + apply String.eqb_eq in E. subst k0.
      destruct (String.eqb k' k) eqn:E'; [|reflexivity].
      apply String.eqb_eq in E'. congruence.
    + rewrite IH. reflexivity.
Qed.

Lemma class_in_iff (x : ClassId) (l : list ClassId) :
  class_in x l = true <-> In x l.
Proof.
  unfold class_in. rewrite existsb_exists. split.
  - intros [y [Hy E]]. apply Nat.eqb_eq in E. subst. exact Hy.
  - intros H. exists x. split; [exact H | apply Nat.eqb_refl].
Qed.

Lemma NoDup_snoc (x : ClassId) (l : list ClassId) :
  NoDup l -> ~ In x l -> NoDup (l ++ [x]).
Proof.
  induction 1 as [|y l Hy Hl IH]; simpl; intros Hx.
  - constructor; [intros []|constructor].
  - constructor.
    + rewrite in_app_iff. simpl. intuition.
    + apply IH. intuition.
Qed.

Lemma implements_loop_NoDup (w : World) (interfaces l l' : list ClassId) :
  NoDup l -> implements_loop w interfaces l = Returns l' -> NoDup l'.
Proof.
  revert l. induction interfaces as [|x rest IH]; simpl; intros l Hl H.
  - inversion H; subst; exact Hl.
  - destruct (check_conflicts w x l); simpl in H; [|discriminate].
    apply IH in H; [exact H|].
    destruct (class_in x l) eqn:E; [exact Hl|].
    apply NoDup_snoc; [exact Hl|].
    intros Hin. apply class_in_iff in Hin. congruence.
Qed.

Lemma implements_duplicate_free (w : World) (interfaces : list ClassId) (d d' : Dict) :
  duplicate_free d -> implements w interfaces d = Returns d' -> duplicate_free d'.
Proof.
  unfold implements, setdefault_implements, duplicate_free.
  fold implements_key.
  intros Hd H l Hl.
  destruct (dict_get d implements_key) as [v|] eqn:E.
  - destruct v; simpl in H; try discriminate.
    destruct (implements_loop w interfaces l0) as [l1|] eqn:L; simpl in H;
      [|discriminate].
    inversion H; subst d'. rewrite dict_get_set_same in Hl. inversion Hl; subst l1.
    apply (implements_loop_NoDup w interfaces l0); auto.
  - simpl in H.
    destruct (implements_loop w interfaces []) as [l1|] eqn:L; simpl in H;
      [|discriminate].
    inversion H; subst d'. rewrite dict_get_set_same in Hl. inversion Hl; subst l1.
    apply (implements_loop_NoDup w interfaces []); [constructor|exact L].
Qed.

Lemma run_implements_duplicate_free (w : World) (calls : list (list ClassId))
      (d d' : Dict) :
  duplicate_free d -> run_implements w calls d = Returns d' -> duplicate_free d'.
Proof.
  revert d. induction calls as [|xs calls IH]; simpl; intros d Hd H.
  - inversion H; subst; exact Hd.
  - destruct (implements w xs d) as [d1|] eqn:E; simpl in H; [|discriminate].
    apply (IH d1); [|exact H].
    apply (implements_duplicate_free w xs d); assumption.
Qed.

Lemma no_conflict_with_itself (w : World) (x : ClassId) :
  is_interface w x = true -> issubclass w x x = true ->
  get_conflicting_members w x x = Returns [].
Proof.
  intros Hi Hr. unfold get_conflicting_members. rewrite Hi, Hr. reflexivity.
Qed.

Lemma implements_same_twice (w : World) (x : ClassId) (body : Dict) :
  is_interface w x = true -> issubclass w x x = true ->
  dict_get body implements_key = None ->
  exists locals,
    implements w [x; x] body = Returns locals
    /\ dict_get locals implements_key = Some (VList [x]).
Proof.
  intros Hi Hr Hb. unfold implements, setdefault_implements.
  fold implements_key. rewrite Hb. simpl.
  rewrite (no_conflict_with_itself w x Hi Hr). simpl.
  unfold class_in. simpl. rewrite Nat.eqb_refl. simpl.
  eexists. split; [reflexivity|]. apply dict_get_set_same.
Qed.

Lemma implements_same_again (w : World) (x : ClassId) (body : Dict) :
  is_interface w x = true -> issubclass w x x = true ->
  dict_get body implements_key = None ->
  exists locals,
    run_implements w [[x]; [x]] body = Returns locals
    /\ dict_get locals implements_key = Some (VList [x]).
Proof.
  intros Hi Hr Hb. simpl. unfold implements at 1, setdefault_implements.
  fold implements_key. rewrite Hb. simpl.
  unfold implements, setdefault_implements. fold implements_key.
  rewrite dict_get_set_same. simpl.
  rewrite (no_conflict_with_itself w x Hi Hr). simpl.
  unfold class_in. simpl. rewrite Nat.eqb_refl. simpl.
  eexists. split; [reflexivity|]. apply dict_get_set_same.
Qed.

(** What [implements] keeps.  Over any sequence of calls in a class body
    that starts without an [__implements__] list, the list never holds an
    interface twice.  Naming an interface that is in the list already runs
    the conflict check of it against every listed interface and then leaves
    the list as it is.  An interface has no conflict with itself, so naming
    it twice in a row, in one call or in two, raises nothing and leaves it in
    the list once. *)
Lemma implements_no_duplicates :
  forall w : World,
    (forall calls body locals l,
        dict_get body implements_key = None ->
        run_implements w calls body = Returns locals ->
        dict_get locals implements_key = Some (VList l) -> NoDup l)
    /\ (forall x l, class_in x l = true ->
          implements_loop w [x] l = (_ <- check_conflicts w x l ;; Returns l))
    /\ (forall x body,
          is_interface w x = true -> issubclass w x x = true ->
          dict_get body implements_key = None ->
          get_conflicting_members w x x = Returns []
          /\ (exists locals,
                implements w [x; x] body = Returns locals
                /\ dict_get locals implements_key = Some (VList [x]))
          /\ (exists locals,
                run_implements w [[x]; [x]] body = Returns locals
                /\ dict_get locals implements_key = Some (VList [x]))).
Proof.
  intros w. split; [|split].
  - intros calls body locals l Hb Hr Hl.
    apply (run_implements_duplicate_free w calls body locals); auto.
    intros l0 H0. rewrite Hb in H0. discriminate.
  - intros x l Hin. simpl. rewrite Hin.
    destruct (check_conflicts w x l) as [[]|e]; reflexivity.
  - intros x body Hi Hr Hb. split; [|split].
    + apply no_conflict_with_itself; assumption.
    + apply implements_same_twice; assumption.
    + apply implements_same_again; assumption.
Qed.

(** C10, at an input where the code departs from it: [A] declares a method
    [foo] and [B] binds [foo] to a number.  [implements(A, B)] goes through,
    since the check of [B] against [A] scans the members of [B] only.  With
    [A] named once more the call raises: the conflict loop comes before the
    test whether [A] is in the list, and checks [A] against [B]. *)
Theorem repeated_interface_raises :
  implements_loop world_constant [4; 5] [] = Returns [4; 5]
  /\ implements_loop world_constant [4; 5; 4] []
     = Raises (ConflictingInterfacesError 4 5)
  /\ implements world_constant [4; 5; 4] [] = Raises (ConflictingInterfacesError 4 5)
  /\ get_conflicting_members world_constant 4 4 = Returns [].
Proof. vm_compute. repeat split. Qed.

(** ** The store *)

Lemma nth_error_update_nth_same {A} (n : nat) (f : A -> A) (l : list A) :
  nth_error (update_nth n f l) n = option_map f (nth_error l n).
Proof.
  revert n. induction l as [|x l IH]; intros [|n]; simpl; auto.
Qed.

Lemma nth_error_update_nth_other {A} (n m : nat) (f : A -> A) (l : list A) :
  n <> m -> nth_error (update_nth n f l) m = nth_error l m.
Proof.
  revert n m. induction l as [|x l IH]; intros [|n] [|m] H; simpl; auto;
    try congruence.
Qed.

Lemma length_update_nth {A} (n : nat) (f : A -> A) (l : list A) :
  List.length (update_nth n f l) = List.length l.
Proof.
  revert n. induction l as [|x l IH]; intros [|n]; simpl; auto.
Qed.

Lemma vars_setattr_same (w : World) (c : ClassId) (n : string) (v : Value) :
  vars (setattr w c n v) c =
  match lookup_class w c with
  | Some k => dict_set (cls_dict k) n v
  | None => []
  end.
Proof.
  unfold vars, setattr, update_class, lookup_class. simpl.
  rewrite nth_error_update_nth_same.
  destruct (nth_error (classes w) c); reflexivity.
Qed.

Lemma lookup_setattr_other (w : World) (c c' : ClassId) (n : string) (v : Value) :
  c <> c' -> lookup_class (setattr w c n v) c' = lookup_class w c'.
Proof.
  intros H. unfold setattr, update_class, lookup_class. simpl.
  apply nth_error_update_nth_other. exact H.
Qed.

(** ** Interface.__metanew__ *)

Lemma is_private_not_candidate (key : string) (value : Value) :
  is_private key = true -> Method_is_candidate key value = false.
Proof. intros H. unfold Method_is_candidate. rewrite H. reflexivity. Qed.

Lemma dict_get_In (d : Dict) (k : string) (v v' : Value) :
  NoDup (map fst d) -> dict_get d k = Some v -> In (k, v') d -> v' = v.
Proof.
  induction d as [|[k0 v0] d IH]; simpl; intros Hnd Hget Hin; [contradiction|].
  inversion Hnd as [|? ? Hk0 Hd]; subst.
  destruct (String.eqb k k0) eqn:E.
  - apply String.eqb_eq in E. subst k0. inversion Hget; subst v0.
    destruct Hin as [Hin|Hin]; [congruence|].
    exfalso. apply Hk0. apply in_map_iff. exists (k, v'). auto.
  - destruct Hin as [Hin|Hin].
    + inversion Hin; subst. rewrite String.eqb_refl in E. discriminate.
    + apply IH; auto.
Qed.

Lemma keys_dict_set (d : Dict) (k : string) (v : Value) :
  dict_get d k <> None -> map fst (dict_set d k v) = map fst d.
Proof.
  induction d as [|[k0 v0] d IH]; simpl; intros H; [congruence|].
  destruct (String.eqb k k0) eqn:E; simpl; [reflexivity|].
  f_equal. apply IH. exact H.
Qed.

Lemma keys_dict_set_new (d : Dict) (k : string) (v : Value) :
  dict_get d k = None -> map fst (dict_set d k v) = map fst d ++ [k].
Proof.
  induction d as [|[k0 v0] d IH]; simpl; intros H; [reflexivity|].
  destruct (String.eqb k k0) eqn:E; [discriminate|]. simpl.
  f_equal. apply IH. exact H.
Qed.

Lemma dict_get_None_not_key (d : Dict) (k : string) :
  dict_get d k = None -> ~ In k (map fst d).
Proof.
  induction d as [|[k0 v0] d IH]; simpl; intros H; [tauto|].
  destruct (String.eqb k k0) eqn:E; [discriminate|].
  apply String.eqb_neq in E. intros [H1|H1]; [congruence|]. apply IH; auto.
Qed.

Lemma NoDup_keys_dict_set (d : Dict) (k : string) (v : Value) :
  NoDup (map fst d) -> NoDup (map fst (dict_set d k v)).
Proof.
  intros H. destruct (dict_get d k) eqn:E.
  - rewrite keys_dict_set; [exact H|congruence].
  - rewrite keys_dict_set_new by exact E.
    apply dict_get_None_not_key in E.
    revert H E. generalize (map fst d). intros l.
    induction 1 as [|y l Hy Hl IH]; simpl; intros Hk.
    + constructor; [intros []|constructor].
    + constructor.
      * rewrite in_app_iff. simpl. intuition.
      * apply IH. intuition.
Qed.

Lemma holds_setattr_other (self : ClassId) (key k : string) (f : PyFunction)
      (v : Value) (w : World) :
  k <> key -> holds self key f w -> holds self key f (setattr w self k v).
Proof.
  unfold holds. intros Hk H. rewrite vars_setattr_same.
  unfold vars in H. destruct (lookup_class w self) as [c|]; [|discriminate].
  rewrite dict_get_set_other; assumption.
Qed.

Lemma define_member_returns (self : ClassId) (kv : string * Value) (w : World) :
  snd (define_member self kv w) = Returns tt.
Proof.
  destruct kv as [k v]. unfold define_member.
  destruct (unbound_member w v); [reflexivity|].
  destruct (Method_is_candidate k v); [reflexivity|].
  destruct (Property_is_candidate k v); reflexivity.
Qed.

Lemma define_member_holds (self : ClassId) (key k : string) (f : PyFunction)
      (v : Value) (w : World) :
  is_private key = true -> (k = key -> v = VFunction f) ->
  holds self key f w -> holds self key f (fst (define_member self (k, v) w)).
Proof.
  intros Hp Hkv H. unfold define_member.
  destruct (unbound_member w v) as [m|]; [exact H|].
  destruct (Method_is_candidate k v) eqn:Hm.
  - simpl. apply holds_setattr_other; [|exact H].
    intros E. subst k. rewrite is_private_not_candidate in Hm by exact Hp.
    discriminate.
  - destruct (Property_is_candidate k v) eqn:Hv; [|exact H].
    simpl. apply holds_setattr_other; [|exact H].
    intros E. rewrite (Hkv E) in Hv. discriminate.
Qed.

Lemma for_each_cons {A} (f : A -> M unit) (x : A) (l : list A) (w : World) :
  for_each f (x :: l) w =
  match f x w with
  | (w', Returns _) => for_each f l w'
  | (w', Raises e) => (w', Raises e)
  end.
Proof. reflexivity. Qed.

Lemma for_each_define_holds (self : ClassId) (key : string) (f : PyFunction)
      (items : Dict) (w : World) :
  is_private key = true ->
  (forall k v, In (k, v) items -> k = key -> v = VFunction f) ->
  holds self key f w ->
  snd (for_each (define_member self) items w) = Returns tt
  /\ holds self key f (fst (for_each (define_member self) items w)).
Proof.
  intros Hp. revert w. induction items as [|[k v] items IH]; intros w Hi H.
  - split; [reflexivity|exact H].
  - rewrite for_each_cons.
    pose proof (define_member_returns self (k, v) w) as Hr.
    pose proof (define_member_holds self key k f v w Hp
                  (Hi k v (or_introl eq_refl)) H) as Hh.
    destruct (define_member self (k, v) w) as [w1 o]. simpl in Hr, Hh. subst o.
    apply IH; [|exact Hh]. intros k' v' Hin. apply Hi. right. exact Hin.
Qed.

Lemma lookup_new_class (w : World) (k : PyClass) :
  lookup_class (mkWorld (classes w ++ [k]) (members w)) (List.length (classes w))
  = Some k.
Proof.
  unfold lookup_class. simpl.
  rewrite nth_error_app2 by lia. rewrite Nat.sub_diag. reflexivity.
Qed.

Lemma vars_new_class (w : World) (k : PyClass) :
  vars (mkWorld (classes w ++ [k]) (members w)) (List.length (classes w)) = cls_dict k.
Proof.
  unfold vars, lookup_class. simpl.
  rewrite nth_error_app2 by lia. rewrite Nat.sub_diag. reflexivity.
Qed.

Lemma vars_update_class_keep (w : World) (c c' : ClassId) (f : PyClass -> PyClass) :
  (forall k, cls_dict (f k) = cls_dict k) ->
  vars (update_class w c f) c' = vars w c'.
Proof.
  intros Hf. unfold vars, update_class, lookup_class. simpl.
  destruct (Nat.eq_dec c c') as [E|E].
  - subst. rewrite nth_error_update_nth_same.
    destruct (nth_error (classes w) c'); simpl; auto.
  - rewrite nth_error_update_nth_other by exact E. reflexivity.
Qed.

Lemma private_not_implementations (key : string) :
  is_private key = true -> "implementations" <> key.
Proof. intros H E. subst key. discriminate H. Qed.

Lemma Interface_metanew_keeps_private_function
      (name : string) (bases : list ClassId) (attrs : Dict) (w w' : World)
      (self : ClassId) (key : string) (f : PyFunction) :
  NoDup (map fst attrs) ->
  Interface_metanew name bases attrs w = (w', Returns self) ->
  is_private key = true ->
  dict_get attrs key = Some (VFunction f) ->
  dict_get (vars w' self) key = Some (VFunction f).
Proof.
  intros Hnd Hrun Hp Hget.
  unfold Interface_metanew, sbind, type_new in Hrun.
  destruct (linearize w (List.length (classes w)) bases) as [l|]; [|discriminate].
  unfold set_implementations, modify, lift, ret in Hrun.
  set (k0 := mkClass name bases l attrs []) in *.
  set (w1 := mkWorld (classes w ++ [k0]) (members w)) in *.
  set (s := List.length (classes w)) in *.
  set (w2 := update_class (setattr w1 s "implementations" (VOther "set")) s _) in *.
  assert (Hv1 : vars w1 s = attrs) by apply (vars_new_class w k0).
  assert (Hv2 : vars w2 s = dict_set attrs "implementations" (VOther "set")).
  { unfold w2. rewrite vars_update_class_keep by reflexivity.
    rewrite vars_setattr_same. unfold w1, s.
    rewrite lookup_new_class. reflexivity. }
  assert (Hh : holds s key f w2).
  { unfold holds. rewrite Hv2. rewrite dict_get_set_other; [exact Hget|].
    apply private_not_implementations. exact Hp. }
  destruct (for_each_define_holds s key f (vars w2 s) w2 Hp) as [Hr Hf];
    [|exact Hh|].
  - intros k v Hin E. subst k. rewrite Hv2 in Hin.
    apply (dict_get_In (dict_set attrs "implementations" (VOther "set")) key).
    + apply NoDup_keys_dict_set. exact Hnd.
    + rewrite dict_get_set_other; [exact Hget|].
      apply private_not_implementations. exact Hp.
    + exact Hin.
  - destruct (for_each (define_member s) (vars w2 s) w2) as [w3 o].
    simpl in Hr, Hf. rewrite Hr in Hrun. injection Hrun as Hw Hs.
    rewrite <- Hw, <- Hs. exact Hf.
Qed.

(** As the code stands, a property under a private name is made a member
    like any other property: [Property.is_candidate] does not look at the
    name. *)
Lemma private_property_example :
  is_private "_secret" = true
  /\ members_of world_private_property 4 = Returns [0]
  /\ member world_private_property 0
     = mkMember (Some 4) "_secret"
         (Property (mkProperty SNone SNotImplemented SNotImplemented false false false)).
Proof. vm_compute. repeat split. Qed.

(** C9, as the specification has it, fails: the placeholder that [attr()]
    returned, bound to a private name in the class body, is a member of the
    interface. *)
Lemma private_placeholder_is_member :
  is_private "_x" = true
  /\ is_bound (member (run (alloc_member (attr None)) world0) 0) = false
  /\ members_of world_private_attr 4 = Returns [0]
  /\ member world_private_attr 0 = mkMember (Some 4) "_x" (Attribute None).
Proof. vm_compute. repeat split. Qed.

(** C9, amended. In an interface definition a function under a private name
    (one that begins with the marker and does not end with it) is no
    candidate: it never becomes a member, and the namespace keeps it as the
    function it is.  An unbound placeholder is bound to the interface under
    the name it is assigned to, private or not. *)
Theorem private_function_is_no_member :
  forall (name : string) (bases : list ClassId) (attrs : Dict) (w w' : World)
         (self : ClassId) (key : string),
    is_private key = true ->
    (forall f, NoDup (map fst attrs) ->
               Interface_metanew name bases attrs w = (w', Returns self) ->
               dict_get attrs key = Some (VFunction f) ->
               dict_get (vars w' self) key = Some (VFunction f))
    /\ (forall f, define_member self (key, VFunction f) w = (w, Returns tt))
    /\ (forall m, is_bound (member w m) = false ->
          define_member self (key, VMember m) w =
          (mkWorld (classes w)
             (update_nth m
                (fun _ => mkMember (Some self) key (member_kind (member w m)))
                (members w)),
           Returns tt)).
Proof.
  intros name bases attrs w w' self key Hp. split; [|split].
  - intros f Hnd Hrun Hget.
    apply (Interface_metanew_keeps_private_function name bases attrs w w' self key f);
      assumption.
  - intros f. unfold define_member. simpl.
    rewrite is_private_not_candidate by exact Hp. reflexivity.
  - intros m Hm. unfold define_member. simpl. rewrite Hm. reflexivity.
Qed.

Lemma private_function_is_no_member_witness :
  dict_get (vars world_private_function 4) "_helper" = Some (VFunction (def 1)).
Proof.
  destruct (private_function_is_no_member "P" [Interface]
              [("_helper", VFunction (def 1))] world0 world_private_function 4
              "_helper" eq_refl) as [H _].
  apply H.
  - repeat constructor. simpl. intuition.
  - vm_compute; reflexivity.
  - reflexivity.
Defined.

(** ** Stores that agree *)

Lemma flat_map_ext_in {A B} (f g : A -> list B) (l : list A) :
  (forall x, In x l -> f x = g x) -> flat_map f l = flat_map g l.
Proof.
  induction l as [|x l IH]; simpl; intros H; [reflexivity|].
  rewrite (H x (or_introl eq_refl)). f_equal. apply IH. auto.
Qed.

Lemma lookup_mro_ext (w w' : World) (l : list ClassId) (n : string) :
  (forall k, In k l -> vars w' k = vars w k) ->
  lookup_mro w' l n = lookup_mro w l n.
Proof.
  induction l as [|k l IH]; simpl; intros H; [reflexivity|].
  rewrite (H k (or_introl eq_refl)).
  destruct (dict_get (vars w k) n); [reflexivity|]. apply IH. auto.
Qed.

Section Agree.

Variable P : ClassId -> Prop.
Variables w w' : World.
Hypothesis Hagree : agree P w w'.

Lemma agree_mro (c : ClassId) : P c -> mro w' c = mro w c.
Proof. intros H. unfold mro. rewrite (proj2 Hagree c H). reflexivity. Qed.

Lemma agree_vars (c : ClassId) : P c -> vars w' c = vars w c.
Proof. intros H. unfold vars. rewrite (proj2 Hagree c H). reflexivity. Qed.

Lemma agree_bases (c : ClassId) : P c -> bases_of w' c = bases_of w c.
Proof. intros H. unfold bases_of. rewrite (proj2 Hagree c H). reflexivity. Qed.

Lemma agree_issubclass (c d : ClassId) : P c -> issubclass w' c d = issubclass w c d.
Proof. intros H. unfold issubclass. rewrite agree_mro by exact H. reflexivity. Qed.

Lemma agree_member (m : MemberId) : member w' m = member w m.
Proof. unfold member. rewrite (proj1 Hagree). reflexivity. Qed.

Lemma agree_member_values (c : ClassId) :
  P c -> (forall k, In k (mro w c) -> P k) ->
  member_values w' c = member_values w c.
Proof.
  intros Hc Hk. unfold member_values, dir, getattr.
  rewrite agree_mro by exact Hc.
  rewrite (flat_map_ext_in (fun k => map fst (vars w' k))
                           (fun k => map fst (vars w k)) (mro w c)).
  - apply flat_map_ext_in. intros n _.
    rewrite (lookup_mro_ext w w' (mro w c) n); [reflexivity|].
    intros k Hin. apply agree_vars. auto.
  - intros k Hin. rewrite agree_vars; auto.
Qed.

Lemma agree_type_name (v : Value) : type_name w' v = type_name w v.
Proof. destruct v; simpl; try reflexivity. rewrite agree_member. reflexivity. Qed.

Lemma agree_check_member (attrs : Dict) (m : MemberId) :
  check_member w' attrs m = check_member w attrs m.
Proof.
  unfold check_member. rewrite agree_member.
  destruct (member_kind (member w m)) as [impl fin|t|p]; [| reflexivity |].
  - unfold check_method.
    destruct (dict_get attrs (member_name (member w m))) as [v|]; [|reflexivity].
    rewrite agree_type_name. reflexivity.
  - unfold check_property.
    destruct (dict_get attrs (member_name (member w m))) as [v|]; [|reflexivity].
    destruct v; try rewrite agree_type_name; reflexivity.
Qed.

Lemma agree_violations (attrs : Dict) (c : ClassId) :
  P c -> (forall k, In k (mro w c) -> P k) ->
  violations w' attrs c = violations w attrs c.
Proof.
  intros Hc Hk. unfold violations.
  rewrite agree_member_values by assumption.
  apply flat_map_ext_in. intros m _. rewrite agree_check_member. reflexivity.
Qed.

Lemma agree_has_violations (attrs : Dict) (c : ClassId) :
  P c -> (forall k, In k (mro w c) -> P k) ->
  has_violations w' attrs c = has_violations w attrs c.
Proof.
  intros Hc Hk. unfold has_violations.
  rewrite agree_violations by assumption. reflexivity.
Qed.

End Agree.

Lemma agree_refl (P : ClassId -> Prop) (w : World) : agree P w w.
Proof. split; auto. Qed.

Lemma agree_trans (P : ClassId -> Prop) (w1 w2 w3 : World) :
  agree P w1 w2 -> agree P w2 w3 -> agree P w1 w3.
Proof.
  intros [Hm1 Hc1] [Hm2 Hc2]. split; [congruence|].
  intros c Hc. rewrite Hc2, Hc1; auto.
Qed.

Lemma agree_setattr (self : ClassId) (w : World) (n : string) (v : Value) :
  agree (fun c => c <> self) w (setattr w self n v).
Proof.
  split; [reflexivity|]. intros c Hc. apply lookup_setattr_other. congruence.
Qed.

(** ** The validation loop *)

Lemma find_ext_in {A} (f g : A -> bool) (l : list A) :
  (forall x, In x l -> f x = g x) -> find f l = find g l.
Proof.
  induction l as [|x l IH]; simpl; intros H; [reflexivity|].
  rewrite (H x (or_introl eq_refl)). destruct (g x); [reflexivity|].
  apply IH. auto.
Qed.

Lemma fold_check_step (self : ClassId) (attrs : Dict) (ms : list MemberId) :
  forall (w : World) (errors : list string),
    agree (fun c => c <> self) w (fst (fold_left (check_step self attrs) ms (w, errors)))
    /\ snd (fold_left (check_step self attrs) ms (w, errors))
       = errors ++ flat_map (fun m => violation_of (check_member w attrs m)) ms.
Proof.
  induction ms as [|m ms IH]; intros w errors; simpl.
  - split; [apply agree_refl | rewrite app_nil_r; reflexivity].
  - destruct (check_member w attrs m) as [|msg|n v] eqn:E; simpl.
    + apply IH.
    + destruct (IH w (errors ++ [msg])) as [Ha He]. split; [exact Ha|].
      rewrite He, <- app_assoc. reflexivity.
    + pose proof (agree_setattr self w n v) as Hs.
      destruct (IH (setattr w self n v) errors) as [Ha He]. split.
      * apply (agree_trans _ w (setattr w self n v)); assumption.
      * rewrite He. apply (f_equal (fun l => errors ++ l)).
        apply flat_map_ext_in. intros m' _.
        exact (f_equal violation_of
                 (agree_check_member _ w (setattr w self n v) Hs attrs m')).
Qed.

Lemma apart_agree (self : ClassId) (w w' : World) (c : ClassId) :
  agree (fun c => c <> self) w w' -> apart w self c -> apart w' self c.
Proof.
  intros Ha [Hc Hk]. split; [exact Hc|].
  rewrite (agree_mro _ w w' Ha c Hc). exact Hk.
Qed.

Lemma validation_outcome_agree (P : ClassId -> Prop) (self : ClassId) (attrs : Dict)
      (w w' : World) (implements : list ClassId) :
  agree P w w' ->
  (forall i, In i implements -> P i /\ forall k, In k (mro w i) -> P k) ->
  validation_outcome w' self attrs implements = validation_outcome w self attrs implements.
Proof.
  intros Ha Hi. unfold validation_outcome.
  rewrite (find_ext_in (has_violations w' attrs) (has_violations w attrs)).
  - destruct (find (has_violations w attrs) implements) as [i|] eqn:F; [|reflexivity].
    apply find_some in F. destruct F as [Hin _]. destruct (Hi i Hin) as [Hc Hk].
    rewrite (agree_violations _ w w' Ha attrs i Hc Hk). reflexivity.
  - intros i Hin. destruct (Hi i Hin) as [Hc Hk].
    apply (agree_has_violations _ w w' Ha attrs i Hc Hk).
Qed.

(** The loop over the interfaces stops at the first one that shows a
    violation and raises with the violations of that one. *)
Lemma check_interfaces_outcome (self : ClassId) (attrs : Dict)
      (implements : list ClassId) :
  forall w : World,
    (forall i, In i implements -> is_interface w i = true /\ apart w self i) ->
    agree (fun c => c <> self) w (fst (check_interfaces self attrs implements w))
    /\ snd (check_interfaces self attrs implements w)
       = validation_outcome w self attrs implements.
Proof.
  induction implements as [|i rest IH]; intros w H.
  - split; [apply agree_refl | reflexivity].
  - destruct (H i (or_introl eq_refl)) as [Hi Hap].
    simpl. unfold members_of. rewrite Hi.
    destruct (fold_check_step self attrs (member_values w i) w []) as [Ha He].
    simpl in He. fold (violations w attrs i) in He.
    destruct (fold_left (check_step self attrs) (member_values w i) (w, []))
      as [w1 errors]. simpl in Ha, He. subst errors.
    unfold validation_outcome. simpl. unfold has_violations at 1.
    destruct (violations w attrs i) as [|e errs] eqn:V.
    + assert (Hrest : forall j, In j rest -> is_interface w1 j = true /\ apart w1 self j).
      { intros j Hj. destruct (H j (or_intror Hj)) as [Hij Hapj]. split.
        - unfold is_interface. rewrite (agree_issubclass _ w w1 Ha j); [exact Hij|].
          exact (proj1 Hapj).
        - apply (apart_agree self w w1); assumption. }
      destruct (IH w1 Hrest) as [Ha1 Ho]. split.
      * apply (agree_trans _ w w1); assumption.
      * rewrite Ho.
        apply (validation_outcome_agree (fun c => c <> self)); [exact Ha|].
        intros j Hj. apply H. right. exact Hj.
    + split; [exact Ha | simpl; rewrite V; reflexivity].
Qed.

(** ** The stages of Implementation.__metanew__ *)

Lemma type_new_returns (name : string) (bases : list ClassId) (attrs : Dict)
      (w w1 : World) (self : ClassId) :
  type_new name bases attrs w = (w1, Returns self) ->
  self = List.length (classes w)
  /\ exists l, w1 = mkWorld (classes w ++ [mkClass name bases l attrs []]) (members w).
Proof.
  unfold type_new.
  destruct (linearize w (List.length (classes w)) bases) as [l|]; intros H;
    [|discriminate].
  injection H as Hw Hs. split; [auto|]. exists l. auto.
Qed.

Lemma type_new_raises (name : string) (bases : list ClassId) (attrs : Dict)
      (w w1 : World) (e : Exception) :
  type_new name bases attrs w = (w1, Raises e) -> w1 = w.
Proof.
  unfold type_new.
  destruct (linearize w (List.length (classes w)) bases) as [l|]; intros H;
    [discriminate|].
  injection H as Hw _. auto.
Qed.

Lemma type_new_agree (name : string) (bases : list ClassId) (attrs : Dict)
      (w w1 : World) (self : ClassId) :
  type_new name bases attrs w = (w1, Returns self) ->
  agree (fun c => c < List.length (classes w)) w w1.
Proof.
  intros H. apply type_new_returns in H. destruct H as [_ [l Hw]]. subst w1.
  split; [reflexivity|]. intros c Hc. unfold lookup_class. simpl.
  apply nth_error_app1. exact Hc.
Qed.

Lemma is_interface_exists (w : World) (c : ClassId) :
  is_interface w c = true -> c < List.length (classes w).
Proof.
  unfold is_interface, issubclass, mro, lookup_class. intros H.
  apply nth_error_Some. destruct (nth_error (classes w) c); [discriminate|].
  simpl in H. discriminate.
Qed.

Lemma closed_mro_lt (w : World) (c k : ClassId) :
  closed_mro w = true -> In k (mro w c) -> k < List.length (classes w).
Proof.
  unfold closed_mro, mro, lookup_class. intros H Hin.
  destruct (nth_error (classes w) c) as [cl|] eqn:E; [|contradiction].
  rewrite forallb_forall in H. specialize (H cl (nth_error_In _ _ E)).
  rewrite forallb_forall in H. apply Nat.ltb_lt. apply H. exact Hin.
Qed.

Lemma merge_member_keeps (w : World) (attrs : Dict) (m : MemberId)
      (n : string) (v : Value) :
  dict_get attrs n = Some v -> dict_get (merge_member w attrs m) n = Some v.
Proof.
  intros H. unfold merge_member.
  destruct (member_kind (member w m)) as [[impl|] fin|t|p]; try exact H.
  unfold dict_mem.
  destruct (dict_get attrs (member_name (member w m))) eqn:E; [exact H|].
  rewrite dict_get_set_other; [exact H|]. intros Heq. congruence.
Qed.

Lemma fold_merge_keeps (w : World) (ms : list MemberId) (attrs : Dict)
      (n : string) (v : Value) :
  dict_get attrs n = Some v ->
  dict_get (fold_left (merge_member w) ms attrs) n = Some v.
Proof.
  revert attrs. induction ms as [|m ms IH]; simpl; intros attrs H; [exact H|].
  apply IH. apply merge_member_keeps. exact H.
Qed.

(** Merging the defaults leaves what the class body binds as it is. *)
Lemma merge_defaults_keeps (w : World) (implements : list ClassId)
      (attrs attrs1 : Dict) (n : string) (v : Value) :
  merge_defaults w implements attrs = Returns attrs1 ->
  dict_get attrs n = Some v -> dict_get attrs1 n = Some v.
Proof.
  revert attrs. induction implements as [|i rest IH]; simpl; intros attrs Hm H.
  - injection Hm as <-. exact H.
  - destruct (members_of w i) as [ms|]; simpl in Hm; [|discriminate].
    apply (IH _ Hm). apply fold_merge_keeps. exact H.
Qed.

Lemma merge_defaults_interfaces (w : World) (implements : list ClassId)
      (attrs attrs1 : Dict) :
  merge_defaults w implements attrs = Returns attrs1 ->
  forall i, In i implements -> is_interface w i = true.
Proof.
  revert attrs. induction implements as [|i rest IH]; simpl; intros attrs Hm j Hj;
    [contradiction|].
  unfold members_of in Hm. destruct (is_interface w i) eqn:E; simpl in Hm;
    [|discriminate].
  destruct Hj as [<-|Hj]; [exact E|]. apply (IH _ Hm). exact Hj.
Qed.

Lemma merge_member_absent (w : World) (attrs : Dict) (m : MemberId) (n : string) :
  (forall impl fin, member_name (member w m) = n ->
                    member_kind (member w m) <> Method (Some impl) fin) ->
  dict_get attrs n = None -> dict_get (merge_member w attrs m) n = None.
Proof.
  intros Hm H. unfold merge_member.
  destruct (member_kind (member w m)) as [[impl|] fin|t|p] eqn:K; try exact H.
  destruct (dict_mem attrs (member_name (member w m))); [exact H|].
  rewrite dict_get_set_other; [exact H|].
  intros E. apply (Hm impl fin E). reflexivity.
Qed.

Lemma fold_merge_absent (w : World) (ms : list MemberId) (attrs : Dict) (n : string) :
  no_default_named w n ms ->
  dict_get attrs n = None ->
  dict_get (fold_left (merge_member w) ms attrs) n = None.
Proof.
  revert attrs. induction ms as [|m ms IH]; simpl; intros attrs Hn H; [exact H|].
  apply IH.
  - intros m' impl fin Hin. apply Hn. right. exact Hin.
  - apply merge_member_absent; [|exact H].
    intros impl fin. apply Hn. left. reflexivity.
Qed.

(** A name that the class body leaves out stays out when no interface has a
    default for it. *)
Lemma merge_defaults_absent (w : World) (implements : list ClassId)
      (attrs attrs1 : Dict) (n : string) :
  merge_defaults w implements attrs = Returns attrs1 ->
  (forall i, In i implements -> no_default_named w n (member_values w i)) ->
  dict_get attrs n = None -> dict_get attrs1 n = None.
Proof.
  revert attrs. induction implements as [|i rest IH]; simpl; intros attrs Hm Hn H.
  - injection Hm as <-. exact H.
  - unfold members_of in Hm. destruct (is_interface w i); simpl in Hm; [|discriminate].
    apply (IH _ Hm).
    + intros j Hj. apply Hn. right. exact Hj.
    + apply fold_merge_absent; [|exact H]. apply Hn. left. reflexivity.
Qed.

Lemma check_overrides_raises (w : World) (implements : list ClassId) (items : Dict)
      (e : Exception) :
  check_overrides w implements items = Raises e -> exists msg, e = RuntimeError msg.
Proof.
  induction items as [|[key value] items IH]; simpl; intros H; [discriminate|].
  destruct (negb (is_function value)); [auto|].
  destruct (negb (marked_override value)); [auto|].
  destruct (existsb (fun interface => has_member w interface key) implements); [auto|].
  injection H as <-. eexists. reflexivity.
Qed.

(** Once the declaration has reached the validation, the rest of
    [__metanew__] is the validation, the check of the overrides and the
    registration. *)
Lemma metanew_prepared (name : string) (bases : list ClassId) (attrs : Dict)
      (w : World) (l : list ClassId) (attrs1 : Dict) (w1 : World) (self : ClassId) :
  prepared name bases attrs w l attrs1 w1 self ->
  Implementation_metanew name bases attrs w =
  match check_interfaces self attrs1 (reduce_interfaces w l) w1 with
  | (w2, Raises e) => (w2, Raises e)
  | (w2, Returns _) =>
      match check_overrides w2 (reduce_interfaces w l) (vars w2 self) with
      | Raises e => (w2, Raises e)
      | Returns _ => (fst (register self (reduce_interfaces w l) w2), Returns self)
      end
  end.
Proof.
  intros [Hl [Hm Ht]]. unfold Implementation_metanew, sbind, lift, ret.
  unfold setdefault_implements. fold implements_key. rewrite Hl. simpl.
  rewrite Hm, Ht.
  destruct (check_interfaces self attrs1 (reduce_interfaces w l) w1) as [w2 [[]|e]];
    [|reflexivity].
  destruct (check_overrides w2 (reduce_interfaces w l) (vars w2 self)) as [[]|e];
    reflexivity.
Qed.

(** In a store whose resolution orders name existing classes only, the
    validation of a prepared declaration shows what the interfaces of the
    store before the declaration ask for. *)
Lemma prepared_validation (name : string) (bases : list ClassId) (attrs : Dict)
      (w : World) (l : list ClassId) (attrs1 : Dict) (w1 : World) (self : ClassId) :
  closed_mro w = true ->
  prepared name bases attrs w l attrs1 w1 self ->
  agree (fun c => c <> self) w1
        (fst (check_interfaces self attrs1 (reduce_interfaces w l) w1))
  /\ snd (check_interfaces self attrs1 (reduce_interfaces w l) w1)
     = validation_outcome w self attrs1 (reduce_interfaces w l).
Proof.
  intros Hc [Hl [Hm Ht]].
  pose proof (type_new_agree _ _ _ _ _ _ Ht) as Ha.
  pose proof (merge_defaults_interfaces _ _ _ _ Hm) as Hi.
  destruct (type_new_returns _ _ _ _ _ _ Ht) as [Hs _].
  assert (Hin : forall i, In i (reduce_interfaces w l) ->
                  i < List.length (classes w)
                  /\ forall k, In k (mro w i) -> k < List.length (classes w)).
  { intros i Hi'. split.
    - apply is_interface_exists. apply Hi. exact Hi'.
    - intros k Hk. apply (closed_mro_lt w i k Hc Hk). }
  destruct (check_interfaces_outcome self attrs1 (reduce_interfaces w l) w1)
    as [Hag Ho].
  - intros i Hi'. destruct (Hin i Hi') as [Hlt Hk]. split.
    + unfold is_interface. rewrite (agree_issubclass _ w w1 Ha i Interface Hlt).
      apply Hi. exact Hi'.
    + split; [lia|]. rewrite (agree_mro _ w w1 Ha i Hlt).
      intros k Hk'. specialize (Hk k Hk'). lia.
  - split; [exact Hag|]. rewrite Ho.
    apply (validation_outcome_agree (fun c => c < List.length (classes w)));
      assumption.
Qed.

(** ** Validation errors *)

(** C1, as the specification has it, fails: [A] asks for [f] and [B] for [g],
    and the class supplies neither.  The error that is raised names [A] and
    lists the missing [f]; the missing [g] of [B] is a violation too, and is
    not in the list. *)
Lemma first_interface_only :
  snd (declare "Impl" [Implementation] [[4; 5]] [] world_two)
  = Raises (ImplementationError 6 4 ["missing method: f()"])
  /\ In "missing method: g()"
        (all_violations world_two [(implements_key, VList [4; 5])]
           (reduce_interfaces world_two [4; 5]))
  /\ ~ In "missing method: g()" ["missing method: f()"].
Proof.
  split; [vm_compute; reflexivity|]. split.
  - vm_compute. right. left. reflexivity.
  - intros [H|[]]. discriminate H.
Qed.

(** C1, amended. The validation goes through the interfaces that remain
    after the reduction, in their order, and collects for each all the
    violations of its members.  The declaration raises an
    [ImplementationError] exactly when some interface has a violation; the
    error carries the new type, the first interface that has one, and every
    violation of that interface.  Interfaces after it are not looked at. *)
Theorem ImplementationError_first_interface :
  forall (name : string) (bases : list ClassId) (attrs : Dict) (w : World)
         (l : list ClassId) (attrs1 : Dict) (w1 : World) (self : ClassId),
    closed_mro w = true ->
    prepared name bases attrs w l attrs1 w1 self ->
    forall (s i : ClassId) (errors : list string),
      snd (Implementation_metanew name bases attrs w)
      = Raises (ImplementationError s i errors)
      <-> s = self
          /\ find (has_violations w attrs1) (reduce_interfaces w l) = Some i
          /\ errors = violations w attrs1 i.
Proof.
  intros name bases attrs w l attrs1 w1 self Hc Hp s i errors.
  rewrite (metanew_prepared _ _ _ _ _ _ _ _ Hp).
  destruct (prepared_validation _ _ _ _ _ _ _ _ Hc Hp) as [_ Ho].
  destruct (check_interfaces self attrs1 (reduce_interfaces w l) w1) as [w2 r].
  simpl in Ho. subst r. unfold validation_outcome.
  destruct (find (has_violations w attrs1) (reduce_interfaces w l)) as [j|] eqn:F.
  - simpl. split.
    + intros H. injection H as <- <- <-. auto.
    + intros [-> [Hj ->]]. injection Hj as <-. reflexivity.
  - split.
    + intros H.
      destruct (check_overrides w2 (reduce_interfaces w l) (vars w2 self))
        as [[]|e] eqn:O; simpl in H; [discriminate|].
      apply check_overrides_raises in O. destruct O as [msg ->].
      discriminate.
    + intros [_ [Hj _]]. discriminate.
Qed.

Lemma ImplementationError_first_interface_witness :
  snd (Implementation_metanew "Impl" [Implementation]
         [(implements_key, VList [4; 5])] world_two)
  = Raises (ImplementationError 6 4 ["missing method: f()"]).
Proof.
  apply (ImplementationError_first_interface "Impl" [Implementation]
           [(implements_key, VList [4; 5])] world_two [4; 5]
           [(implements_key, VList [4; 5])]
           (fst (type_new "Impl" [Implementation]
                   [(implements_key, VList [4; 5])] world_two)) 6).
  - reflexivity.
  - repeat split.
  - repeat split.
Defined.

Lemma find_some_exists {A} (f : A -> bool) (l : list A) (x : A) :
  In x l -> f x = true -> exists y, find f l = Some y.
Proof.
  intros Hin Hf. destruct (find f l) as [y|] eqn:E; [eauto|].
  rewrite (find_none f l E x Hin) in Hf. discriminate.
Qed.

(** A violation in any interface of the reduced list makes the declaration
    raise an [ImplementationError]. *)
Lemma metanew_raises_on_violation (name : string) (bases : list ClassId)
      (attrs : Dict) (w : World) (l : list ClassId) (attrs1 : Dict) (w1 : World)
      (self i : ClassId) (msg : string) :
  closed_mro w = true ->
  prepared name bases attrs w l attrs1 w1 self ->
  In i (reduce_interfaces w l) ->
  In msg (violations w attrs1 i) ->
  exists j,
    find (has_violations w attrs1) (reduce_interfaces w l) = Some j
    /\ snd (Implementation_metanew name bases attrs w)
       = Raises (ImplementationError self j (violations w attrs1 j)).
Proof.
  intros Hc Hp Hi Hmsg.
  destruct (find_some_exists (has_violations w attrs1) (reduce_interfaces w l) i Hi)
    as [j Hj].
  - unfold has_violations. destruct (violations w attrs1 i); [contradiction|reflexivity].
  - exists j. split; [exact Hj|].
    rewrite (metanew_prepared _ _ _ _ _ _ _ _ Hp).
    destruct (prepared_validation _ _ _ _ _ _ _ _ Hc Hp) as [_ Ho].
    destruct (check_interfaces self attrs1 (reduce_interfaces w l) w1) as [w2 r].
    simpl in Ho. subst r. unfold validation_outcome. rewrite Hj. reflexivity.
Qed.

Lemma violation_in (w : World) (attrs : Dict) (i : ClassId) (m : MemberId)
      (msg : string) :
  In m (member_values w i) -> check_member w attrs m = Violation msg ->
  In msg (violations w attrs i).
Proof.
  intros Hm Hc. unfold violations. apply in_flat_map. exists m.
  split; [exact Hm|]. rewrite Hc. left. reflexivity.
Qed.

Lemma merge_member_bound (w : World) (attrs : Dict) (m : MemberId)
      (d : PyFunction) (n : string) :
  bound_to d n attrs -> bound_to d n (merge_member w attrs m).
Proof.
  intros [f [Hf Hs]]. exists f. split; [|exact Hs].
  apply merge_member_keeps. exact Hf.
Qed.

Lemma fold_merge_bound (w : World) (ms : list MemberId) (attrs : Dict)
      (d : PyFunction) (n : string) :
  bound_to d n attrs -> bound_to d n (fold_left (merge_member w) ms attrs).
Proof.
  revert attrs. induction ms as [|m ms IH]; simpl; intros attrs H; [exact H|].
  apply IH. apply merge_member_bound. exact H.
Qed.

Lemma merge_member_default (w : World) (attrs : Dict) (m : MemberId)
      (d : PyFunction) (n : string) :
  (forall d' fin, member_name (member w m) = n ->
                  member_kind (member w m) = Method (Some d') fin ->
                  same_function d d' = true) ->
  dict_get attrs n = None \/ bound_to d n attrs ->
  dict_get (merge_member w attrs m) n = None \/ bound_to d n (merge_member w attrs m).
Proof.
  intros Hd [H|H]; [|right; apply merge_member_bound; exact H].
  unfold merge_member.
  destruct (member_kind (member w m)) as [[d'|] fin|t|p] eqn:K; auto.
  destruct (dict_mem attrs (member_name (member w m))); auto.
  destruct (String.eqb (member_name (member w m)) n) eqn:E.
  - apply String.eqb_eq in E. right. exists d'. rewrite <- E at 1.
    rewrite dict_get_set_same. split; [reflexivity|].
    apply (Hd d' fin E). reflexivity.
  - apply String.eqb_neq in E. left. rewrite dict_get_set_other; assumption.
Qed.

Lemma merge_member_own_default (w : World) (attrs : Dict) (m : MemberId)
      (d : PyFunction) (fin : bool) :
  member_kind (member w m) = Method (Some d) fin ->
  dict_get attrs (member_name (member w m)) = None ->
  dict_get (merge_member w attrs m) (member_name (member w m)) = Some (VFunction d).
Proof.
  intros K H. unfold merge_member, dict_mem. rewrite K, H.
  apply dict_get_set_same.
Qed.

Lemma same_function_refl (d : PyFunction) : same_function d d = true.
Proof. apply Nat.eqb_refl. Qed.

Lemma fold_merge_default (w : World) (ms : list MemberId) (d : PyFunction)
      (n : string) :
  (forall m d' fin, In m ms -> member_name (member w m) = n ->
                    member_kind (member w m) = Method (Some d') fin ->
                    same_function d d' = true) ->
  forall attrs,
    dict_get attrs n = None \/ bound_to d n attrs ->
    (dict_get (fold_left (merge_member w) ms attrs) n = None
     \/ bound_to d n (fold_left (merge_member w) ms attrs))
    /\ (forall m fin, In m ms -> member_name (member w m) = n ->
                      member_kind (member w m) = Method (Some d) fin ->
                      bound_to d n (fold_left (merge_member w) ms attrs)).
Proof.
  induction ms as [|m ms IH]; intros Hd attrs H; simpl.
  - split; [exact H|]. intros m fin [].
  - assert (Hd' : forall m' d' fin, In m' ms -> member_name (member w m') = n ->
                    member_kind (member w m') = Method (Some d') fin ->
                    same_function d d' = true).
    { intros m' d' fin Hin. apply Hd. right. exact Hin. }
    pose proof (merge_member_default w attrs m d n
                  (fun d' fin => Hd m d' fin (or_introl eq_refl)) H) as H1.
    destruct (IH Hd' (merge_member w attrs m) H1) as [Ha Hb]. split; [exact Ha|].
    intros m0 fin [<-|Hin] Hn K.
    + apply fold_merge_bound. destruct H as [H|H].
      * exists d. split; [|apply same_function_refl].
        rewrite <- Hn. apply (merge_member_own_default w attrs m d fin K).
        rewrite Hn. exact H.
      * apply merge_member_bound. exact H.
    + apply (Hb m0 fin Hin Hn K).
Qed.

(** When the class body leaves [n] out and the default [d] of a member is
    the only default that goes by that name, the merge binds [n] to [d]. *)
Lemma merge_defaults_default (w : World) (implements : list ClassId)
      (d : PyFunction) (n : string) :
  only_default w implements n d ->
  forall attrs attrs1,
    merge_defaults w implements attrs = Returns attrs1 ->
    dict_get attrs n = None \/ bound_to d n attrs ->
    (dict_get attrs1 n = None \/ bound_to d n attrs1)
    /\ (forall i m fin, In i implements -> In m (member_values w i) ->
                        member_name (member w m) = n ->
                        member_kind (member w m) = Method (Some d) fin ->
                        bound_to d n attrs1).
Proof.
  induction implements as [|i rest IH]; intros Hd attrs attrs1 Hm H; simpl in Hm.
  - injection Hm as <-. split; [exact H|]. intros i m fin [].
  - unfold members_of in Hm. destruct (is_interface w i); simpl in Hm; [|discriminate].
    assert (Hrest : only_default w rest n d).
    { intros j m d' fin Hj. apply Hd. right. exact Hj. }
    destruct (fold_merge_default w (member_values w i) d n
                (fun m d' fin Hin => Hd i m d' fin (or_introl eq_refl) Hin) attrs H)
      as [H1 H2].
    destruct (IH Hrest _ _ Hm H1) as [Ha Hb]. split; [exact Ha|].
    intros j m fin [<-|Hj] Hin Hn K.
    + destruct (H2 m fin Hin Hn K) as [f [Hf Hs]]. exists f. split; [|exact Hs].
      apply (merge_defaults_keeps _ _ _ _ _ _ Hm Hf).
    + apply (Hb j m fin Hj Hin Hn K).
Qed.

(** ** Final methods *)

Lemma no_violation_no_error (name : string) (bases : list ClassId) (attrs : Dict)
      (w : World) (l : list ClassId) (attrs1 : Dict) (w1 : World) (self : ClassId) :
  closed_mro w = true ->
  prepared name bases attrs w l attrs1 w1 self ->
  (forall i, In i (reduce_interfaces w l) -> violations w attrs1 i = []) ->
  forall s j errors,
    snd (Implementation_metanew name bases attrs w)
    <> Raises (ImplementationError s j errors).
Proof.
  intros Hc Hp Hv s j errors.
  rewrite (metanew_prepared _ _ _ _ _ _ _ _ Hp).
  destruct (prepared_validation _ _ _ _ _ _ _ _ Hc Hp) as [_ Ho].
  destruct (check_interfaces self attrs1 (reduce_interfaces w l) w1) as [w2 r].
  simpl in Ho. subst r. unfold validation_outcome.
  destruct (find (has_violations w attrs1) (reduce_interfaces w l)) as [k|] eqn:F.
  - apply find_some in F. destruct F as [Hk Hh]. unfold has_violations in Hh.
    rewrite (Hv k Hk) in Hh. discriminate.
  - destruct (check_overrides w2 (reduce_interfaces w l) (vars w2 self))
      as [[]|e] eqn:O; simpl; [discriminate|].
    apply check_overrides_raises in O. destruct O as [msg ->]. discriminate.
Qed.

Lemma check_final_default (w : World) (attrs : Dict) (m : MemberId)
      (d : PyFunction) :
  member_kind (member w m) = Method (Some d) true ->
  bound_to d (member_name (member w m)) attrs ->
  check_member w attrs m = Fine.
Proof.
  intros K [f [Hf Hs]]. unfold check_member, check_method. rewrite K, Hf.
  simpl. rewrite Hs. reflexivity.
Qed.

Lemma find_first {A} (f : A -> bool) (pre post : list A) (x : A) :
  (forall k, In k pre -> f k = false) -> f x = true ->
  find f (pre ++ x :: post) = Some x.
Proof.
  induction pre as [|k pre IH]; simpl; intros Hpre Hx.
  - rewrite Hx. reflexivity.
  - rewrite (Hpre k (or_introl eq_refl)). apply IH; [|exact Hx].
    intros k' Hk'. apply Hpre. right. exact Hk'.
Qed.

(** A prepared declaration whose interfaces show no violation, and whose
    override marks are all in order, returns the new class. *)
Lemma metanew_returns (name : string) (bases : list ClassId) (attrs : Dict)
      (w : World) (l : list ClassId) (attrs1 : Dict) (w1 : World) (self : ClassId) :
  closed_mro w = true ->
  prepared name bases attrs w l attrs1 w1 self ->
  (forall i, In i (reduce_interfaces w l) -> violations w attrs1 i = []) ->
  check_overrides (fst (check_interfaces self attrs1 (reduce_interfaces w l) w1))
    (reduce_interfaces w l)
    (vars (fst (check_interfaces self attrs1 (reduce_interfaces w l) w1)) self)
  = Returns tt ->
  snd (Implementation_metanew name bases attrs w) = Returns self.
Proof.
  intros Hc Hp Hv Ho.
  rewrite (metanew_prepared _ _ _ _ _ _ _ _ Hp).
  destruct (prepared_validation _ _ _ _ _ _ _ _ Hc Hp) as [_ Hval].
  destruct (check_interfaces self attrs1 (reduce_interfaces w l) w1) as [w2 r].
  simpl in Hval, Ho. subst r. unfold validation_outcome.
  destruct (find (has_violations w attrs1) (reduce_interfaces w l)) as [k|] eqn:F.
  - apply find_some in F. destruct F as [Hk Hh]. unfold has_violations in Hh.
    rewrite (Hv k Hk) in Hh. discriminate.
  - rewrite Ho. reflexivity.
Qed.

(** C5, as the specification has it, fails: [A] asks for [f], [F] has the
    final method [run], and the class implements [A] and [F], leaves [f] out
    and gives [run] a body of its own.  The validation stops at [A]: the
    error that is raised names [A] and lists the missing [f]; the entry
    "implemented final method", a violation of [F], is never recorded. *)
Lemma final_entry_not_recorded :
  snd (declare "Impl" [Implementation] [[4; 5]]
         [("run", VFunction (def 9)); ("stop", VFunction (def 8))]
         world_required_final)
  = Raises (ImplementationError 6 4 ["missing method: f()"])
  /\ In 5 (reduce_interfaces world_required_final [4; 5])
  /\ member world_required_final 1
     = mkMember (Some 5) "run" (Method (Some (final (def 1))) true)
  /\ In "implemented final method: run()"
        (violations world_required_final
           [("run", VFunction (def 9)); ("stop", VFunction (def 8));
            (implements_key, VList [4; 5])] 5)
  /\ ~ In "implemented final method: run()" ["missing method: f()"].
Proof.
  split; [vm_compute; reflexivity|].
  split; [vm_compute; auto|].
  split; [vm_compute; reflexivity|].
  split; [vm_compute; auto|].
  intros [H|[]]. discriminate H.
Qed.

(** A name that the class body leaves out is bound to the first default
    that goes by it.  [A] and [F] both have a default for [run], that of [F]
    is final, and the class lists [A] before [F] and binds nothing: the
    default of [A] is merged in, and the final method of [F] counts as
    implemented anew. *)
Lemma final_default_shadowed :
  snd (Implementation_metanew "Impl" [Implementation]
         [(implements_key, VList [4; 5])] world_shadowed)
  = Raises (ImplementationError 6 5 ["implemented final method: run()"]).
Proof. vm_compute; reflexivity. Qed.

(** C5, amended. Take a final method of an interface [i] that remains after
    the reduction.  When the class body binds its name to something that is
    not the default of the method, "implemented final method" is a violation
    of [i], and the declaration raises an [ImplementationError]: the error
    names the first interface of the reduced list that has a violation and
    carries the violations of that interface, so it names [i] and holds the
    entry when no interface before [i] has a violation, and whenever an error
    names [i] the entry is in it.  When the class body binds the name to the
    default itself, or leaves the name out and the merge has bound it to the
    default, the check of the method records nothing; the merge does bind a
    name that is left out to the default when no other default goes by that
    name.  When nothing is recorded for any member, no [ImplementationError]
    is raised; and when the final method is bound to its default, no other
    member of a remaining interface has a violation and the override marks
    are in order, the declaration returns the new class. *)
Theorem final_method_check :
  forall (name : string) (bases : list ClassId) (attrs : Dict) (w : World)
         (l : list ClassId) (attrs1 : Dict) (w1 : World) (self i : ClassId)
         (m : MemberId) (impl : option PyFunction),
    closed_mro w = true ->
    prepared name bases attrs w l attrs1 w1 self ->
    In i (reduce_interfaces w l) ->
    In m (member_values w i) ->
    member_kind (member w m) = Method impl true ->
    (forall v,
        dict_get attrs (member_name (member w m)) = Some v ->
        impl_differs impl v = true ->
        In ("implemented final method: " ++ member_name (member w m) ++ "()")%string
           (violations w attrs1 i)
        /\ (exists j,
               find (has_violations w attrs1) (reduce_interfaces w l) = Some j
               /\ snd (Implementation_metanew name bases attrs w)
                  = Raises (ImplementationError self j (violations w attrs1 j)))
        /\ (forall pre post,
               reduce_interfaces w l = pre ++ i :: post ->
               (forall k, In k pre -> violations w attrs1 k = []) ->
               snd (Implementation_metanew name bases attrs w)
               = Raises (ImplementationError self i (violations w attrs1 i)))
        /\ (forall s errors,
               snd (Implementation_metanew name bases attrs w)
               = Raises (ImplementationError s i errors) ->
               In ("implemented final method: " ++ member_name (member w m) ++ "()")%string
                  errors))
    /\ (forall d, impl = Some d ->
          bound_to d (member_name (member w m)) attrs
          \/ (dict_get attrs (member_name (member w m)) = None
              /\ bound_to d (member_name (member w m)) attrs1) ->
          check_member w attrs1 m = Fine)
    /\ (forall d, impl = Some d ->
          dict_get attrs (member_name (member w m)) = None ->
          only_default w (reduce_interfaces w l) (member_name (member w m)) d ->
          bound_to d (member_name (member w m)) attrs1)
    /\ ((forall j, In j (reduce_interfaces w l) -> violations w attrs1 j = []) ->
        forall s j errors,
          snd (Implementation_metanew name bases attrs w)
          <> Raises (ImplementationError s j errors))
    /\ (forall d, impl = Some d ->
          bound_to d (member_name (member w m)) attrs
          \/ (dict_get attrs (member_name (member w m)) = None
              /\ bound_to d (member_name (member w m)) attrs1) ->
          (forall j m', In j (reduce_interfaces w l) -> In m' (member_values w j) ->
                        m' <> m -> violation_of (check_member w attrs1 m') = []) ->
          check_overrides
            (fst (check_interfaces self attrs1 (reduce_interfaces w l) w1))
            (reduce_interfaces w l)
            (vars (fst (check_interfaces self attrs1 (reduce_interfaces w l) w1)) self)
          = Returns tt ->
          snd (Implementation_metanew name bases attrs w) = Returns self).
Proof.
  intros name bases attrs w l attrs1 w1 self i m impl Hc Hp Hi Hm K.
  pose proof Hp as [Hl [Hmerge Ht]].
  assert (Hfine : forall d, impl = Some d ->
            bound_to d (member_name (member w m)) attrs
            \/ (dict_get attrs (member_name (member w m)) = None
                /\ bound_to d (member_name (member w m)) attrs1) ->
            check_member w attrs1 m = Fine).
  { intros d E [[f [Hf Hs]]|[_ Hb]]; subst impl.
    - apply (check_final_default w attrs1 m d K). exists f. split; [|exact Hs].
      apply (merge_defaults_keeps _ _ _ _ _ _ Hmerge Hf).
    - apply (check_final_default w attrs1 m d K Hb). }
  split; [|split; [|split; [|split]]].
  - intros v Hv Hd.
    assert (Hin : In ("implemented final method: " ++ member_name (member w m) ++ "()")%string
                     (violations w attrs1 i)).
    { apply (violation_in w attrs1 i m); [exact Hm|].
      unfold check_member, check_method. rewrite K.
      rewrite (merge_defaults_keeps _ _ _ _ _ _ Hmerge Hv).
      simpl. rewrite Hd. reflexivity. }
    destruct (metanew_raises_on_violation _ _ _ _ _ _ _ _ _ _ Hc Hp Hi Hin)
      as [j [Hfind Hj]].
    split; [exact Hin|]. split; [exists j; split; assumption|]. split.
    + intros pre post Hsplit Hpre.
      assert (F : find (has_violations w attrs1) (reduce_interfaces w l) = Some i).
      { rewrite Hsplit. apply find_first.
        - intros k Hk. unfold has_violations. rewrite (Hpre k Hk). reflexivity.
        - unfold has_violations.
          destruct (violations w attrs1 i); [contradiction|reflexivity]. }
      rewrite F in Hfind. injection Hfind as <-. exact Hj.
    + intros s errors He. rewrite Hj in He. injection He as _ <- <-. exact Hin.
  - exact Hfine.
  - intros d -> Hnone Honly.
    destruct (merge_defaults_default w (reduce_interfaces w l) d
                (member_name (member w m)) Honly attrs attrs1 Hmerge
                (or_introl Hnone)) as [_ Hb].
    apply (Hb i m true Hi Hm eq_refl K).
  - apply (no_violation_no_error _ _ _ _ _ _ _ _ Hc Hp).
  - intros d E Hb Hothers Ho.
    apply (metanew_returns _ _ _ _ _ _ _ _ Hc Hp); [|exact Ho].
    intros j Hj. unfold violations. apply flat_map_nil. intros m' Hm'.
    destruct (Nat.eq_dec m' m) as [->|Hne].
    + rewrite (Hfine d E Hb). reflexivity.
    + apply (Hothers j m' Hj Hm' Hne).
Qed.

Lemma final_method_check_witness :
  snd (Implementation_metanew "Impl" [Implementation]
         [(implements_key, VList [4]); ("run", VFunction (def 9));
          ("stop", VFunction (def 8))] world_final)
  = Raises (ImplementationError 5 4
              (violations world_final
                 [(implements_key, VList [4]); ("run", VFunction (def 9));
                  ("stop", VFunction (def 8))] 4))
  /\ In "implemented final method: run()"
        (violations world_final
           [(implements_key, VList [4]); ("run", VFunction (def 9));
            ("stop", VFunction (def 8))] 4)
  /\ snd (Implementation_metanew "Impl" [Implementation]
            [(implements_key, VList [4]); ("run", VFunction (final (def 1)));
             ("stop", VFunction (def 8))] world_final)
     = Returns 5.
Proof.
  destruct (final_method_check "Impl" [Implementation]
              [(implements_key, VList [4]); ("run", VFunction (def 9));
               ("stop", VFunction (def 8))] world_final [4]
              [(implements_key, VList [4]); ("run", VFunction (def 9));
               ("stop", VFunction (def 8))]
              (fst (type_new "Impl" [Implementation]
                      [(implements_key, VList [4]); ("run", VFunction (def 9));
                       ("stop", VFunction (def 8))] world_final))
              5 4 0 (Some (final (def 1)))) as [H _].
  - vm_compute; reflexivity.
  - repeat split; vm_compute; reflexivity.
  - vm_compute. left. reflexivity.
  - vm_compute. left. reflexivity.
  - vm_compute; reflexivity.
  - destruct (H (VFunction (def 9))) as [Hin [_ [Hfirst _]]];
      [vm_compute; reflexivity | vm_compute; reflexivity |].
    split; [|split; [exact Hin|]].
    + apply (Hfirst [] []); [vm_compute; reflexivity | intros k []].
    + destruct (final_method_check "Impl" [Implementation]
                  [(implements_key, VList [4]); ("run", VFunction (final (def 1)));
                   ("stop", VFunction (def 8))] world_final [4]
                  [(implements_key, VList [4]); ("run", VFunction (final (def 1)));
                   ("stop", VFunction (def 8))]
                  (fst (type_new "Impl" [Implementation]
                          [(implements_key, VList [4]);
                           ("run", VFunction (final (def 1)));
                           ("stop", VFunction (def 8))] world_final))
                  5 4 0 (Some (final (def 1)))) as [_ [_ [_ [_ S]]]].
      * vm_compute; reflexivity.
      * repeat split; vm_compute; reflexivity.
      * vm_compute. left. reflexivity.
      * vm_compute. left. reflexivity.
      * vm_compute; reflexivity.
      * apply (S (final (def 1)) eq_refl).
        -- left. exists (final (def 1)). split; vm_compute; reflexivity.
        -- intros j m' Hj Hm' Hne. vm_compute in Hj. destruct Hj as [<-|[]].
           vm_compute in Hm'. destruct Hm' as [<-|[<-|[]]];
             [contradiction Hne; reflexivity | vm_compute; reflexivity].
        -- vm_compute; reflexivity.
Defined.

(** ** Missing methods *)

Lemma flat_map_single {B} (f : MemberId -> list B) (x : MemberId)
      (l : list MemberId) :
  NoDup l -> (forall y, In y l -> y <> x -> f y = []) ->
  flat_map f l = [] \/ flat_map f l = f x.
Proof.
  induction 1 as [|y l Hy Hl IH]; simpl; intros H; [left; reflexivity|].
  destruct (Nat.eq_dec y x) as [->|Hne].
  - right. rewrite (flat_map_nil f l); [apply app_nil_r|].
    intros z Hz. apply H; [right; exact Hz|]. intros ->. contradiction.
  - rewrite (H y (or_introl eq_refl) Hne). simpl. apply IH.
    intros z Hz. apply H. right. exact Hz.
Qed.

Lemma NoDup_member_values (w : World) (c : ClassId) :
  NoDup (member_names w c) -> NoDup (member_values w c).
Proof. unfold member_names. apply NoDup_map_inv. Qed.

(** C6, as the specification has it, fails: [B] asks for [foo] without a
    default, [B] is in the list that remains after the reduction, the class
    body binds nothing, and the declaration goes through: the default that
    the subtype [C] gives to [foo] has been merged in. *)
Lemma default_of_subtype_fills_in :
  In 5 (reduce_interfaces world_diamond [4; 5; 6])
  /\ In 1 (member_values world_diamond 5)
  /\ member world_diamond 1 = mkMember (Some 5) "foo" (Method None false)
  /\ snd (declare "Impl" [Implementation] [[4; 5; 6]] [] world_diamond) = Returns 7.
Proof.
  split; [vm_compute; auto|]. split; [vm_compute; auto|].
  split; vm_compute; reflexivity.
Qed.

(** C6, amended. Take a method without a default of an interface that
    remains after the reduction, whose name the class body does not bind and
    no remaining interface has a default for.  When member names are unique
    within each of these interfaces and no other member shows a violation,
    the declaration raises an [ImplementationError] whose list is the one
    entry "missing method" with the name of the method. *)
Theorem missing_method_reported :
  forall (name : string) (bases : list ClassId) (attrs : Dict) (w : World)
         (l : list ClassId) (attrs1 : Dict) (w1 : World) (self i : ClassId)
         (m : MemberId) (fin : bool),
    closed_mro w = true ->
    prepared name bases attrs w l attrs1 w1 self ->
    In i (reduce_interfaces w l) ->
    In m (member_values w i) ->
    member_kind (member w m) = Method None fin ->
    dict_get attrs (member_name (member w m)) = None ->
    (forall j, In j (reduce_interfaces w l) ->
               no_default_named w (member_name (member w m)) (member_values w j)) ->
    (forall j, In j (reduce_interfaces w l) -> NoDup (member_names w j)) ->
    (forall j m', In j (reduce_interfaces w l) -> In m' (member_values w j) ->
                  m' <> m -> violation_of (check_member w attrs1 m') = []) ->
    exists j,
      In j (reduce_interfaces w l)
      /\ snd (Implementation_metanew name bases attrs w)
         = Raises (ImplementationError self j
                     [("missing method: " ++ member_name (member w m) ++ "()")%string]).
Proof.
  intros name bases attrs w l attrs1 w1 self i m fin Hc Hp Hi Hm K Hnone Hnd Huniq Hother.
  pose proof Hp as [Hl [Hmerge Ht]].
  assert (Hcheck : check_member w attrs1 m
                   = Violation ("missing method: " ++ member_name (member w m) ++ "()")).
  { unfold check_member, check_method. rewrite K.
    rewrite (merge_defaults_absent _ _ _ _ _ Hmerge Hnd Hnone). reflexivity. }
  destruct (metanew_raises_on_violation _ _ _ _ _ _ _ _ _ _ Hc Hp Hi
              (violation_in w attrs1 i m _ Hm Hcheck)) as [j [Hj Hr]].
  apply find_some in Hj. destruct Hj as [Hin Hh].
  exists j. split; [exact Hin|]. rewrite Hr. do 2 f_equal.
  unfold has_violations in Hh. unfold violations in *.
  destruct (flat_map_single (fun m' => violation_of (check_member w attrs1 m')) m
              (member_values w j) (NoDup_member_values w j (Huniq j Hin))
              (fun m' Hm' Hne => Hother j m' Hin Hm' Hne)) as [E|E].
  - rewrite E in Hh. discriminate.
  - rewrite E, Hcheck. reflexivity.
Qed.

Lemma missing_method_reported_witness :
  exists j,
    In j (reduce_interfaces world_two [4])
    /\ snd (Implementation_metanew "Impl" [Implementation]
              [(implements_key, VList [4])] world_two)
       = Raises (ImplementationError 6 j ["missing method: f()"]).
Proof.
  apply (missing_method_reported "Impl" [Implementation]
           [(implements_key, VList [4])] world_two [4]
           [(implements_key, VList [4])]
           (fst (type_new "Impl" [Implementation]
                   [(implements_key, VList [4])] world_two)) 6 4 0 false).
  - vm_compute; reflexivity.
  - repeat split; vm_compute; reflexivity.
  - vm_compute. left. reflexivity.
  - vm_compute. left. reflexivity.
  - vm_compute; reflexivity.
  - vm_compute; reflexivity.
  - intros j Hj m impl fin Hm _. vm_compute in Hj. destruct Hj as [<-|[]].
    vm_compute in Hm. destruct Hm as [<-|[]]. vm_compute. discriminate.
  - intros j Hj. vm_compute in Hj. destruct Hj as [<-|[]].
    vm_compute. repeat constructor. intros [].
  - intros j m' Hj Hm H. vm_compute in Hj. destruct Hj as [<-|[]].
    vm_compute in Hm. destruct Hm as [<-|[]]. contradiction.
Defined.

(** ** Registration: a failed declaration *)

Lemma same_registry_refl (w : World) : same_registry w w.
Proof. intros x. reflexivity. Qed.

Lemma same_registry_trans (w1 w2 w3 : World) :
  same_registry w1 w2 -> same_registry w2 w3 -> same_registry w1 w3.
Proof. intros H1 H2 x. rewrite H2, H1. reflexivity. Qed.

Lemma same_registry_setattr (w : World) (c : ClassId) (n : string) (v : Value) :
  same_registry w (setattr w c n v).
Proof.
  intros x. unfold implementations_of, setattr, update_class, lookup_class. simpl.
  destruct (Nat.eq_dec c x) as [->|Hne].
  - rewrite nth_error_update_nth_same.
    destruct (nth_error (classes w) x); reflexivity.
  - rewrite nth_error_update_nth_other by exact Hne. reflexivity.
Qed.

Lemma same_registry_check_steps (self : ClassId) (attrs : Dict) (ms : list MemberId) :
  forall (w : World) (errors : list string),
    same_registry w (fst (fold_left (check_step self attrs) ms (w, errors))).
Proof.
  induction ms as [|m ms IH]; intros w errors; simpl.
  - apply same_registry_refl.
  - destruct (check_member w attrs m) as [|msg|n v]; try apply IH.
    apply (same_registry_trans w (setattr w self n v)).
    + apply same_registry_setattr.
    + apply IH.
Qed.

Lemma same_registry_check_interfaces (self : ClassId) (attrs : Dict)
      (implements : list ClassId) :
  forall w : World,
    same_registry w (fst (check_interfaces self attrs implements w)).
Proof.
  induction implements as [|i rest IH]; intros w; simpl.
  - apply same_registry_refl.
  - destruct (members_of w i) as [ms|e]; [|apply same_registry_refl].
    pose proof (same_registry_check_steps self attrs ms w []) as Hs.
    destruct (fold_left (check_step self attrs) ms (w, [])) as [w1 [|e errs]];
      simpl in Hs.
    + apply (same_registry_trans w w1); [exact Hs | apply IH].
    + exact Hs.
Qed.

Lemma same_registry_type_new (name : string) (bases : list ClassId) (attrs : Dict)
      (w : World) :
  same_registry w (fst (type_new name bases attrs w)).
Proof.
  unfold type_new.
  destruct (linearize w (List.length (classes w)) bases) as [l|];
    [|apply same_registry_refl].
  intros x. unfold implementations_of, lookup_class. simpl.
  destruct (Nat.lt_ge_cases x (List.length (classes w))) as [Hlt|Hge].
  - rewrite nth_error_app1 by exact Hlt. reflexivity.
  - rewrite nth_error_app2 by exact Hge.
    assert (E : nth_error (classes w) x = None) by (apply nth_error_None; exact Hge).
    rewrite E. destruct (x - List.length (classes w)) as [|k]; simpl; [reflexivity|].
    destruct k; reflexivity.
Qed.

(** A declaration that raises leaves every implementations set as it was. *)
Lemma metanew_raises_same_registry (name : string) (bases : list ClassId)
      (attrs : Dict) (w w' : World) (e : Exception) :
  Implementation_metanew name bases attrs w = (w', Raises e) -> same_registry w w'.
Proof.
  unfold Implementation_metanew, sbind, lift, ret. intros H.
  destruct (setdefault_implements attrs) as [la|e0];
    [|injection H as <- _; apply same_registry_refl].
  destruct (merge_defaults w (reduce_interfaces w (fst la)) (snd la)) as [attrs1|e1];
    [|injection H as <- _; apply same_registry_refl].
  pose proof (same_registry_type_new name bases attrs1 w) as H1.
  destruct (type_new name bases attrs1 w) as [w1 [self|e1]]; simpl in H1;
    [|injection H as <- _; exact H1].
  pose proof (same_registry_check_interfaces self attrs1
                (reduce_interfaces w (fst la)) w1) as H2.
  destruct (check_interfaces self attrs1 (reduce_interfaces w (fst la)) w1)
    as [w2 [[]|e2]]; simpl in H2.
  - destruct (check_overrides w2 (reduce_interfaces w (fst la)) (vars w2 self))
      as [[]|e3]; [discriminate|].
    injection H as <- _. apply (same_registry_trans w w1 w2); assumption.
  - injection H as <- _. apply (same_registry_trans w w1 w2); assumption.
Qed.

Lemma declare_raises_same_registry (name : string) (bases : list ClassId)
      (calls : list (list ClassId)) (body : Dict) (w w' : World) (e : Exception) :
  declare name bases calls body w = (w', Raises e) -> same_registry w w'.
Proof.
  unfold declare, sbind, lift. intros H.
  destruct (run_implements w calls body) as [class_locals|e0].
  - apply (metanew_raises_same_registry name bases class_locals w w' e H).
  - injection H as <- _. apply same_registry_refl.
Qed.

(** ** Registration: a declaration that goes through *)

Lemma lookup_update_class (w : World) (c c' : ClassId) (f : PyClass -> PyClass) :
  lookup_class (update_class w c f) c' =
  if Nat.eqb c c' then option_map f (lookup_class w c') else lookup_class w c'.
Proof.
  unfold lookup_class, update_class. simpl.
  destruct (Nat.eqb c c') eqn:E.
  - apply Nat.eqb_eq in E. subst. apply nth_error_update_nth_same.
  - apply Nat.eqb_neq in E. apply nth_error_update_nth_other. exact E.
Qed.

Lemma same_graph_refl (w : World) : same_graph w w.
Proof. split; auto. Qed.

Lemma same_graph_trans (w1 w2 w3 : World) :
  same_graph w1 w2 -> same_graph w2 w3 -> same_graph w1 w3.
Proof.
  intros [L1 G1] [L2 G2]. split; [congruence|].
  intros c. destruct (G1 c) as [B1 M1], (G2 c) as [B2 M2]. split; congruence.
Qed.

Lemma same_graph_issubclass (w w' : World) (c d : ClassId) :
  same_graph w w' -> issubclass w' c d = issubclass w c d.
Proof. intros [_ G]. unfold issubclass. rewrite (proj2 (G c)). reflexivity. Qed.

Lemma same_graph_update_class (w : World) (c : ClassId) (f : PyClass -> PyClass) :
  (forall k, cls_bases (f k) = cls_bases k /\ cls_mro (f k) = cls_mro k) ->
  same_graph w (update_class w c f).
Proof.
  intros Hf. split.
  - unfold update_class. simpl. apply length_update_nth.
  - intros c'. unfold bases_of, mro. rewrite lookup_update_class.
    destruct (Nat.eqb c c'); [|auto].
    destruct (lookup_class w c') as [k|]; simpl; [|auto].
    destruct (Hf k) as [-> ->]. auto.
Qed.

Lemma same_graph_add (self : ClassId) (w : World) (x : ClassId) :
  same_graph w (add_implementation self w x).
Proof. apply same_graph_update_class. intros k. split; reflexivity. Qed.

Lemma same_graph_setattr (w : World) (c : ClassId) (n : string) (v : Value) :
  same_graph w (setattr w c n v).
Proof. apply same_graph_update_class. intros k. split; reflexivity. Qed.

Lemma implementations_add (self : ClassId) (w : World) (x y : ClassId) :
  implementations_of (add_implementation self w x) y =
  if Nat.eqb x y then
    match lookup_class w y with
    | Some k => if class_in self (implementations k) then implementations k
                else implementations k ++ [self]
    | None => []
    end
  else implementations_of w y.
Proof.
  unfold implementations_of, add_implementation. rewrite lookup_update_class.
  destruct (Nat.eqb x y); [|reflexivity].
  destruct (lookup_class w y); reflexivity.
Qed.

Lemma grows_refl (self : ClassId) (w : World) : grows self w w.
Proof. intros x H. exact H. Qed.

Lemma grows_trans (self : ClassId) (w1 w2 w3 : World) :
  grows self w1 w2 -> grows self w2 w3 -> grows self w1 w3.
Proof. intros H1 H2 x H. apply H2, H1, H. Qed.

Lemma grows_add (self : ClassId) (w : World) (x : ClassId) :
  grows self w (add_implementation self w x).
Proof.
  intros y H. rewrite implementations_add.
  destruct (Nat.eqb x y); [|exact H].
  unfold implementations_of in H. destruct (lookup_class w y) as [k|]; [|exact H].
  destruct (class_in self (implementations k)); [exact H|].
  apply in_or_app. left. exact H.
Qed.

Lemma added (self : ClassId) (w : World) (x : ClassId) :
  lookup_class w x <> None ->
  In self (implementations_of (add_implementation self w x) x).
Proof.
  intros H. rewrite implementations_add, Nat.eqb_refl.
  destruct (lookup_class w x) as [k|]; [|congruence].
  destruct (class_in self (implementations k)) eqn:E.
  - apply class_in_iff. exact E.
  - apply in_or_app. right. left. reflexivity.
Qed.

Lemma issubclass_exists (w : World) (c d : ClassId) :
  issubclass w c d = true -> lookup_class w c <> None.
Proof.
  unfold issubclass, mro. destruct (lookup_class w c); [discriminate|].
  simpl. discriminate.
Qed.

Lemma register_class_graph (self : ClassId) (w : World) (x : ClassId) :
  same_graph w (register_class self w x).
Proof.
  unfold register_class. destruct (issubclass w x Interface);
    [apply same_graph_add | apply same_graph_refl].
Qed.

Lemma register_class_grows (self : ClassId) (w : World) (x : ClassId) :
  grows self w (register_class self w x).
Proof.
  unfold register_class. destruct (issubclass w x Interface);
    [apply grows_add | apply grows_refl].
Qed.

Lemma register_classes (self : ClassId) (bs : list ClassId) :
  forall w : World,
    same_graph w (fold_left (register_class self) bs w)
    /\ grows self w (fold_left (register_class self) bs w)
    /\ forall x, In x bs -> issubclass w x Interface = true ->
                 In self (implementations_of (fold_left (register_class self) bs w) x).
Proof.
  induction bs as [|b bs IH]; intros w; simpl.
  - split; [apply same_graph_refl|]. split; [apply grows_refl|]. intros x [].
  - destruct (IH (register_class self w b)) as [G [Gr Ad]].
    pose proof (register_class_graph self w b) as G0.
    pose proof (register_class_grows self w b) as Gr0.
    split; [apply (same_graph_trans _ _ _ G0 G)|].
    split; [apply (grows_trans _ _ _ _ Gr0 Gr)|].
    intros x [<-|Hx] Hi.
    + apply Gr. unfold register_class. rewrite Hi.
      apply added. apply (issubclass_exists w b Interface Hi).
    + apply Ad; [exact Hx|]. rewrite (same_graph_issubclass _ _ _ _ G0). exact Hi.
Qed.

Lemma level_nil (B : ClassId -> list ClassId) (k : nat) : level B k [] = [].
Proof. induction k as [|k IH]; simpl; auto. Qed.

Lemma level_ext (B B' : ClassId -> list ClassId) (k : nat) (bs : list ClassId) :
  (forall c, B' c = B c) -> level B' k bs = level B k bs.
Proof.
  intros H. revert bs. induction k as [|k IH]; intros bs; simpl; [reflexivity|].
  rewrite IH. f_equal. apply flat_map_ext. exact H.
Qed.

Lemma level_incl (B : ClassId -> list ClassId) (k : nat) (bs bs' : list ClassId) :
  incl bs bs' -> incl (level B k bs) (level B k bs').
Proof.
  revert bs bs'. induction k as [|k IH]; intros bs bs' H; simpl; [exact H|].
  apply IH. intros x Hx. apply in_flat_map in Hx. destruct Hx as [b [Hb Hx]].
  apply in_flat_map. exists b. split; [apply H; exact Hb | exact Hx].
Qed.

(** The walk registers every interface that it meets within its fuel. *)
Lemma register_walk_spec (self : ClassId) (fuel : nat) :
  forall (w : World) (bs : list ClassId),
    same_graph w (register_walk fuel self w bs)
    /\ grows self w (register_walk fuel self w bs)
    /\ forall k x, k < fuel -> In x (level (bases_of w) k bs) ->
                   issubclass w x Interface = true ->
                   In self (implementations_of (register_walk fuel self w bs) x).
Proof.
  induction fuel as [|fuel IH]; intros w bs.
  - destruct bs; simpl; (split; [apply same_graph_refl|]);
      (split; [apply grows_refl|]); intros k x Hk; lia.
  - destruct bs as [|b bs'].
    + simpl. split; [apply same_graph_refl|]. split; [apply grows_refl|].
      intros k x _ Hx. rewrite level_nil in Hx. contradiction.
    + set (bs := b :: bs').
      change (register_walk (S fuel) self w bs)
        with (register_walk fuel self (fold_left (register_class self) bs w)
                (flat_map (bases_of w) bs)).
      destruct (register_classes self bs w) as [G0 [Gr0 Ad0]].
      destruct (IH (fold_left (register_class self) bs w) (flat_map (bases_of w) bs))
        as [G [Gr Ad]].
      split; [apply (same_graph_trans _ _ _ G0 G)|].
      split; [apply (grows_trans _ _ _ _ Gr0 Gr)|].
      intros k x Hk Hx Hi. destruct k as [|k].
      * apply Gr. apply Ad0; assumption.
      * apply (Ad k x); [lia| |].
        -- simpl in Hx.
           rewrite (level_ext (bases_of w)
                      (bases_of (fold_left (register_class self) bs w))); [exact Hx|].
           intros c. apply (proj2 G0 c).
        -- rewrite (same_graph_issubclass _ _ _ _ G0). exact Hi.
Qed.

Lemma register_spec (self : ClassId) (w0 : World) (implements : list ClassId) :
  forall w : World,
    same_graph w0 w ->
    same_graph w0 (fst (register self implements w))
    /\ grows self w (fst (register self implements w))
    /\ forall i k x,
         In i implements -> k < List.length (classes w0) ->
         In x (level (bases_of w0) k [i]) ->
         issubclass w0 x Interface = true ->
         In self (implementations_of (fst (register self implements w)) x).
Proof.
  unfold register, modify. simpl.
  induction implements as [|j rest IH]; intros w G; simpl.
  - split; [exact G|]. split; [apply grows_refl|]. intros i k x [].
  - destruct (register_walk_spec self (List.length (classes w)) w [j])
      as [G1 [Gr1 Ad1]].
    pose proof (same_graph_trans _ _ _ G G1) as G01.
    destruct (IH _ G01) as [G2 [Gr2 Ad2]].
    split; [exact G2|]. split; [apply (grows_trans _ _ _ _ Gr1 Gr2)|].
    intros i k x [<-|Hi] Hk Hx Hs.
    + apply Gr2. apply (Ad1 k x).
      * rewrite (proj1 G). exact Hk.
      * rewrite (level_ext (bases_of w0) (bases_of w)); [exact Hx|].
        intros c. apply (proj2 G c).
      * rewrite (same_graph_issubclass _ _ _ _ G). exact Hs.
    + apply (Ad2 i k x); assumption.
Qed.

Lemma bases_older_from_lt (l : list PyClass) :
  forall (i n : nat) (k : PyClass) (b : ClassId),
    bases_older_from i l = true -> nth_error l n = Some k ->
    In b (cls_bases k) -> b < i + n.
Proof.
  induction l as [|k0 l IH]; intros i n k b H Hn Hb.
  - destruct n; discriminate.
  - simpl in H. apply andb_true_iff in H. destruct H as [H0 H1].
    destruct n as [|n]; simpl in Hn.
    + injection Hn as ->. rewrite forallb_forall in H0.
      specialize (H0 b Hb). apply Nat.ltb_lt in H0. lia.
    + specialize (IH (S i) n k b H1 Hn Hb). lia.
Qed.

Lemma bases_older_lt (w : World) (c b : ClassId) :
  bases_older w = true -> In b (bases_of w c) -> b < c.
Proof.
  unfold bases_older, bases_of, lookup_class. intros H Hb.
  destruct (nth_error (classes w) c) as [k|] eqn:E; [|contradiction].
  apply (bases_older_from_lt (classes w) 0 c k b H E Hb).
Qed.

(** An ancestor is met by the walk after at most as many rounds as the
    number of the class that the walk starts from. *)
Lemma ancestor_level (w w2 : World) (N : nat) :
  bases_older w = true ->
  (forall c, c < N -> bases_of w2 c = bases_of w c) ->
  forall i x, ancestor w i x -> i < N ->
    x <= i /\ exists k, k <= i /\ In x (level (bases_of w2) k [i]).
Proof.
  intros Ho HB i x Ha. induction Ha as [c|c b x Hb Ha IH]; intros Hc.
  - split; [lia|]. exists 0. split; [lia|]. left. reflexivity.
  - pose proof (bases_older_lt w c b Ho Hb) as Hlt.
    destruct IH as [Hx [k [Hk Hin]]]; [lia|].
    split; [lia|]. exists (S k). split; [lia|]. simpl. rewrite app_nil_r.
    apply (level_incl (bases_of w2) k [b]); [|exact Hin].
    intros y [<-|[]]. rewrite (HB c Hc). exact Hb.
Qed.

Lemma same_graph_check_steps (self : ClassId) (attrs : Dict) (ms : list MemberId) :
  forall (w : World) (errors : list string),
    same_graph w (fst (fold_left (check_step self attrs) ms (w, errors))).
Proof.
  induction ms as [|m ms IH]; intros w errors; simpl.
  - apply same_graph_refl.
  - destruct (check_member w attrs m) as [|msg|n v]; try apply IH.
    apply (same_graph_trans w (setattr w self n v)).
    + apply same_graph_setattr.
    + apply IH.
Qed.

Lemma same_graph_check_interfaces (self : ClassId) (attrs : Dict)
      (implements : list ClassId) :
  forall w : World, same_graph w (fst (check_interfaces self attrs implements w)).
Proof.
  induction implements as [|i rest IH]; intros w; simpl.
  - apply same_graph_refl.
  - destruct (members_of w i) as [ms|e]; [|apply same_graph_refl].
    pose proof (same_graph_check_steps self attrs ms w []) as Hs.
    destruct (fold_left (check_step self attrs) ms (w, [])) as [w1 [|e errs]];
      simpl in Hs.
    + apply (same_graph_trans w w1); [exact Hs | apply IH].
    + exact Hs.
Qed.

(** A declaration that goes through has registered the new class with every
    interface that remains after the reduction and with every interface
    among their ancestors. *)
Lemma metanew_registers (name : string) (bases : list ClassId) (attrs : Dict)
      (w w' : World) (self : ClassId) (l : list ClassId) :
  bases_older w = true ->
  Implementation_metanew name bases attrs w = (w', Returns self) ->
  dict_get attrs implements_key = Some (VList l) ->
  forall i x,
    In i (reduce_interfaces w l) -> ancestor w i x ->
    issubclass w x Interface = true ->
    In self (implementations_of w' x).
Proof.
  intros Ho H Hl i x Hi Ha Hs.
  unfold Implementation_metanew, sbind, lift, ret in H.
  unfold setdefault_implements in H. fold implements_key in H. rewrite Hl in H.
  simpl in H.
  destruct (merge_defaults w (reduce_interfaces w l) attrs) as [attrs1|e1] eqn:Hm;
    [|discriminate].
  destruct (type_new name bases attrs1 w) as [w1 [s|e1]] eqn:Ht; [|discriminate].
  pose proof (type_new_agree _ _ _ _ _ _ Ht) as Hag.
  destruct (type_new_returns _ _ _ _ _ _ Ht) as [Hself [l1 Hw1]].
  pose proof (same_graph_check_interfaces s attrs1 (reduce_interfaces w l) w1) as G12.
  destruct (check_interfaces s attrs1 (reduce_interfaces w l) w1) as [w2 [[]|e2]];
    [|discriminate].
  simpl in G12.
  destruct (check_overrides w2 (reduce_interfaces w l) (vars w2 s)) as [[]|e3];
    [|discriminate].
  injection H as <- <-.
  set (N := List.length (classes w)) in *.
  assert (HiN : i < N).
  { apply is_interface_exists. apply (merge_defaults_interfaces _ _ _ _ Hm i Hi). }
  assert (HB : forall c, c < N -> bases_of w2 c = bases_of w c).
  { intros c Hc. rewrite (proj1 (proj2 G12 c)). apply (agree_bases _ w w1 Hag c Hc). }
  destruct (ancestor_level w w2 N Ho HB i x Ha HiN) as [Hx [k [Hk Hin]]].
  destruct (register_spec s w2 (reduce_interfaces w l) w2 (same_graph_refl w2))
    as [_ [_ Ad]].
  apply (Ad i k x Hi).
  - rewrite (proj1 G12). rewrite Hw1. simpl. rewrite length_app. simpl.
    fold N. lia.
  - exact Hin.
  - rewrite (same_graph_issubclass _ _ _ _ G12).
    rewrite (agree_issubclass _ w w1 Hag x Interface); [exact Hs|]. fold N. lia.
Qed.

(** C2. A declaration that fails, at whatever stage and with whatever
    exception, a conflict between two of its interfaces included, leaves
    every implementations set as it was.  A declaration that goes through
    has added the new class to the implementations set of every interface
    that remains after the reduction and of every interface that is reached
    from one of them by walking the declared parents. *)
Theorem registration_follows_success :
  forall (name : string) (bases : list ClassId) (calls : list (list ClassId))
         (body : Dict) (w w' : World) (r : Outcome ClassId),
    declare name bases calls body w = (w', r) ->
    (forall e, r = Raises e -> same_registry w w')
    /\ (forall self locals l i x,
          r = Returns self -> bases_older w = true ->
          run_implements w calls body = Returns locals ->
          dict_get locals implements_key = Some (VList l) ->
          In i (reduce_interfaces w l) -> ancestor w i x ->
          issubclass w x Interface = true ->
          In self (implementations_of w' x)).
Proof.
  intros name bases calls body w w' r H. split.
  - intros e ->. apply (declare_raises_same_registry _ _ _ _ _ _ _ H).
  - intros self locals l i x -> Ho Hr Hl Hi Ha Hs.
    unfold declare, sbind, lift in H. rewrite Hr in H.
    apply (metanew_registers name bases locals w w' self l Ho H Hl i x Hi Ha Hs).
Qed.

Lemma registration_follows_success_witness :
  same_registry world_conflict
    (fst (declare "Duck" [Implementation] [[4; 5]] [] world_conflict))
  /\ In 7 (implementations_of
             (fst (declare "Impl" [Implementation] [[4; 5; 6]] [] world_diamond)) 2).
Proof.
  split.
  - assert (E : declare "Duck" [Implementation] [[4; 5]] [] world_conflict
                = (fst (declare "Duck" [Implementation] [[4; 5]] [] world_conflict),
                   Raises (ConflictingInterfacesError 5 4)))
      by (vm_compute; reflexivity).
    destruct (registration_follows_success "Duck" [Implementation] [[4; 5]] []
                world_conflict _ _ E) as [H _].
    apply (H (ConflictingInterfacesError 5 4)). reflexivity.
  - assert (E : declare "Impl" [Implementation] [[4; 5; 6]] [] world_diamond
                = (fst (declare "Impl" [Implementation] [[4; 5; 6]] [] world_diamond),
                   Returns 7))
      by (vm_compute; reflexivity).
    destruct (registration_follows_success "Impl" [Implementation] [[4; 5; 6]] []
                world_diamond _ _ E) as [_ H].
    apply (H 7 [(implements_key, VList [4; 5; 6])] [4; 5; 6] 6 2).
    + reflexivity.
    + vm_compute; reflexivity.
    + vm_compute; reflexivity.
    + vm_compute; reflexivity.
    + vm_compute. left. reflexivity.
    + apply (ancestor_base world_diamond 6 4 2).
      * vm_compute. left. reflexivity.
      * apply (ancestor_base world_diamond 4 2 2).
        -- vm_compute. left. reflexivity.
        -- apply ancestor_self.
    + vm_compute; reflexivity.
Defined.

(** The fuel of the walk is enough: with classes numbered below [fuel] and
    bases older than their classes, more fuel registers nothing more. *)
Lemma register_walk_enough_fuel (self : ClassId) (fuel : nat) :
  forall (extra : nat) (w : World) (bs : list ClassId),
    (forall c b, c < fuel -> In b (bases_of w c) -> b < c) ->
    (forall b, In b bs -> b < fuel) ->
    register_walk (fuel + extra) self w bs = register_walk fuel self w bs.
Proof.
  induction fuel as [|fuel IH]; intros extra w bs Hrank Hbs.
  - destruct bs as [|b bs]; [destruct extra; reflexivity|].
    specialize (Hbs b (or_introl eq_refl)). lia.
  - destruct bs as [|b0 bs0]; [reflexivity|].
    set (bs := b0 :: bs0) in *.
    change (register_walk (S fuel + extra) self w bs)
      with (register_walk (fuel + extra) self (fold_left (register_class self) bs w)
              (flat_map (bases_of w) bs)).
    change (register_walk (S fuel) self w bs)
      with (register_walk fuel self (fold_left (register_class self) bs w)
              (flat_map (bases_of w) bs)).
    destruct (register_classes self bs w) as [G _].
    apply IH.
    + intros c b Hc Hb. rewrite (proj1 (proj2 G c)) in Hb.
      apply (Hrank c b); [lia | exact Hb].
    + intros b Hb. apply in_flat_map in Hb. destruct Hb as [c [Hc Hb]].
      specialize (Hbs c Hc). specialize (Hrank c b Hbs Hb). lia.
Qed.

(** ** The examples of the specification *)

(** [EnglishGreeter] supplies [greet] only: the declaration goes through, the
    class has the default [farewell], and [Greeter] knows the class. *)
Lemma english_greeter :
  snd (declare "EnglishGreeter" [Implementation] [[4]]
         [("greet", VFunction (def 7))] world_greeter) = Returns 5
  /\ dict_get
       (vars (fst (declare "EnglishGreeter" [Implementation] [[4]]
                     [("greet", VFunction (def 7))] world_greeter)) 5) "farewell"
     = Some (VFunction (default (def 2)))
  /\ implementations_of
       (fst (declare "EnglishGreeter" [Implementation] [[4]]
               [("greet", VFunction (def 7))] world_greeter)) 4 = [5].
Proof. vm_compute. repeat split. Qed.

(** [Flyer] and [Swimmer] on one class: the declaration raises
    [ConflictingInterfacesError] and neither interface knows the class. *)
Lemma flyer_and_swimmer :
  snd (declare "Duck" [Implementation] [[4; 5]] [] world_conflict)
  = Raises (ConflictingInterfacesError 5 4)
  /\ get_conflicting_members world_conflict 5 4 = Returns ["move"]
  /\ implementations_of
       (fst (declare "Duck" [Implementation] [[4; 5]] [] world_conflict)) 4 = []
  /\ implementations_of
       (fst (declare "Duck" [Implementation] [[4; 5]] [] world_conflict)) 5 = [].
Proof. vm_compute. repeat split. Qed.

(** A class that supplies the default of a final method itself, or leaves
    the method out, is accepted; one that marks as an override a function
    that no interface knows is turned down. *)
Lemma final_and_override_examples :
  snd (declare "Impl" [Implementation] [[4]]
         [("run", VFunction (final (def 1))); ("stop", VFunction (def 8))]
         world_final) = Returns 5
  /\ snd (declare "Impl" [Implementation] [[4]]
            [("stop", VFunction (def 8))] world_final) = Returns 5
  /\ snd (declare "Impl" [Implementation] [[4]]
            [("stop", VFunction (override (def 8)))] world_final) = Returns 5
  /\ snd (declare "Impl" [Implementation] [[4]]
            [("stop", VFunction (def 8)); ("halt", VFunction (override (def 9)))]
            world_final)
     = Raises (RuntimeError
                 "'halt' does not override a method of any of the implemented interfaces.").
Proof. vm_compute. repeat split. Qed.

(** * Further properties of the module *)

(** ** reduce_interfaces *)

Lemma reduce_scan_incl (w : World) (i : ClassId) (result r : list ClassId) :
  reduce_scan w i result = Some r -> incl r (i :: result).
Proof.
  revert r. induction result as [|x rest IH]; simpl; intros r H; [discriminate|].
  destruct (issubclass w i x).
  - injection H as <-. intros y [<-|Hy]; simpl; auto.
  - destruct (issubclass w x i).
    + injection H as <-. intros y Hy. right. exact Hy.
    + destruct (reduce_scan w i rest) as [r'|]; simpl in H; [|discriminate].
      injection H as <-. intros y [<-|Hy]; [simpl; auto|].
      destruct (IH r' eq_refl y Hy) as [<-|Hin]; simpl; auto.
Qed.

Lemma reduce_step_incl (w : World) (result : list ClassId) (i : ClassId) :
  incl (reduce_step w result i) (i :: result).
Proof.
  unfold reduce_step. destruct (reduce_scan w i result) as [r|] eqn:E.
  - apply (reduce_scan_incl w i result r E).
  - intros y Hy. apply in_app_or in Hy. destruct Hy as [Hy|[<-|[]]]; simpl; auto.
Qed.

Lemma fold_reduce_incl (w : World) (l acc : list ClassId) :
  incl (fold_left (reduce_step w) l acc) (acc ++ l).
Proof.
  revert acc. induction l as [|i l IH]; simpl; intros acc.
  - rewrite app_nil_r. apply incl_refl.
  - intros y Hy. apply IH in Hy. apply in_app_or in Hy. apply in_or_app.
    destruct Hy as [Hy|Hy]; [|right; right; exact Hy].
    destruct (reduce_step_incl w acc i y Hy) as [<-|Hin]; [right; left|left]; auto.
Qed.

(** X1. [reduce_interfaces] invents nothing: the result is never longer
    than the input, and each of its interfaces is one of the input. *)
Theorem reduce_interfaces_bounds :
  forall (w : World) (interfaces : list ClassId),
    List.length (reduce_interfaces w interfaces) <= List.length interfaces
    /\ incl (reduce_interfaces w interfaces) interfaces.
Proof.
  intros w l. split.
  - apply (fold_reduce_length w l []).
  - apply (fold_reduce_incl w l []).
Qed.

(** X2. On a list of two interfaces [reduce_interfaces] keeps the second
    when it is a subclass of the first, else the first when it is a subclass
    of the second, and else both in their order. *)
Theorem reduce_interfaces_two :
  forall (w : World) (a b : ClassId),
    (issubclass w b a = true -> reduce_interfaces w [a; b] = [b])
    /\ (issubclass w b a = false -> issubclass w a b = true ->
        reduce_interfaces w [a; b] = [a])
    /\ (issubclass w b a = false -> issubclass w a b = false ->
        reduce_interfaces w [a; b] = [a; b]).
Proof.
  intros w a b. unfold reduce_interfaces, reduce_step. simpl.
  split; [|split].
  - intros ->. reflexivity.
  - intros -> ->. reflexivity.
  - intros -> ->. reflexivity.
Qed.

Lemma reduce_interfaces_two_witness :
  reduce_interfaces world_diamond [4; 6] = [6]
  /\ reduce_interfaces world_diamond [6; 4] = [6]
  /\ reduce_interfaces world_diamond [4; 5] = [4; 5].
Proof.
  split; [|split].
  - apply (proj1 (reduce_interfaces_two world_diamond 4 6)).
    vm_compute; reflexivity.
  - apply (proj1 (proj2 (reduce_interfaces_two world_diamond 6 4)));
      vm_compute; reflexivity.
  - apply (proj2 (proj2 (reduce_interfaces_two world_diamond 4 5)));
      vm_compute; reflexivity.
Defined.

Lemma unrelated_sym (w : World) (a b : ClassId) : unrelated w a b = unrelated w b a.
Proof. unfold unrelated. apply andb_comm. Qed.

Lemma reduce_scan_unrelated (w : World) (i : ClassId) (result : list ClassId) :
  forallb (unrelated w i) result = true -> reduce_scan w i result = None.
Proof.
  induction result as [|x rest IH]; simpl; intros H; [reflexivity|].
  apply andb_true_iff in H. destruct H as [Hx Hrest].
  unfold unrelated in Hx. apply andb_true_iff in Hx. destruct Hx as [H1 H2].
  apply negb_true_iff in H1, H2. rewrite H1, H2, (IH Hrest). reflexivity.
Qed.

Lemma fold_reduce_unrelated (w : World) (l : list ClassId) :
  forall acc,
    pairwise_unrelated w l = true ->
    (forall x, In x l -> forallb (unrelated w x) acc = true) ->
    fold_left (reduce_step w) l acc = acc ++ l.
Proof.
  induction l as [|i l IH]; intros acc Hp Hacc; simpl.
  - rewrite app_nil_r. reflexivity.
  - simpl in Hp. apply andb_true_iff in Hp. destruct Hp as [Hi Hl].
    assert (E : reduce_step w acc i = acc ++ [i]).
    { unfold reduce_step.
      rewrite (reduce_scan_unrelated w i acc (Hacc i (or_introl eq_refl))).
      reflexivity. }
    rewrite E, (IH (acc ++ [i]) Hl).
    + rewrite <- app_assoc. reflexivity.
    + intros x Hx. rewrite forallb_app. rewrite (Hacc x (or_intror Hx)). simpl.
      rewrite forallb_forall in Hi. rewrite unrelated_sym, (Hi x Hx). reflexivity.
Qed.

(** X3. A list of interfaces of which no two are related by subclassing
    comes back from [reduce_interfaces] as it went in. *)
Theorem reduce_interfaces_unrelated :
  forall (w : World) (interfaces : list ClassId),
    pairwise_unrelated w interfaces = true ->
    reduce_interfaces w interfaces = interfaces.
Proof.
  intros w l H. apply (fold_reduce_unrelated w l [] H). intros x _. reflexivity.
Qed.

Lemma reduce_interfaces_unrelated_witness :
  reduce_interfaces world_two [4; 5] = [4; 5].
Proof.
  apply (reduce_interfaces_unrelated world_two [4; 5]). vm_compute; reflexivity.
Defined.

Lemma covered_cons (w : World) (l : list ClassId) (r x : ClassId) :
  covered w l x -> covered w (r :: l) x.
Proof. intros [r0 [Hin Hs]]. exists r0. split; [right; exact Hin | exact Hs]. Qed.

Section Coverage.

Variable w : World.
Hypothesis issubclass_trans :
  forall a b c, issubclass w a b = true -> issubclass w b c = true ->
                issubclass w a c = true.

Lemma reduce_scan_covers (i : ClassId) (result r : list ClassId) :
  issubclass w i i = true ->
  reduce_scan w i result = Some r ->
  covered w r i /\ forall x, covered w result x -> covered w r x.
Proof.
  intros Hrefl. revert r. induction result as [|y rest IH]; simpl; intros r H;
    [discriminate|].
  destruct (issubclass w i y) eqn:Hiy.
  - injection H as <-. split.
    + exists i. split; [left; reflexivity | exact Hrefl].
    + intros x [r0 [[<-|Hin] Hs]].
      * exists i. split; [left; reflexivity|].
        apply (issubclass_trans i y x Hiy Hs).
      * exists r0. split; [right; exact Hin | exact Hs].
  - destruct (issubclass w y i) eqn:Hyi.
    + injection H as <-. split; [|auto].
      exists y. split; [left; reflexivity | exact Hyi].
    + destruct (reduce_scan w i rest) as [r'|]; simpl in H; [|discriminate].
      injection H as <-. destruct (IH r' eq_refl) as [Hi Hkeep]. split.
      * apply covered_cons. exact Hi.
      * intros x [r0 [[<-|Hin] Hs]].
        -- exists y. split; [left; reflexivity | exact Hs].
        -- apply covered_cons. apply Hkeep. exists r0. auto.
Qed.

Lemma reduce_step_covers (result : list ClassId) (i : ClassId) :
  issubclass w i i = true ->
  covered w (reduce_step w result i) i
  /\ forall x, covered w result x -> covered w (reduce_step w result i) x.
Proof.
  intros Hrefl. unfold reduce_step.
  destruct (reduce_scan w i result) as [r|] eqn:E.
  - apply (reduce_scan_covers i result r Hrefl E).
  - split.
    + exists i. split; [apply in_or_app; right; left; reflexivity | exact Hrefl].
    + intros x [r0 [Hin Hs]]. exists r0. split; [|exact Hs].
      apply in_or_app. left. exact Hin.
Qed.

Lemma fold_reduce_covers (l : list ClassId) :
  forall acc,
    (forall x, In x l -> issubclass w x x = true) ->
    forall x, covered w acc x \/ In x l ->
              covered w (fold_left (reduce_step w) l acc) x.
Proof.
  induction l as [|i l IH]; intros acc Hrefl x Hx; simpl.
  - destruct Hx as [Hx|[]]. exact Hx.
  - destruct (reduce_step_covers acc i (Hrefl i (or_introl eq_refl))) as [Hi Hkeep].
    apply IH.
    + intros y Hy. apply Hrefl. right. exact Hy.
    + destruct Hx as [Hx|[<-|Hx]]; [left; apply Hkeep; exact Hx | left; exact Hi |].
      right. exact Hx.
Qed.

End Coverage.

(** X4. Where subclassing is transitive and every listed interface is a
    subclass of itself, [reduce_interfaces] drops no obligation: each
    interface of the input has a subclass, itself or a narrower one, in the
    result. *)
Theorem reduce_interfaces_covers :
  forall (w : World) (interfaces : list ClassId),
    (forall a b c, issubclass w a b = true -> issubclass w b c = true ->
                   issubclass w a c = true) ->
    (forall x, In x interfaces -> issubclass w x x = true) ->
    forall x, In x interfaces -> covered w (reduce_interfaces w interfaces) x.
Proof.
  intros w l Htrans Hrefl x Hx.
  apply (fold_reduce_covers w Htrans l [] Hrefl x). right. exact Hx.
Qed.

Ltac split_mro H :=
  unfold issubclass in H; apply existsb_exists in H;
  let y := fresh "y" in
  let Hy := fresh "Hy" in
  let E := fresh "E" in
  destruct H as [y [Hy E]]; apply Nat.eqb_eq in E; subst y;
  vm_compute in Hy; repeat (destruct Hy as [<-|Hy]); try contradiction.

Lemma world_diamond_transitive :
  forall a b c,
    issubclass world_diamond a b = true -> issubclass world_diamond b c = true ->
    issubclass world_diamond a c = true.
Proof.
  intros a b c H1 H2.
  do 7 (destruct a as [|a];
        [split_mro H1; split_mro H2; vm_compute; reflexivity|]).
  destruct a; split_mro H1.
Qed.

Lemma reduce_interfaces_covers_witness :
  covered world_diamond (reduce_interfaces world_diamond [4; 5; 6]) 4.
Proof.
  apply (reduce_interfaces_covers world_diamond [4; 5; 6]
           world_diamond_transitive).
  - intros x Hx. simpl in Hx.
    destruct Hx as [<-|[<-|[<-|[]]]]; vm_compute; reflexivity.
  - left. reflexivity.
Defined.

(** ** implements and get_conflicting_members *)







Lemma check_conflicts_returns (w : World) (x : ClassId) (ys : list ClassId) :
  check_conflicts w x ys = Returns tt <->
  forall y, In y ys -> get_conflicting_members w x y = Returns [].
Proof.
  induction ys as [|y ys IH]; simpl.
  - split; [intros _ y [] | reflexivity].
  - destruct (get_conflicting_members w x y) as [[|c cs]|e] eqn:E; simpl.
    + rewrite IH. split.
      * intros H z [<-|Hz]; [exact E | apply H; exact Hz].
      * intros H z Hz. apply H. right. exact Hz.
    + split; [discriminate|]. intros H.
      specialize (H y (or_introl eq_refl)). rewrite E in H. discriminate.
    + split; [discriminate|]. intros H.
      specialize (H y (or_introl eq_refl)). rewrite E in H. discriminate.
Qed.


Lemma app_snoc_split {A} (l pre post : list A) (x x0 : A) :
  l ++ [x] = pre ++ x0 :: post ->
  (post = [] /\ x0 = x /\ pre = l)
  \/ exists post', post = post' ++ [x] /\ l = pre ++ x0 :: post'.
Proof.
  destruct post as [|z post'] using rev_ind; intros H.
  - apply app_inj_tail in H. destruct H as [-> ->]. left. auto.
  - clear IHpost'. right. exists post'.
    change (pre ++ x0 :: post' ++ [z]) with (pre ++ (x0 :: post') ++ [z]) in H.
    rewrite app_assoc in H. apply app_inj_tail in H. destruct H as [-> ->]. auto.
Qed.

Lemma implements_loop_checked (w : World) (interfaces : list ClassId) :
  forall l l',
    checked_against_earlier w l ->
    implements_loop w interfaces l = Returns l' ->
    checked_against_earlier w l'.
Proof.
  induction interfaces as [|x rest IH]; simpl; intros l l' Hl H.
  - injection H as <-. exact Hl.
  - destruct (check_conflicts w x l) as [[]|e] eqn:C; simpl in H; [|discriminate].
    apply (IH _ _) in H; [exact H|].
    destruct (class_in x l); [exact Hl|].
    intros pre x0 post Hsplit y Hy.
    destruct (app_snoc_split l pre post x x0 Hsplit) as [[_ [-> ->]]|[post' [_ ->]]].
    + apply (proj1 (check_conflicts_returns w x l) C y Hy).
    + apply (Hl pre x0 post' eq_refl y Hy).
Qed.

(** X7. When the [implements] calls of a class body have gone through, every
    interface of the list has been checked against each one that stands
    before it: [get_conflicting_members] of the later and the earlier one is
    empty. *)
Theorem implements_checks_every_pair :
  forall (w : World) (calls : list (list ClassId)) (body locals : Dict)
         (l : list ClassId),
    dict_get body implements_key = None ->
    run_implements w calls body = Returns locals ->
    dict_get locals implements_key = Some (VList l) ->
    checked_against_earlier w l.
Proof.
  intros w calls body locals l Hb Hr Hl.
  assert (Hinv : forall calls d d',
             (forall l0, dict_get d implements_key = Some (VList l0) ->
                         checked_against_earlier w l0) ->
             run_implements w calls d = Returns d' ->
             forall l0, dict_get d' implements_key = Some (VList l0) ->
                        checked_against_earlier w l0).
  { clear. induction calls as [|xs calls IH]; simpl; intros d d' Hd H l0 Hl0.
    - injection H as <-. apply Hd. exact Hl0.
    - destruct (implements w xs d) as [d1|] eqn:E; simpl in H; [|discriminate].
      apply (IH d1 d'); [|exact H|exact Hl0].
      intros l1 Hl1. unfold implements, setdefault_implements in E.
      fold implements_key in E.
      destruct (dict_get d implements_key) as [v|] eqn:G.
      + destruct v; simpl in E; try discriminate.
        destruct (implements_loop w xs l) as [l2|] eqn:L; simpl in E; [|discriminate].
        injection E as <-. rewrite dict_get_set_same in Hl1. injection Hl1 as <-.
        apply (implements_loop_checked w xs l l2); [|exact L].
        apply Hd. reflexivity.
      + simpl in E.
        destruct (implements_loop w xs []) as [l2|] eqn:L; simpl in E; [|discriminate].
        injection E as <-. rewrite dict_get_set_same in Hl1. injection Hl1 as <-.
        apply (implements_loop_checked w xs [] l2); [|exact L].
        intros pre x post Hsplit. destruct pre; discriminate. }
  apply (Hinv calls body locals); [|exact Hr|exact Hl].
  intros l0 H0. rewrite Hb in H0. discriminate.
Qed.

Lemma implements_checks_every_pair_witness :
  checked_against_earlier world_diamond [4; 5; 6].
Proof.
  apply (implements_checks_every_pair world_diamond [[4; 5]; [6]] []
           [(implements_key, VList [4; 5; 6])] [4; 5; 6]);
    vm_compute; reflexivity.
Defined.

(** X8. A list that [implements] has gone through keeps what it held, in
    its order and at its front; what is added behind are arguments of the
    call, and every argument is in the list afterwards. *)
Theorem implements_loop_extends :
  forall (w : World) (interfaces l l' : list ClassId),
    implements_loop w interfaces l = Returns l' ->
    (exists added, l' = l ++ added /\ incl added interfaces)
    /\ forall x, In x interfaces -> In x l'.
Proof.
  intros w interfaces. induction interfaces as [|x rest IH]; simpl; intros l l' H.
  - injection H as <-. split.
    + exists []. split; [rewrite app_nil_r; reflexivity | intros y []].
    + intros x [].
  - destruct (check_conflicts w x l) as [[]|e]; simpl in H; [|discriminate].
    destruct (IH _ _ H) as [[added [Hl' Hincl]] Hall].
    destruct (class_in x l) eqn:E.
    + split.
      * exists added. split; [exact Hl'|]. intros y Hy. right. apply Hincl, Hy.
      * intros y [<-|Hy]; [|apply Hall; exact Hy].
        rewrite Hl'. apply in_or_app. left. apply class_in_iff. exact E.
    + split.
      * exists (x :: added). split.
        -- rewrite Hl', <- app_assoc. reflexivity.
        -- intros y [<-|Hy]; [left; reflexivity | right; apply Hincl, Hy].
      * intros y [<-|Hy]; [|apply Hall; exact Hy].
        rewrite Hl'. apply in_or_app. left. apply in_or_app. right. left. reflexivity.
Qed.

Lemma implements_loop_extends_witness :
  (exists added, [4; 5; 6] = [4] ++ added /\ incl added [5; 4; 6])
  /\ forall x, In x [5; 4; 6] -> In x [4; 5; 6].
Proof.
  apply (implements_loop_extends world_diamond [5; 4; 6] [4] [4; 5; 6]).
  vm_compute; reflexivity.
Defined.




(** ** Property *)

(** X10. A property is a pure default exactly when a candidate that supplies
    nothing satisfies it; what [satisfy] then returns are the defaults. *)
Theorem pure_default_iff_nothing_to_supply :
  forall (nm : string) (p : PropertySlots),
    (Property_is_pure_default p = true <->
     exists t, Property_satisfy nm p (None, None, None) = Returns t)
    /\ (Property_is_pure_default p = true ->
        Property_satisfy nm p (None, None, None)
        = Returns (slot_default (getter_impl p), slot_default (setter_impl p),
                   slot_default (deleter_impl p))).
Proof.
  intros nm [gi si di gf sf df].
  unfold Property_is_pure_default, Property_satisfy. simpl. split.
  - split.
    + intros H. destruct gi, si, di; simpl in *; try discriminate; eauto.
    + intros [t H]. destruct gi, si, di; simpl in *; try discriminate; reflexivity.
  - intros H. destruct gi, si, di; simpl in *; try discriminate; reflexivity.
Qed.

Lemma pure_default_iff_nothing_to_supply_witness :
  Property_satisfy "value" getter_only (None, None, None)
  = Returns (Some (default (def 1)), None, None).
Proof.
  apply (proj2 (pure_default_iff_nothing_to_supply "value" getter_only)).
  reflexivity.
Defined.

(** X11. The member that [from_python_property] makes of a declaring
    property always has a say on the getter (a default or a demand), leaves
    setter and deleter open exactly when the declaration has none, and marks
    no slot final that the declaration leaves empty.  It is a pure default
    exactly when the declaration has a getter and all its functions are
    marked as defaults; a candidate that supplies nothing then resolves to
    the declaration itself. *)
Theorem from_python_property_slots :
  forall (nm : string) (fget fset fdel : option PyFunction),
    let p := Property_from_python_property (fget, fset, fdel) in
    getter_impl p <> SNotImplemented
    /\ (setter_impl p = SNotImplemented <-> fset = None)
    /\ (deleter_impl p = SNotImplemented <-> fdel = None)
    /\ (fget = None -> getter_final p = false)
    /\ (fset = None -> setter_final p = false)
    /\ (fdel = None -> deleter_final p = false)
    /\ (Property_is_pure_default p = true <->
        marked_default fget = true
        /\ (forall f, fset = Some f -> is_default f = true)
        /\ (forall f, fdel = Some f -> is_default f = true))
    /\ (Property_is_pure_default p = true ->
        Property_satisfy nm p (None, None, None) = Returns (fget, fset, fdel)).
Proof.
  intros nm fget fset fdel. simpl.
  unfold Property_is_pure_default, Property_satisfy, slot_of. simpl.
  repeat split.
  - destruct fget as [g|]; [destruct (is_default g)|]; discriminate.
  - destruct fset as [s|]; [destruct (is_default s)|]; intros H;
      try discriminate; reflexivity.
  - intros ->. reflexivity.
  - destruct fdel as [d|]; [destruct (is_default d)|]; intros H;
      try discriminate; reflexivity.
  - intros ->. reflexivity.
  - intros ->. reflexivity.
  - intros ->. reflexivity.
  - intros ->. reflexivity.
  - destruct fget as [g|]; [destruct (is_default g) eqn:E|]; simpl in *;
      try discriminate; auto.
  - destruct fget as [g|]; [destruct (is_default g)|]; simpl in H; try discriminate.
    intros f ->. destruct (is_default f); simpl in H; [reflexivity|discriminate].
  - destruct fget as [g|]; [destruct (is_default g)|]; simpl in H; try discriminate.
    intros f ->. destruct fset as [s|]; [destruct (is_default s)|];
      simpl in H; try discriminate;
      destruct (is_default f); simpl in H; try discriminate; reflexivity.
  - intros [Hg [Hs Hd]].
    destruct fget as [g|]; simpl in Hg; [rewrite Hg|discriminate].
    destruct fset as [s|]; [rewrite (Hs s eq_refl)|];
      (destruct fdel as [d|]; [rewrite (Hd d eq_refl)|]); reflexivity.
  - intros H.
    destruct fget as [g|]; [destruct (is_default g)|]; simpl in H; try discriminate.
    destruct fset as [s|]; [destruct (is_default s)|]; simpl in H; try discriminate;
      (destruct fdel as [d|]; [destruct (is_default d)|]; simpl in H;
       try discriminate; reflexivity).
Qed.

Lemma from_python_property_slots_witness :
  Property_satisfy "value"
    (Property_from_python_property (Some (default (def 1)), Some (final (def 2)), None))
    (None, None, None)
  = Returns (Some (default (def 1)), Some (final (def 2)), None).
Proof.
  apply (from_python_property_slots "value" (Some (default (def 1)))
           (Some (final (def 2))) None).
  reflexivity.
Defined.

(** ** What a declaration raises and what it leaves alone *)

(** X12. The check of the [override] marks goes through exactly when every
    function of the class that carries the mark goes by a name that
    [has_member] finds on one of the interfaces. *)
Theorem check_overrides_returns :
  forall (w : World) (implements : list ClassId) (items : Dict),
    check_overrides w implements items = Returns tt <->
    forall key f,
      In (key, VFunction f) items -> is_override f = true ->
      exists i, In i implements /\ has_member w i key = true.
Proof.
  intros w implements items. induction items as [|[key value] items IH]; simpl.
  - split; [intros _ key f [] | reflexivity].
  - destruct value as [|f| | | |]; simpl;
      try (rewrite IH; split;
           [intros H k f0 [E|Hin]; [discriminate E | apply (H k f0 Hin)]
           |intros H k f0 Hin; apply (H k f0); right; exact Hin]).
    destruct (is_override f) eqn:O; simpl.
    + destruct (existsb (fun i => has_member w i key) implements) eqn:E.
      * rewrite IH. split.
        -- intros H k f0 [Eq|Hin] Ho; [|apply (H k f0 Hin Ho)].
           injection Eq as <- <-. apply existsb_exists in E. exact E.
        -- intros H k f0 Hin. apply (H k f0). right. exact Hin.
      * split; [discriminate|]. intros H.
        destruct (H key f (or_introl eq_refl) O) as [i [Hi Hm]].
        assert (E' : existsb (fun i => has_member w i key) implements = true).
        { apply existsb_exists. exists i. auto. }
        rewrite E' in E. discriminate.
    + rewrite IH. split.
      * intros H k f0 [Eq|Hin] Ho; [|apply (H k f0 Hin Ho)].
        injection Eq as <- <-. rewrite O in Ho. discriminate.
      * intros H k f0 Hin. apply (H k f0). right. exact Hin.
Qed.



Lemma check_overrides_returns_witness :
  exists i, In i [4] /\ has_member world_final i "stop" = true.
Proof.
  apply (proj1 (check_overrides_returns world_final [4]
                  [("stop", VFunction (override (def 8)))])
           ltac:(vm_compute; reflexivity) "stop" (override (def 8))).
  - left. reflexivity.
  - reflexivity.
Defined.









Lemma keeps_refl (w : World) : keeps w w.
Proof. split; [reflexivity|]. split; [reflexivity | apply same_graph_refl]. Qed.

Lemma keeps_trans (w1 w2 w3 : World) : keeps w1 w2 -> keeps w2 w3 -> keeps w1 w3.
Proof.
  intros [M1 [V1 G1]] [M2 [V2 G2]]. split; [congruence|]. split.
  - intros c. rewrite V2, V1. reflexivity.
  - apply (same_graph_trans _ _ _ G1 G2).
Qed.

Lemma keeps_register_class (self : ClassId) (w : World) (x : ClassId) :
  keeps w (register_class self w x).
Proof.
  unfold register_class. destruct (issubclass w x Interface); [|apply keeps_refl].
  split; [reflexivity|]. split; [|apply same_graph_add].
  intros c. unfold add_implementation. apply vars_update_class_keep. reflexivity.
Qed.

Lemma keeps_register_classes (self : ClassId) (bs : list ClassId) :
  forall w, keeps w (fold_left (register_class self) bs w).
Proof.
  induction bs as [|b bs IH]; intros w; simpl; [apply keeps_refl|].
  apply (keeps_trans w (register_class self w b)); [apply keeps_register_class | apply IH].
Qed.

Lemma keeps_register_walk (self : ClassId) (fuel : nat) :
  forall w bs, keeps w (register_walk fuel self w bs).
Proof.
  induction fuel as [|fuel IH]; intros w bs.
  - destruct bs; apply keeps_refl.
  - destruct bs as [|b bs']; [apply keeps_refl|].
    change (register_walk (S fuel) self w (b :: bs'))
      with (register_walk fuel self
              (fold_left (register_class self) (b :: bs') w)
              (flat_map (bases_of w) (b :: bs'))).
    apply (keeps_trans w (fold_left (register_class self) (b :: bs') w));
      [apply keeps_register_classes | apply IH].
Qed.

Lemma keeps_register (self : ClassId) (implements : list ClassId) :
  forall w, keeps w (fst (register self implements w)).
Proof.
  unfold register, modify. simpl.
  induction implements as [|i rest IH]; intros w; simpl; [apply keeps_refl|].
  apply (keeps_trans w (register_walk (List.length (classes w)) self w [i]));
    [apply keeps_register_walk | apply IH].
Qed.

Lemma check_interfaces_agree (self : ClassId) (attrs : Dict)
      (implements : list ClassId) :
  forall w, agree (fun c => c <> self) w (fst (check_interfaces self attrs implements w)).
Proof.
  induction implements as [|i rest IH]; intros w; simpl; [apply agree_refl|].
  destruct (members_of w i) as [ms|e]; [|apply agree_refl].
  destruct (fold_check_step self attrs ms w []) as [Ha _].
  destruct (fold_left (check_step self attrs) ms (w, [])) as [w1 [|e errs]];
    simpl in Ha; [|exact Ha].
  apply (agree_trans _ w w1); [exact Ha | apply IH].
Qed.

Lemma untouched_agree (N : nat) (P : ClassId -> Prop) (w w' : World) :
  (forall c, c < N -> P c) -> agree P w w' -> untouched N w w'.
Proof.
  intros HP Ha. split; [exact (proj1 Ha)|]. intros c Hc.
  split; [apply (agree_vars P w w' Ha c (HP c Hc))|].
  split; [apply (agree_mro P w w' Ha c (HP c Hc))
         | apply (agree_bases P w w' Ha c (HP c Hc))].
Qed.

Lemma untouched_keeps (N : nat) (w w' : World) : keeps w w' -> untouched N w w'.
Proof.
  intros [M [V G]]. split; [exact M|]. intros c _.
  split; [apply V|]. split; [apply (proj2 (proj2 G c)) | apply (proj1 (proj2 G c))].
Qed.

Lemma untouched_refl (N : nat) (w : World) : untouched N w w.
Proof. split; auto. Qed.

Lemma untouched_trans (N : nat) (w1 w2 w3 : World) :
  untouched N w1 w2 -> untouched N w2 w3 -> untouched N w1 w3.
Proof.
  intros [M1 H1] [M2 H2]. split; [congruence|]. intros c Hc.
  destruct (H1 c Hc) as [V1 [R1 B1]], (H2 c Hc) as [V2 [R2 B2]].
  repeat split; congruence.
Qed.

Lemma metanew_untouched (name : string) (bases : list ClassId) (attrs : Dict)
      (w : World) :
  untouched (List.length (classes w)) w (fst (Implementation_metanew name bases attrs w)).
Proof.
  unfold Implementation_metanew, sbind, lift, ret.
  destruct (setdefault_implements attrs) as [la|e0]; [|apply untouched_refl].
  destruct (merge_defaults w (reduce_interfaces w (fst la)) (snd la)) as [attrs1|e1];
    [|apply untouched_refl].
  destruct (type_new name bases attrs1 w) as [w1 [self|e1]] eqn:Ht.
  - destruct (type_new_returns _ _ _ _ _ _ Ht) as [Hs _].
    assert (U1 : untouched (List.length (classes w)) w w1).
    { apply (untouched_agree _ (fun c => c < List.length (classes w)));
        [auto | apply (type_new_agree _ _ _ _ _ _ Ht)]. }
    pose proof (check_interfaces_agree self attrs1 (reduce_interfaces w (fst la)) w1)
      as A2.
    destruct (check_interfaces self attrs1 (reduce_interfaces w (fst la)) w1)
      as [w2 r2]. simpl in A2.
    assert (U2 : untouched (List.length (classes w)) w w2).
    { apply (untouched_trans _ w w1 w2 U1).
      apply (untouched_agree _ (fun c => c <> self)); [|exact A2].
      intros c Hc. lia. }
    destruct r2 as [[]|e2]; [|exact U2].
    destruct (check_overrides w2 (reduce_interfaces w (fst la)) (vars w2 self))
      as [[]|e3]; [|exact U2].
    apply (untouched_trans _ w w2 _ U2). apply untouched_keeps.
    apply keeps_register.
  - apply type_new_raises in Ht. subst w1. apply untouched_refl.
Qed.

(** X14. Take a class whose body does not bind [__implements__] itself, so
    that the list its [implements] calls append to is its own.  Its
    declaration, whether it goes through or raises, changes no member
    object, and leaves to every class that was there before its namespace,
    its bases and its resolution order: all that it may change on them are
    implementations sets. *)
Theorem declare_leaves_classes :
  forall (name : string) (bases : list ClassId) (calls : list (list ClassId))
         (body : Dict) (w : World),
    dict_get body implements_key = None ->
    untouched (List.length (classes w)) w (fst (declare name bases calls body w)).
Proof.
  intros name bases calls body w _. unfold declare, sbind, lift.
  destruct (run_implements w calls body) as [locals|e]; [|apply untouched_refl].
  apply metanew_untouched.
Qed.

Lemma declare_leaves_classes_witness :
  untouched (List.length (classes world_diamond)) world_diamond
    (fst (declare "Impl" [Implementation] [[4; 5; 6]] [] world_diamond)).
Proof.
  apply (declare_leaves_classes "Impl" [Implementation] [[4; 5; 6]] [] world_diamond).
  reflexivity.
Defined.

(** ** Registration adds nothing else *)

Lemma add_implementation_inv (self : ClassId) (w : World) (x z y : ClassId) :
  In y (implementations_of (add_implementation self w x) z) ->
  In y (implementations_of w z) \/ (y = self /\ z = x).
Proof.
  rewrite implementations_add. destruct (Nat.eqb x z) eqn:E; [|auto].
  apply Nat.eqb_eq in E. subst z. unfold implementations_of.
  destruct (lookup_class w x) as [k|]; [|auto].
  destruct (class_in self (implementations k)); [auto|].
  intros H. apply in_app_or in H. destruct H as [H|[<-|[]]]; auto.
Qed.

Lemma register_classes_inv (self : ClassId) (bs : list ClassId) :
  forall (w : World) (z y : ClassId),
    In y (implementations_of (fold_left (register_class self) bs w) z) ->
    In y (implementations_of w z)
    \/ (y = self /\ In z bs /\ issubclass w z Interface = true).
Proof.
  induction bs as [|b bs IH]; intros w z y H; simpl in H; [auto|].
  destruct (IH _ _ _ H) as [H1|[Hy [Hz Hi]]].
  - unfold register_class in H1. destruct (issubclass w b Interface) eqn:E; [|auto].
    destruct (add_implementation_inv self w b z y H1) as [H2|[Hy ->]]; [auto|].
    right. split; [exact Hy|]. split; [left; reflexivity | exact E].
  - right. split; [exact Hy|]. split; [right; exact Hz|].
    rewrite <- (same_graph_issubclass _ _ z Interface (register_class_graph self w b)).
    exact Hi.
Qed.

Lemma register_walk_inv (self : ClassId) (fuel : nat) :
  forall (w : World) (bs : list ClassId) (z y : ClassId),
    In y (implementations_of (register_walk fuel self w bs) z) ->
    In y (implementations_of w z)
    \/ (y = self /\ issubclass w z Interface = true
        /\ exists k, In z (level (bases_of w) k bs)).
Proof.
  induction fuel as [|fuel IH]; intros w bs z y H.
  - destruct bs; simpl in H; auto.
  - destruct bs as [|b bs']; [simpl in H; auto|].
    set (bs := b :: bs') in *.
    change (register_walk (S fuel) self w bs)
      with (register_walk fuel self (fold_left (register_class self) bs w)
              (flat_map (bases_of w) bs)) in H.
    destruct (register_classes self bs w) as [G _].
    destruct (IH _ _ _ _ H) as [H1|[Hy [Hi [k Hk]]]].
    + destruct (register_classes_inv self bs w z y H1) as [H2|[Hy [Hz Hi]]]; [auto|].
      right. split; [exact Hy|]. split; [exact Hi|]. exists 0. exact Hz.
    + right. split; [exact Hy|]. split.
      * rewrite <- (same_graph_issubclass _ _ z Interface G). exact Hi.
      * exists (S k). simpl.
        rewrite <- (level_ext (bases_of w)
                      (bases_of (fold_left (register_class self) bs w))); [exact Hk|].
        intros c. apply (proj2 G c).
Qed.

Lemma level_ancestor (w : World) (k : nat) :
  forall (bs : list ClassId) (z : ClassId),
    In z (level (bases_of w) k bs) -> exists b, In b bs /\ ancestor w b z.
Proof.
  induction k as [|k IH]; intros bs z H; simpl in H.
  - exists z. split; [exact H | apply ancestor_self].
  - destruct (IH _ _ H) as [b' [Hb' Ha]].
    apply in_flat_map in Hb'. destruct Hb' as [b [Hb Hin]].
    exists b. split; [exact Hb|]. apply (ancestor_base w b b' z Hin Ha).
Qed.

Lemma register_inv (self : ClassId) (w0 : World) (implements : list ClassId) :
  forall (w : World) (z y : ClassId),
    same_graph w0 w ->
    In y (implementations_of (fst (register self implements w)) z) ->
    In y (implementations_of w z)
    \/ (y = self /\ issubclass w0 z Interface = true
        /\ exists i, In i implements /\ ancestor w0 i z).
Proof.
  unfold register, modify. simpl.
  induction implements as [|j rest IH]; intros w z y G H; simpl in H; [auto|].
  destruct (register_walk_spec self (List.length (classes w)) w [j]) as [G1 _].
  destruct (IH _ _ _ (same_graph_trans _ _ _ G G1) H)
    as [H1|[Hy [Hi [i [Hin Ha]]]]].
  - destruct (register_walk_inv self _ w [j] z y H1) as [H2|[Hy [Hi [k Hk]]]]; [auto|].
    right. split; [exact Hy|]. split.
    + rewrite <- (same_graph_issubclass _ _ z Interface G). exact Hi.
    + rewrite (level_ext (bases_of w0) (bases_of w)) in Hk
        by (intros c; apply (proj2 G c)).
      destruct (level_ancestor w0 k [j] z Hk) as [b [[<-|[]] Ha]].
      exists j. split; [left; reflexivity | exact Ha].
  - right. split; [exact Hy|]. split; [exact Hi|].
    exists i. split; [right; exact Hin | exact Ha].
Qed.

Lemma ancestor_transfer (w w2 : World) (N : nat) :
  bases_older w = true ->
  (forall c, c < N -> bases_of w2 c = bases_of w c) ->
  forall i z, ancestor w2 i z -> i < N -> ancestor w i z /\ z <= i.
Proof.
  intros Ho HB i z Ha. induction Ha as [c|c b z Hb Ha IH]; intros Hc.
  - split; [apply ancestor_self | lia].
  - rewrite (HB c Hc) in Hb.
    pose proof (bases_older_lt w c b Ho Hb) as Hlt.
    destruct IH as [Ha' Hz]; [lia|].
    split; [apply (ancestor_base w c b z Hb Ha') | lia].
Qed.

Lemma metanew_registers_only (name : string) (bases : list ClassId) (attrs : Dict)
      (w w' : World) (self : ClassId) (l : list ClassId) :
  bases_older w = true ->
  Implementation_metanew name bases attrs w = (w', Returns self) ->
  dict_get attrs implements_key = Some (VList l) ->
  forall x y,
    In y (implementations_of w' x) ->
    In y (implementations_of w x)
    \/ (y = self /\ issubclass w x Interface = true
        /\ exists i, In i (reduce_interfaces w l) /\ ancestor w i x).
Proof.
  intros Ho H Hl x y Hy.
  unfold Implementation_metanew, sbind, lift, ret in H.
  unfold setdefault_implements in H. fold implements_key in H. rewrite Hl in H.
  simpl in H.
  destruct (merge_defaults w (reduce_interfaces w l) attrs) as [attrs1|e1] eqn:Hm;
    [|discriminate].
  destruct (type_new name bases attrs1 w) as [w1 [s|e1]] eqn:Ht; [|discriminate].
  pose proof (type_new_agree _ _ _ _ _ _ Ht) as Hag.
  pose proof (same_registry_type_new name bases attrs1 w) as R1.
  rewrite Ht in R1. simpl in R1.
  pose proof (same_graph_check_interfaces s attrs1 (reduce_interfaces w l) w1) as G12.
  pose proof (same_registry_check_interfaces s attrs1 (reduce_interfaces w l) w1) as R12.
  destruct (check_interfaces s attrs1 (reduce_interfaces w l) w1) as [w2 [[]|e2]];
    [|discriminate].
  simpl in G12, R12.
  destruct (check_overrides w2 (reduce_interfaces w l) (vars w2 s)) as [[]|e3];
    [|discriminate].
  injection H as <- <-.
  set (N := List.length (classes w)) in *.
  assert (HB : forall c, c < N -> bases_of w2 c = bases_of w c).
  { intros c Hc. rewrite (proj1 (proj2 G12 c)). apply (agree_bases _ w w1 Hag c Hc). }
  destruct (register_inv s w2 (reduce_interfaces w l) w2 x y (same_graph_refl w2) Hy)
    as [H1|[Hys [Hi [i [Hin Ha]]]]].
  - left. rewrite <- (R1 x), <- (R12 x). exact H1.
  - right. split; [exact Hys|].
    assert (HiN : i < N).
    { apply is_interface_exists. apply (merge_defaults_interfaces _ _ _ _ Hm i Hin). }
    destruct (ancestor_transfer w w2 N Ho HB i x Ha HiN) as [Ha' Hx].
    split.
    + rewrite (same_graph_issubclass _ _ x Interface G12) in Hi.
      rewrite (agree_issubclass _ w w1 Hag x Interface) in Hi; [exact Hi|].
      fold N. lia.
    + exists i. auto.
Qed.

Lemma monotone_refl (w : World) : monotone w w.
Proof. intros x y H. exact H. Qed.

Lemma monotone_trans (w1 w2 w3 : World) :
  monotone w1 w2 -> monotone w2 w3 -> monotone w1 w3.
Proof. intros H1 H2 x y H. apply H2, H1, H. Qed.

Lemma monotone_same_registry (w w' : World) : same_registry w w' -> monotone w w'.
Proof. intros H x y Hy. rewrite (H x). exact Hy. Qed.

Lemma monotone_register_class (self : ClassId) (w : World) (b : ClassId) :
  monotone w (register_class self w b).
Proof.
  unfold register_class. destruct (issubclass w b Interface); [|apply monotone_refl].
  intros x y H. rewrite implementations_add.
  destruct (Nat.eqb b x); [|exact H].
  unfold implementations_of in H. destruct (lookup_class w x) as [k|]; [|exact H].
  destruct (class_in self (implementations k)); [exact H|].
  apply in_or_app. left. exact H.
Qed.

Lemma monotone_register_classes (self : ClassId) (bs : list ClassId) :
  forall w, monotone w (fold_left (register_class self) bs w).
Proof.
  induction bs as [|b bs IH]; intros w; simpl; [apply monotone_refl|].
  apply (monotone_trans w (register_class self w b));
    [apply monotone_register_class | apply IH].
Qed.

Lemma monotone_register_walk (self : ClassId) (fuel : nat) :
  forall w bs, monotone w (register_walk fuel self w bs).
Proof.
  induction fuel as [|fuel IH]; intros w bs.
  - destruct bs; apply monotone_refl.
  - destruct bs as [|b bs']; [apply monotone_refl|].
    change (register_walk (S fuel) self w (b :: bs'))
      with (register_walk fuel self
              (fold_left (register_class self) (b :: bs') w)
              (flat_map (bases_of w) (b :: bs'))).
    apply (monotone_trans w (fold_left (register_class self) (b :: bs') w));
      [apply monotone_register_classes | apply IH].
Qed.

Lemma monotone_register (self : ClassId) (implements : list ClassId) :
  forall w, monotone w (fst (register self implements w)).
Proof.
  unfold register, modify. simpl.
  induction implements as [|i rest IH]; intros w; simpl; [apply monotone_refl|].
  apply (monotone_trans w (register_walk (List.length (classes w)) self w [i]));
    [apply monotone_register_walk | apply IH].
Qed.

Lemma metanew_monotone (name : string) (bases : list ClassId) (attrs : Dict)
      (w : World) :
  monotone w (fst (Implementation_metanew name bases attrs w)).
Proof.
  unfold Implementation_metanew, sbind, lift, ret.
  destruct (setdefault_implements attrs) as [la|e0]; [|apply monotone_refl].
  destruct (merge_defaults w (reduce_interfaces w (fst la)) (snd la)) as [attrs1|e1];
    [|apply monotone_refl].
  pose proof (same_registry_type_new name bases attrs1 w) as R1.
  destruct (type_new name bases attrs1 w) as [w1 [self|e1]]; simpl in R1;
    [|apply monotone_same_registry; exact R1].
  pose proof (same_registry_check_interfaces self attrs1
                (reduce_interfaces w (fst la)) w1) as R2.
  destruct (check_interfaces self attrs1 (reduce_interfaces w (fst la)) w1)
    as [w2 r2]. simpl in R2.
  assert (M2 : monotone w w2).
  { apply monotone_same_registry. apply (same_registry_trans w w1 w2); assumption. }
  destruct r2 as [[]|e2]; [|exact M2].
  destruct (check_overrides w2 (reduce_interfaces w (fst la)) (vars w2 self))
    as [[]|e3]; [|exact M2].
  apply (monotone_trans w w2 _ M2). apply monotone_register.
Qed.

(** X15. A declaration that goes through adds to the implementations sets
    nothing but the new class, and adds it only to interfaces that are
    reached from an interface of the reduced list by walking the bases; and
    no declaration, whatever its outcome, takes an entry out of a set. *)
Theorem registration_adds_only :
  forall (name : string) (bases : list ClassId) (calls : list (list ClassId))
         (body locals : Dict) (w w' : World) (self : ClassId) (l : list ClassId),
    bases_older w = true ->
    declare name bases calls body w = (w', Returns self) ->
    run_implements w calls body = Returns locals ->
    dict_get locals implements_key = Some (VList l) ->
    (forall x y,
        In y (implementations_of w' x) ->
        In y (implementations_of w x)
        \/ (y = self /\ issubclass w x Interface = true
            /\ exists i, In i (reduce_interfaces w l) /\ ancestor w i x))
    /\ monotone w w'.
Proof.
  intros name bases calls body locals w w' self l Ho H Hr Hl. split.
  - unfold declare, sbind, lift in H. rewrite Hr in H.
    apply (metanew_registers_only name bases locals w w' self l Ho H Hl).
  - unfold declare, sbind, lift in H. rewrite Hr in H.
    pose proof (metanew_monotone name bases locals w) as M. rewrite H in M. exact M.
Qed.

Lemma registration_adds_only_witness :
  (forall x y,
      In y (implementations_of
              (fst (declare "Impl" [Implementation] [[4; 5; 6]] [] world_diamond)) x) ->
      In y (implementations_of world_diamond x)
      \/ (y = 7 /\ issubclass world_diamond x Interface = true
          /\ exists i, In i (reduce_interfaces world_diamond [4; 5; 6])
                       /\ ancestor world_diamond i x))
  /\ monotone world_diamond
       (fst (declare "Impl" [Implementation] [[4; 5; 6]] [] world_diamond)).
Proof.
  apply (registration_adds_only "Impl" [Implementation] [[4; 5; 6]] []
           [(implements_key, VList [4; 5; 6])] world_diamond
           (fst (declare "Impl" [Implementation] [[4; 5; 6]] [] world_diamond))
           7 [4; 5; 6]); vm_compute; reflexivity.
Defined.

(** ** The class that a declaration makes *)

Lemma install_is_property (w : World) (attrs : Dict) (m : MemberId)
      (n : string) (v : Value) :
  check_member w attrs m = Install n v ->
  exists g s d, dict_get attrs n = Some (VProperty g s d).
Proof.
  unfold check_member.
  destruct (member_kind (member w m)) as [impl fin|t|p]; [| discriminate |].
  - unfold check_method. destruct (dict_get attrs (member_name (member w m))) as [v0|];
      [|discriminate].
    destruct (fin && impl_differs impl v0); [discriminate|].
    destruct (negb (is_function v0)); discriminate.
  - unfold check_property.
    destruct (dict_get attrs (member_name (member w m))) as [v0|] eqn:E.
    + destruct v0; try discriminate.
      destruct (Property_satisfy (member_name (member w m)) p (fget, fset, fdel))
        as [[[g s] d]|e]; [|destruct e; discriminate].
      intros H. injection H as <- _. eauto.
    + destruct (negb (Property_is_pure_default p)); discriminate.
Qed.

Lemma check_steps_keep_entry (self : ClassId) (attrs : Dict) (k : string)
      (ms : list MemberId) :
  plain_entry attrs k ->
  forall (w : World) (errors : list string),
    dict_get (vars (fst (fold_left (check_step self attrs) ms (w, errors))) self) k
    = dict_get (vars w self) k.
Proof.
  intros Hk. induction ms as [|m ms IH]; intros w errors; simpl; [reflexivity|].
  destruct (check_member w attrs m) as [|msg|n v] eqn:E; try apply IH.
  rewrite IH. rewrite vars_setattr_same. unfold vars.
  destruct (lookup_class w self) as [c|]; [|reflexivity].
  apply dict_get_set_other. intros ->.
  destruct (install_is_property w attrs m k v E) as [g [s [d H]]].
  apply (Hk g s d H).
Qed.

Lemma check_interfaces_keep_entry (self : ClassId) (attrs : Dict) (k : string)
      (implements : list ClassId) :
  plain_entry attrs k ->
  forall w : World,
    dict_get (vars (fst (check_interfaces self attrs implements w)) self) k
    = dict_get (vars w self) k.
Proof.
  intros Hk. induction implements as [|i rest IH]; intros w; simpl; [reflexivity|].
  destruct (members_of w i) as [ms|e]; [|reflexivity].
  pose proof (check_steps_keep_entry self attrs k ms Hk w []) as Hs.
  destruct (fold_left (check_step self attrs) ms (w, [])) as [w1 [|e errs]];
    simpl in Hs; [|exact Hs].
  rewrite IH. exact Hs.
Qed.

Lemma type_new_class (name : string) (bases : list ClassId) (attrs : Dict)
      (w w1 : World) (self : ClassId) :
  type_new name bases attrs w = (w1, Returns self) ->
  vars w1 self = attrs /\ exists rest, mro w1 self = self :: rest.
Proof.
  unfold type_new. destruct (linearize w (List.length (classes w)) bases) as [l|] eqn:L;
    intros H; [|discriminate].
  injection H as <- <-. split; [apply vars_new_class|].
  unfold mro. rewrite lookup_new_class. simpl.
  unfold linearize in L.
  destruct (c3_merge _ _) as [rest|]; simpl in L; [|discriminate].
  injection L as <-. exists rest. reflexivity.
Qed.

(** The namespace of the new class after a declaration that went through:
    its resolution order starts with the class itself, and every entry of
    the merged namespace that is no property stands as it was merged. *)
Lemma metanew_class (name : string) (bases : list ClassId) (attrs : Dict)
      (w w' : World) (self : ClassId) (l : list ClassId) :
  Implementation_metanew name bases attrs w = (w', Returns self) ->
  dict_get attrs implements_key = Some (VList l) ->
  exists attrs1,
    merge_defaults w (reduce_interfaces w l) attrs = Returns attrs1
    /\ (exists rest, mro w' self = self :: rest)
    /\ forall k, plain_entry attrs1 k ->
                 dict_get (vars w' self) k = dict_get attrs1 k.
Proof.
  intros H Hl.
  unfold Implementation_metanew, sbind, lift, ret in H.
  unfold setdefault_implements in H. fold implements_key in H. rewrite Hl in H.
  simpl in H.
  destruct (merge_defaults w (reduce_interfaces w l) attrs) as [attrs1|e1] eqn:Hm;
    [|discriminate].
  destruct (type_new name bases attrs1 w) as [w1 [s|e1]] eqn:Ht; [|discriminate].
  destruct (type_new_class _ _ _ _ _ _ Ht) as [Hv [rest Hmro]].
  pose proof (same_graph_check_interfaces s attrs1 (reduce_interfaces w l) w1) as G12.
  pose proof (fun k Hk => check_interfaces_keep_entry s attrs1 k
                            (reduce_interfaces w l) Hk w1) as K12.
  destruct (check_interfaces s attrs1 (reduce_interfaces w l) w1) as [w2 [[]|e2]];
    [|discriminate].
  simpl in G12, K12.
  destruct (check_overrides w2 (reduce_interfaces w l) (vars w2 s)) as [[]|e3];
    [|discriminate].
  injection H as <- <-.
  destruct (keeps_register s (reduce_interfaces w l) w2) as [_ [V G]].
  exists attrs1. split; [reflexivity|]. split.
  - exists rest.
    exact (eq_trans (proj2 (proj2 G s)) (eq_trans (proj2 (proj2 G12 s)) Hmro)).
  - intros k Hk.
    exact (eq_trans (f_equal (fun d => dict_get d k) (V s))
             (eq_trans (K12 k Hk) (f_equal (fun d => dict_get d k) Hv))).
Qed.

Lemma getattr_own (w : World) (c : ClassId) (rest : list ClassId)
      (n : string) (v : Value) :
  mro w c = c :: rest -> dict_get (vars w c) n = Some v -> getattr w c n = Some v.
Proof. intros Hm Hv. unfold getattr. rewrite Hm. simpl. rewrite Hv. reflexivity. Qed.

(** X16. The class that a declaration has made carries the interface list of
    its body as it was declared, not as it was reduced.  So
    [Implementation.implements] answers for an interface whether one of the
    declared interfaces is a subclass of it, and [Interface.implemented_by]
    answers the same for instances of subclasses of [Implementation]. *)
Theorem implements_after_declaration :
  forall (name : string) (bases : list ClassId) (attrs : Dict) (w w' : World)
         (self : ClassId) (l : list ClassId),
    Implementation_metanew name bases attrs w = (w', Returns self) ->
    dict_get attrs implements_key = Some (VList l) ->
    implements_of w' self = Returns l
    /\ (forall i, Implementation_implements w' self i
                  = Returns (existsb (fun other => issubclass w' other i) l))
    /\ (forall i, Interface_implemented_by w' i self
                  = Returns (issubclass w' self Implementation
                             && existsb (fun other => issubclass w' other i) l))
    /\ (forall other, In other l -> issubclass w' other other = true ->
                      Implementation_implements w' self other = Returns true).
Proof.
  intros name bases attrs w w' self l H Hl.
  destruct (metanew_class name bases attrs w w' self l H Hl)
    as [attrs1 [Hm [[rest Hmro] Hk]]].
  assert (Hlist : implements_of w' self = Returns l).
  { unfold implements_of.
    rewrite (getattr_own w' self rest implements_key (VList l) Hmro); [reflexivity|].
    rewrite Hk.
    - apply (merge_defaults_keeps _ _ _ _ _ _ Hm Hl).
    - intros g s d E. rewrite (merge_defaults_keeps _ _ _ _ _ _ Hm Hl) in E.
      discriminate. }
  split; [exact Hlist|].
  assert (Himpl : forall i, Implementation_implements w' self i
                            = Returns (existsb (fun other => issubclass w' other i) l)).
  { intros i. unfold Implementation_implements. rewrite Hlist. reflexivity. }
  split; [exact Himpl|]. split.
  - intros i. unfold Interface_implemented_by. rewrite Himpl.
    destruct (issubclass w' self Implementation); reflexivity.
  - intros other Hin Hrefl. rewrite Himpl. f_equal.
    apply existsb_exists. exists other. auto.
Qed.

Lemma implements_after_declaration_witness :
  implements_of
    (fst (declare "Impl" [Implementation] [[4; 5; 6]] [] world_diamond)) 7
  = Returns [4; 5; 6]
  /\ Interface_implemented_by
       (fst (declare "Impl" [Implementation] [[4; 5; 6]] [] world_diamond)) 4 7
     = Returns true.
Proof.
  destruct (implements_after_declaration "Impl" [Implementation]
              [(implements_key, VList [4; 5; 6])] world_diamond
              (fst (declare "Impl" [Implementation] [[4; 5; 6]] [] world_diamond))
              7 [4; 5; 6]) as [H1 [_ [H3 _]]].
  - vm_compute; reflexivity.
  - reflexivity.
  - split; [exact H1|]. rewrite H3. vm_compute; reflexivity.
Defined.

(** X17. On the class that a declaration has made, take a name that does
    not begin and end with two underscores ([type.__new__] rewrites some of
    those).  What the class body binds to it, if that is no property, stands
    under the name unchanged; and if the body leaves the name out, it is
    bound to the default of the interface method of that name, when that is
    the only default that goes by the name. *)
Theorem class_gets_defaults :
  forall (name : string) (bases : list ClassId) (attrs : Dict) (w w' : World)
         (self : ClassId) (l : list ClassId),
    Implementation_metanew name bases attrs w = (w', Returns self) ->
    dict_get attrs implements_key = Some (VList l) ->
    (forall k v, is_dunder k = false ->
                 dict_get attrs k = Some v ->
                 (forall g s d, v <> VProperty g s d) ->
                 dict_get (vars w' self) k = Some v)
    /\ (forall i m d fin,
          In i (reduce_interfaces w l) -> In m (member_values w i) ->
          member_kind (member w m) = Method (Some d) fin ->
          is_dunder (member_name (member w m)) = false ->
          dict_get attrs (member_name (member w m)) = None ->
          only_default w (reduce_interfaces w l) (member_name (member w m)) d ->
          bound_to d (member_name (member w m)) (vars w' self)).
Proof.
  intros name bases attrs w w' self l H Hl.
  destruct (metanew_class name bases attrs w w' self l H Hl)
    as [attrs1 [Hm [_ Hk]]].
  split.
  - intros k v _ Hv Hplain.
    pose proof (merge_defaults_keeps _ _ _ _ _ _ Hm Hv) as Hv1.
    rewrite Hk; [exact Hv1|]. intros g s d E. rewrite Hv1 in E.
    injection E as ->. apply (Hplain g s d eq_refl).
  - intros i m d fin Hi Hmem K _ Hnone Honly.
    destruct (merge_defaults_default w (reduce_interfaces w l) d
                (member_name (member w m)) Honly attrs attrs1 Hm (or_introl Hnone))
      as [_ Hb].
    destruct (Hb i m fin Hi Hmem eq_refl K) as [f [Hf Hs]].
    exists f. split; [|exact Hs].
    rewrite Hk; [exact Hf|]. intros g s0 d0 E. rewrite Hf in E. discriminate.
Qed.

Lemma class_gets_defaults_witness :
  bound_to (default (def 2)) "farewell"
    (vars (fst (declare "EnglishGreeter" [Implementation] [[4]]
                  [("greet", VFunction (def 7))] world_greeter)) 5).
Proof.
  destruct (class_gets_defaults "EnglishGreeter" [Implementation]
              [("greet", VFunction (def 7)); (implements_key, VList [4])]
              world_greeter
              (fst (declare "EnglishGreeter" [Implementation] [[4]]
                      [("greet", VFunction (def 7))] world_greeter))
              5 [4]) as [_ H].
  - vm_compute; reflexivity.
  - reflexivity.
  - apply (H 4 1 (default (def 2)) false).
    + vm_compute. left. reflexivity.
    + vm_compute. left. reflexivity.
    + vm_compute; reflexivity.
    + vm_compute; reflexivity.
    + vm_compute; reflexivity.
    + intros i m d' fin Hi Hm Hn K. vm_compute in Hi. destruct Hi as [<-|[]].
      vm_compute in Hm. destruct Hm as [<-|[<-|[]]].
      * vm_compute in K. injection K as <- _. reflexivity.
      * vm_compute in Hn. discriminate Hn.
Defined.

(** ** What an interface definition makes of its declarations *)

Lemma entry_setattr_other (w : World) (self : ClassId) (k k' : string) (v : Value) :
  k' <> k ->
  dict_get (vars (setattr w self k' v) self) k = dict_get (vars w self) k.
Proof.
  intros Hne. rewrite vars_setattr_same. unfold vars.
  destruct (lookup_class w self) as [c|]; [|reflexivity].
  apply dict_get_set_other. exact Hne.
Qed.

Lemma made_of_shape (self : ClassId) (key : string) (value : Value) (M : Member) :
  made_of self key value = Some M ->
  (exists f, value = VFunction f) \/ (exists g s d, value = VProperty g s d).
Proof.
  unfold made_of, Method_is_candidate, Property_is_candidate.
  destruct value; eauto;
    destruct (is_private key); try discriminate;
    destruct (name_in key _); discriminate.
Qed.

Lemma define_member_made (self : ClassId) (k : string) (v : Value) (M : Member)
      (w : World) :
  made_of self k v = Some M ->
  define_member self (k, v) w
  = (setattr (mkWorld (classes w) (members w ++ [M])) self k
       (VMember (List.length (members w))), Returns tt).
Proof.
  intros H. pose proof (made_of_shape self k v M H) as Hs.
  unfold define_member.
  assert (U : unbound_member w v = None).
  { destruct Hs as [[f ->]|[g [s [d ->]]]]; reflexivity. }
  rewrite U. unfold made_of in H.
  destruct (Method_is_candidate k v).
  - injection H as <-. reflexivity.
  - destruct (Property_is_candidate k v); [|discriminate].
    injection H as <-. reflexivity.
Qed.

Lemma own_step_defines (self : ClassId) (k : string) (v : Value) (M : Member)
      (w : World) :
  made_of self k v = Some M ->
  dict_get (vars w self) k = Some v ->
  defined_as self k M (fst (define_member self (k, v) w)).
Proof.
  intros Hm Hp. rewrite (define_member_made self k v M w Hm). simpl.
  exists (List.length (members w)). split.
  - rewrite vars_setattr_same. unfold vars in Hp.
    change (lookup_class (mkWorld (classes w) (members w ++ [M])) self)
      with (lookup_class w self).
    destruct (lookup_class w self) as [c|]; [|discriminate].
    apply dict_get_set_same.
  - simpl. rewrite nth_error_app2 by lia. rewrite Nat.sub_diag. reflexivity.
Qed.

Lemma other_step_pending (self : ClassId) (k k' : string) (v v' : Value) (w : World) :
  k' <> k ->
  dict_get (vars w self) k = Some v ->
  dict_get (vars (fst (define_member self (k', v') w)) self) k = Some v.
Proof.
  intros Hne Hp. unfold define_member.
  destruct (unbound_member w v') as [m|]; [exact Hp|].
  destruct (Method_is_candidate k' v').
  - simpl. rewrite entry_setattr_other by exact Hne. exact Hp.
  - destruct (Property_is_candidate k' v'); [|exact Hp].
    simpl. rewrite entry_setattr_other by exact Hne. exact Hp.
Qed.

Lemma nth_error_member (w : World) (mid : MemberId) (M : Member) :
  nth_error (members w) mid = Some M -> member w mid = M.
Proof. intros H. unfold member. apply (nth_error_nth _ _ _ H). Qed.

Lemma other_step_defined (self : ClassId) (k k' : string) (v' : Value) (M : Member)
      (w : World) :
  k' <> k -> is_bound M = true ->
  defined_as self k M w ->
  defined_as self k M (fst (define_member self (k', v') w)).
Proof.
  intros Hne Hb [mid [Hd Hn]]. unfold define_member.
  assert (Hlt : mid < List.length (members w)).
  { apply nth_error_Some. rewrite Hn. discriminate. }
  destruct (unbound_member w v') as [m|] eqn:U.
  - exists mid. split; [exact Hd|]. simpl.
    rewrite nth_error_update_nth_other; [exact Hn|].
    intros ->. unfold unbound_member in U. destruct v'; try discriminate.
    destruct (is_bound (member w m)) eqn:B; [discriminate|].
    injection U as ->. rewrite (nth_error_member w mid M Hn) in B. congruence.
  - destruct (Method_is_candidate k' v').
    + exists mid. simpl. split.
      * rewrite entry_setattr_other by exact Hne. exact Hd.
      * rewrite nth_error_app1 by exact Hlt. exact Hn.
    + destruct (Property_is_candidate k' v').
      * exists mid. simpl. split.
        -- rewrite entry_setattr_other by exact Hne. exact Hd.
        -- rewrite nth_error_app1 by exact Hlt. exact Hn.
      * exists mid. auto.
Qed.

Lemma for_each_keeps_defined (self : ClassId) (k : string) (M : Member)
      (items : Dict) :
  is_bound M = true -> ~ In k (map fst items) ->
  forall w, defined_as self k M w ->
            defined_as self k M (fst (for_each (define_member self) items w)).
Proof.
  intros Hb. induction items as [|[k' v'] items IH]; intros Hk w Hd; [exact Hd|].
  rewrite for_each_cons.
  pose proof (define_member_returns self (k', v') w) as Hr.
  pose proof (other_step_defined self k k' v' M w
                (fun E => Hk (or_introl E)) Hb Hd) as Hd1.
  destruct (define_member self (k', v') w) as [w1 o]. simpl in Hr, Hd1. subst o.
  apply IH; [|exact Hd1]. intros Hin. apply Hk. right. exact Hin.
Qed.

Lemma for_each_defines (self : ClassId) (k : string) (v : Value) (M : Member)
      (items : Dict) :
  made_of self k v = Some M -> is_bound M = true ->
  NoDup (map fst items) -> In (k, v) items ->
  forall w, dict_get (vars w self) k = Some v ->
            defined_as self k M (fst (for_each (define_member self) items w)).
Proof.
  intros Hm Hb. induction items as [|[k' v'] items IH]; intros Hnd Hin w Hp;
    [contradiction|].
  simpl in Hnd. inversion Hnd as [|? ? Hk' Hnd']; subst.
  rewrite for_each_cons.
  pose proof (define_member_returns self (k', v') w) as Hr.
  destruct (String.eqb k' k) eqn:E.
  - apply String.eqb_eq in E. subst k'.
    assert (v' = v).
    { destruct Hin as [Hin|Hin]; [congruence|].
      exfalso. apply Hk'. apply in_map_iff. exists (k, v). auto. }
    subst v'.
    pose proof (own_step_defines self k v M w Hm Hp) as Hd.
    destruct (define_member self (k, v) w) as [w1 o]. simpl in Hr, Hd. subst o.
    apply (for_each_keeps_defined self k M items Hb Hk' w1 Hd).
  - apply String.eqb_neq in E.
    pose proof (other_step_pending self k k' v v' w E Hp) as Hp1.
    destruct (define_member self (k', v') w) as [w1 o]. simpl in Hr, Hp1. subst o.
    apply IH; [exact Hnd'| |exact Hp1].
    destruct Hin as [Hin|Hin]; [|exact Hin]. congruence.
Qed.

Lemma dict_get_entry (d : Dict) (k : string) (v : Value) :
  dict_get d k = Some v -> In (k, v) d.
Proof.
  induction d as [|[k0 v0] d IH]; simpl; intros H; [discriminate|].
  destruct (String.eqb k k0) eqn:E.
  - apply String.eqb_eq in E. subst. injection H as ->. left. reflexivity.
  - right. apply IH. exact H.
Qed.

Lemma define_member_graph (self : ClassId) (kv : string * Value) (w : World) :
  same_graph w (fst (define_member self kv w)).
Proof.
  destruct kv as [k v]. unfold define_member.
  destruct (unbound_member w v) as [m|]; [split; auto|].
  destruct (Method_is_candidate k v);
    [exact (same_graph_setattr (mkWorld (classes w) _) self k _)|].
  destruct (Property_is_candidate k v);
    [exact (same_graph_setattr (mkWorld (classes w) _) self k _)
    | apply same_graph_refl].
Qed.

Lemma for_each_define_graph (self : ClassId) (items : Dict) :
  forall w, same_graph w (fst (for_each (define_member self) items w)).
Proof.
  induction items as [|kv items IH]; intros w; [apply same_graph_refl|].
  rewrite for_each_cons.
  pose proof (define_member_returns self kv w) as Hr.
  pose proof (define_member_graph self kv w) as G.
  destruct (define_member self kv w) as [w1 o]. simpl in Hr, G. subst o.
  apply (same_graph_trans w w1); [exact G | apply IH].
Qed.

Lemma insert_name_In (n x : string) (l : list string) :
  In x (insert_name n l) <-> x = n \/ In x l.
Proof.
  induction l as [|y l IH]; simpl.
  - split; intros [H|H]; auto.
  - destruct (String.compare n y) eqn:C; simpl.
    + apply String.compare_eq_iff in C. subst y. split; intros H.
      * right. exact H.
      * destruct H as [->|H]; [left; reflexivity | exact H].
    + split; intros H.
      * destruct H as [<-|H]; [left; reflexivity | right; exact H].
      * destruct H as [->|H]; [left; reflexivity | right; exact H].
    + rewrite IH. split; intros H.
      * destruct H as [<-|[->|H]]; auto.
      * destruct H as [->|[<-|H]]; auto.
Qed.

Lemma dir_In (w : World) (c : ClassId) (n : string) :
  In n (dir w c) <-> exists k, In k (mro w c) /\ In n (map fst (vars w k)).
Proof.
  unfold dir. rewrite <- in_flat_map.
  generalize (flat_map (fun k => map fst (vars w k)) (mro w c)). intros l.
  induction l as [|y l IH]; simpl; [tauto|].
  rewrite insert_name_In, IH. split; intros [H|H]; auto.
Qed.

Lemma member_values_own (w : World) (c : ClassId) (rest : list ClassId)
      (n : string) (mid : MemberId) :
  mro w c = c :: rest -> dict_get (vars w c) n = Some (VMember mid) ->
  In mid (member_values w c).
Proof.
  intros Hm Hd. unfold member_values. apply in_flat_map. exists n. split.
  - apply dir_In. exists c. split; [rewrite Hm; left; reflexivity|].
    apply in_map_iff. exists (n, VMember mid). split; [reflexivity|].
    apply dict_get_entry. exact Hd.
  - rewrite (getattr_own w c rest n (VMember mid) Hm Hd). left. reflexivity.
Qed.

Lemma for_each_define_returns (self : ClassId) (items : Dict) :
  forall w, snd (for_each (define_member self) items w) = Returns tt.
Proof.
  induction items as [|kv items IH]; intros w; [reflexivity|].
  rewrite for_each_cons.
  pose proof (define_member_returns self kv w) as Hr.
  destruct (define_member self kv w) as [w1 o]. simpl in Hr. subst o. apply IH.
Qed.

Lemma Interface_metanew_defines (name : string) (bases : list ClassId) (attrs : Dict)
      (w w' : World) (self : ClassId) (k : string) (v : Value) (M : Member) :
  Interface_metanew name bases attrs w = (w', Returns self) ->
  NoDup (map fst attrs) ->
  dict_get attrs k = Some v ->
  k <> "" -> k <> "implementations" ->
  made_of self k v = Some M ->
  is_bound M = true ->
  exists mid,
    getattr w' self k = Some (VMember mid)
    /\ member w' mid = M
    /\ In mid (member_values w' self).
Proof.
  intros H Hnd Hk Hne Hni Hm Hb.
  unfold Interface_metanew, sbind, lift, ret in H.
  destruct (type_new name bases attrs w) as [w1 [s|e]] eqn:T; [|discriminate].
  destruct (type_new_class name bases attrs w w1 s T) as [Hv [rest Hmro]].
  unfold set_implementations, modify in H.
  set (w2 := update_class (setattr w1 s "implementations" (VOther "set")) s _) in H.
  pose proof (for_each_define_graph s (vars w2 s) w2) as G.
  pose proof (for_each_define_returns s (vars w2 s) w2) as Hr.
  assert (V2 : vars w2 s = dict_set attrs "implementations" (VOther "set")).
  { unfold w2. rewrite vars_update_class_keep by reflexivity.
    rewrite vars_setattr_same.
    unfold vars in Hv. destruct (lookup_class w1 s) as [c|].
    - rewrite Hv. reflexivity.
    - subst attrs. simpl in Hk. discriminate Hk. }
  assert (G2 : same_graph w1 w2).
  { unfold w2. apply (same_graph_trans _ (setattr w1 s "implementations" (VOther "set")));
      [apply same_graph_setattr|].
    apply same_graph_update_class. intros c. split; reflexivity. }
  assert (P2 : dict_get (vars w2 s) k = Some v).
  { rewrite V2. rewrite dict_get_set_other; [exact Hk|].
    intros E. apply Hni. symmetry. exact E. }
  assert (D : defined_as s k M (fst (for_each (define_member s) (vars w2 s) w2))).
  { destruct (for_each (define_member s) (vars w2 s) w2) as [w3 o] eqn:F.
    simpl in Hr. subst o. injection H as <- <-.
    rewrite <- F. apply (for_each_defines s k v M (vars w2 s) Hm Hb).
    - rewrite V2. apply NoDup_keys_dict_set. exact Hnd.
    - apply dict_get_entry. exact P2.
    - exact P2. }
  destruct (for_each (define_member s) (vars w2 s) w2) as [w3 o].
  simpl in Hr, G, D. subst o. injection H as <- <-.
  destruct D as [mid [Hd Hn]].
  assert (Hmro3 : mro w3 s = s :: rest).
  { rewrite (proj2 (proj2 G s)). rewrite (proj2 (proj2 G2 s)). exact Hmro. }
  exists mid. split; [|split].
  - apply (getattr_own w3 s rest k _ Hmro3 Hd).
  - apply nth_error_member. exact Hn.
  - apply (member_values_own w3 s rest k mid Hmro3 Hd).
Qed.

(** X18. What [Interface.__metanew__] makes of the class body, for a name
    that does not begin and end with two underscores and is not
    [implementations], which the interface overwrites with its set.  A
    function under such a name, if the name is not private, is replaced by a
    [Method] member that is bound to the new interface under that name,
    carries the function as its implementation exactly when the function is
    marked as a default, and is final exactly when the function is marked
    final; [members()] yields it and [has_member] answers yes.  A property
    under such a name, private or not, is replaced by the [Property] member
    that [from_python_property] makes of it; [members()] yields it, and
    [has_member], which counts methods and attributes only, answers no.  The
    names of a body are distinct. *)
Theorem interface_declares_members :
  forall (name : string) (bases : list ClassId) (attrs : Dict) (w w' : World)
         (self : ClassId) (k : string) (v : Value),
    Interface_metanew name bases attrs w = (w', Returns self) ->
    NoDup (map fst attrs) ->
    dict_get attrs k = Some v ->
    is_dunder k = false -> k <> "" -> k <> "implementations" ->
    (forall f, v = VFunction f ->
               is_private k = false ->
               exists mid,
                 getattr w' self k = Some (VMember mid)
                 /\ member w' mid
                    = mkMember (Some self) k
                        (Method (if is_default f then Some f else None) (is_final f))
                 /\ In mid (member_values w' self)
                 /\ has_member w' self k = true)
    /\ (forall g s d, v = VProperty g s d ->
               exists mid,
                 getattr w' self k = Some (VMember mid)
                 /\ member w' mid
                    = mkMember (Some self) k
                        (Property (Property_from_python_property (g, s, d)))
                 /\ In mid (member_values w' self)
                 /\ has_member w' self k = false).
Proof.
  intros name bases attrs w w' self k v H Hnd Hk Hdu Hne Hni.
  assert (Hb : forall kind, is_bound (mkMember (Some self) k kind) = true).
  { intros kind. unfold is_bound. simpl.
    destruct (String.eqb k "") eqn:E; [|reflexivity].
    apply String.eqb_eq in E. contradiction. }
  assert (Hn : name_in k ["__new__"; "__init__"; "__constructed__"] = false).
  { unfold name_in. simpl.
    destruct (String.eqb k "__new__") eqn:E1;
      [apply String.eqb_eq in E1; subst k; discriminate Hdu|].
    destruct (String.eqb k "__init__") eqn:E2;
      [apply String.eqb_eq in E2; subst k; discriminate Hdu|].
    destruct (String.eqb k "__constructed__") eqn:E3;
      [apply String.eqb_eq in E3; subst k; discriminate Hdu|].
    reflexivity. }
  split.
  - intros f -> Hp.
    destruct (Interface_metanew_defines name bases attrs w w' self k (VFunction f)
                (mkMember (Some self) k
                   (Method (if is_default f then Some f else None) (is_final f)))
                H Hnd Hk Hne Hni) as [mid [Hg [Hm Hin]]].
    + unfold made_of, Method_is_candidate. rewrite Hp, Hn. reflexivity.
    + apply Hb.
    + exists mid. split; [exact Hg|]. split; [exact Hm|]. split; [exact Hin|].
      assert (Hn2 : name_in k ["__new__"; "__init__"] = false).
      { unfold name_in in *. simpl in *.
        destruct (String.eqb k "__new__"); [discriminate|].
        destruct (String.eqb k "__init__"); [discriminate|]. reflexivity. }
      unfold has_member. rewrite Hp, Hn2, Hg, Hm. reflexivity.
  - intros g s d ->.
    destruct (Interface_metanew_defines name bases attrs w w' self k (VProperty g s d)
                (mkMember (Some self) k
                   (Property (Property_from_python_property (g, s, d))))
                H Hnd Hk Hne Hni) as [mid [Hg [Hm Hin]]].
    + unfold made_of, Method_is_candidate, Property_is_candidate.
      destruct (is_private k); [reflexivity|].
      destruct (name_in k _); reflexivity.
    + apply Hb.
    + exists mid. split; [exact Hg|]. split; [exact Hm|]. split; [exact Hin|].
      unfold has_member.
      destruct (is_private k || name_in k ["__new__"; "__init__"]); [reflexivity|].
      rewrite Hg, Hm. reflexivity.
Qed.

Lemma interface_declares_members_witness :
  exists mid,
    getattr world_greeter 4 "farewell" = Some (VMember mid)
    /\ member world_greeter mid
       = mkMember (Some 4) "farewell" (Method (Some (default (def 2))) false)
    /\ In mid (member_values world_greeter 4)
    /\ has_member world_greeter 4 "farewell" = true.
Proof.
  destruct (interface_declares_members "Greeter" [Interface]
              [("greet", VFunction (def 1)); ("farewell", VFunction (default (def 2)))]
              world0 world_greeter 4 "farewell" (VFunction (default (def 2))))
    as [H _].
  - vm_compute; reflexivity.
  - repeat constructor; simpl; intuition discriminate.
  - reflexivity.
  - reflexivity.
  - discriminate.
  - discriminate.
  - apply (H (default (def 2))); reflexivity.
Defined.

(** ** Placeholders that a class body shares between names *)

Lemma define_member_keeps_bound (self : ClassId) (kv : string * Value) (w : World)
      (m : MemberId) (M : Member) :
  is_bound M = true ->
  nth_error (members w) m = Some M ->
  nth_error (members (fst (define_member self kv w))) m = Some M.
Proof.
  intros Hb Hn. destruct kv as [k v]. unfold define_member.
  assert (Hlt : m < List.length (members w)).
  { apply nth_error_Some. rewrite Hn. discriminate. }
  destruct (unbound_member w v) as [m'|] eqn:U.
  - simpl. rewrite nth_error_update_nth_other; [exact Hn|].
    intros ->. unfold unbound_member in U. destruct v; try discriminate.
    destruct (is_bound (member w m0)) eqn:B; [discriminate|].
    injection U as ->. rewrite (nth_error_member w m M Hn) in B. congruence.
  - destruct (Method_is_candidate k v);
      [simpl; rewrite nth_error_app1 by exact Hlt; exact Hn|].
    destruct (Property_is_candidate k v);
      [simpl; rewrite nth_error_app1 by exact Hlt; exact Hn | exact Hn].
Qed.

Lemma for_each_keeps_bound (self : ClassId) (m : MemberId) (M : Member)
      (items : Dict) :
  is_bound M = true ->
  forall w, nth_error (members w) m = Some M ->
            nth_error (members (fst (for_each (define_member self) items w))) m
            = Some M.
Proof.
  intros Hb. induction items as [|kv items IH]; intros w Hn; [exact Hn|].
  rewrite for_each_cons.
  pose proof (define_member_returns self kv w) as Hr.
  pose proof (define_member_keeps_bound self kv w m M Hb Hn) as Hn1.
  destruct (define_member self kv w) as [w1 o]. simpl in Hr, Hn1. subst o.
  apply IH. exact Hn1.
Qed.










(** ** What an interface definition leaves alone *)

Lemma define_member_frame (self : ClassId) (kv : string * Value) (w : World) :
  agree_classes_but self w (fst (define_member self kv w)).
Proof.
  destruct kv as [k v]. unfold define_member, agree_classes_but.
  destruct (unbound_member w v) as [m|];
    [split; [intros; reflexivity | intros x; reflexivity]|].
  destruct (Method_is_candidate k v).
  - simpl. split.
    + intros c Hc. apply (lookup_setattr_other (mkWorld (classes w) _)). congruence.
    + exact (same_registry_setattr (mkWorld (classes w) _) self k _).
  - destruct (Property_is_candidate k v);
      [|split; [intros; reflexivity | intros x; reflexivity]].
    simpl. split.
    + intros c Hc. apply (lookup_setattr_other (mkWorld (classes w) _)). congruence.
    + exact (same_registry_setattr (mkWorld (classes w) _) self k _).
Qed.

Lemma for_each_define_frame (self : ClassId) (items : Dict) :
  forall w, agree_classes_but self w (fst (for_each (define_member self) items w)).
Proof.
  induction items as [|kv items IH]; intros w; [split; [reflexivity | apply same_registry_refl]|].
  rewrite for_each_cons.
  pose proof (define_member_returns self kv w) as Hr.
  pose proof (define_member_frame self kv w) as [F1 F2].
  destruct (define_member self kv w) as [w1 o]. simpl in Hr, F1, F2. subst o.
  destruct (IH w1) as [I1 I2]. split.
  - intros c Hc. rewrite I1, F1; auto.
  - intros x. rewrite I2, F2. reflexivity.
Qed.

(** X20. Defining an interface touches nothing that was there before.  Every
    class object that existed keeps its namespace, its bases, its resolution
    order and its implementations set; every member that was bound stays as
    it was.  The new interface is the next class of the store and starts with
    an empty implementations set.  When [type.__new__] raises, the error is
    that of the definition, and the store is as it was. *)
Theorem interface_definition_frame :
  forall (name : string) (bases : list ClassId) (attrs : Dict) (w : World),
    (forall c, c < List.length (classes w) ->
               lookup_class (fst (Interface_metanew name bases attrs w)) c
               = lookup_class w c)
    /\ (forall m M, nth_error (members w) m = Some M -> is_bound M = true ->
                    nth_error (members (fst (Interface_metanew name bases attrs w))) m
                    = Some M)
    /\ (forall self, snd (Interface_metanew name bases attrs w) = Returns self ->
                     self = List.length (classes w)
                     /\ implementations_of
                          (fst (Interface_metanew name bases attrs w)) self = [])
    /\ (forall e, snd (type_new name bases attrs w) = Raises e ->
                  Interface_metanew name bases attrs w = (w, Raises e)).
Proof.
  intros name bases attrs w.
  unfold Interface_metanew, sbind, lift, ret.
  destruct (type_new name bases attrs w) as [w1 [s|e]] eqn:T.
  - destruct (type_new_returns name bases attrs w w1 s T) as [Hs [l Hw1]].
    pose proof (type_new_agree name bases attrs w w1 s T) as [Hm1 Hc1].
    unfold set_implementations, modify.
    set (w2 := update_class (setattr w1 s "implementations" (VOther "set")) s _).
    pose proof (for_each_define_returns s (vars w2 s) w2) as Hr.
    pose proof (for_each_define_frame s (vars w2 s) w2) as [F1 F2].
    assert (L2 : forall c, c <> s -> lookup_class w2 c = lookup_class w1 c).
    { intros c Hc. unfold w2. rewrite lookup_update_class.
      destruct (Nat.eqb s c) eqn:E; [apply Nat.eqb_eq in E; congruence|].
      apply lookup_setattr_other. congruence. }
    assert (I2 : implementations_of w2 s = []).
    { unfold w2, implementations_of, update_class, lookup_class. simpl.
      rewrite nth_error_update_nth_same.
      destruct (nth_error _ s); reflexivity. }
    assert (M2 : members w2 = members w) by (rewrite <- Hm1; reflexivity).
    split; [|split; [|split]].
    + intros c Hc.
      destruct (for_each (define_member s) (vars w2 s) w2) as [w3 o].
      simpl in Hr, F1. subst o. simpl.
      rewrite F1 by lia. rewrite L2 by lia. apply Hc1. exact Hc.
    + intros m M Hn Hb.
      pose proof (for_each_keeps_bound s m M (vars w2 s) Hb w2) as K.
      rewrite M2 in K. specialize (K Hn).
      destruct (for_each (define_member s) (vars w2 s) w2) as [w3 o].
      simpl in Hr, K. subst o. exact K.
    + intros self Hret.
      destruct (for_each (define_member s) (vars w2 s) w2) as [w3 o].
      simpl in Hr, F2. subst o. simpl in *. injection Hret as <-.
      split; [exact Hs|]. rewrite F2. exact I2.
    + intros e He. simpl in He. discriminate He.
  - pose proof (type_new_raises name bases attrs w w1 e T) as ->.
    simpl. split; [auto|]. split; [auto|]. split; [discriminate|].
    intros e' He. injection He as <-. reflexivity.
Qed.
